(** * dynamicgem: dynamic graph factorization and ranking metrics

    A shallow embedding of
      - [dynamicgem/evaluation/metrics.py]  (module [Metrics]) and
      - [dynamicgem/embedding/graphFac_dynamic.py]  (module [GraphFac]),
    together with the properties of the library's specification that
    concern them.

    Conventions of the embedding.
      - Python and numpy floating-point numbers are idealised as exact
        rationals ([Q]); Python integers are [Z] where they may be
        negative and [nat] where the code only counts.
      - A Python exception is a value of [exn]; a computation that may
        raise returns a [result].
      - Object attributes ([self._X], ...) are fields of a record that is
        passed along explicitly. *)

From Stdlib Require Import String Ascii QArith ZArith List Bool Arith Lia.
From Stdlib Require Import Qabs.
Import ListNotations.

(** ** Exceptions and fallible computations *)

Inductive exn : Type :=
| ValueError
| IndexError
| UnboundLocalError
| ZeroDivisionError
| AttributeError
| LinAlgError.

Inductive result (A : Type) : Type :=
| Ok (a : A)
| Raise (e : exn).

Arguments Ok {A} a.
Arguments Raise {A} e.

Definition bind {A B : Type} (r : result A) (k : A -> result B) : result B :=
  match r with
  | Ok a => k a
  | Raise e => Raise e
  end.

Declare Scope result_scope.
Delimit Scope result_scope with res.
Notation "x <- r ;; k" := (bind r (fun x => k))
  (at level 61, r at next level, right associativity) : result_scope.

(** ** The fragment of Python's built-ins that the code relies on *)

Module Py.

(** [l[i]] on a list: a negative index counts from the end, an index
    outside [-len, len) raises [IndexError]. *)
Definition getitem {A : Type} (l : list A) (i : Z) : result A :=
  let n := Z.of_nat (length l) in
  let k := (if i <? 0 then i + n else i)%Z in
  if (k <? 0)%Z then Raise IndexError
  else match nth_error l (Z.to_nat k) with
       | Some x => Ok x
       | None => Raise IndexError
       end.

(** [sum(l)] of a list of numbers. *)
Definition sum (l : list Q) : Q := fold_left Qplus l 0.

(** [s[1:]] on a string. *)
Definition tail_str (s : string) : string :=
  match s with
  | EmptyString => EmptyString
  | String _ s' => s'
  end.

End Py.

(** Strict comparison of two rationals as a boolean. *)
Definition Qlt_bool (x y : Q) : bool := negb (Qle_bool y x).

(** ** metrics.py *)

Module Metrics.

(** A predicted edge [(source, target, score)]. *)
Definition edge : Type := (Z * Z * Q)%type.

Definition src (e : edge) : Z := fst (fst e).
Definition dst (e : edge) : Z := snd (fst e).
Definition score (e : edge) : Q := snd e.

(** The ground-truth graph is consumed through three observers of the
    graph library only. *)
Record DiGraph : Type := {
  number_of_nodes : nat;
  has_edge : Z -> Z -> bool;
  out_degree : Z -> Z
}.

Definition precision_pos : list Z := [2; 10; 100; 200; 300; 500; 1000]%Z.

(** [sorted(l, key=lambda x: x[2], reverse=True)]: a stable sort,
    descending by score; entries of equal score keep their order. *)
Fixpoint insert_desc (x : edge) (l : list edge) : list edge :=
  match l with
  | [] => [x]
  | y :: l' =>
      if Qlt_bool (score x) (score y) then y :: insert_desc x l'
      else x :: y :: l'
  end.

Definition sorted_desc (l : list edge) : list edge :=
  fold_right insert_desc [] l.

(** [1.0 * correct_edge / k]. *)
Definition ratio (correct_edge k : nat) : Q :=
  inject_Z (Z.of_nat correct_edge) / inject_Z (Z.of_nat k).

(** The three accumulators of the scoring loops. *)
Record acc : Type := {
  precision_scores : list Q;
  delta_factors : list Q;
  correct_edge : nat
}.

Definition acc0 : acc :=
  {| precision_scores := []; delta_factors := []; correct_edge := 0 |}.

(** One round of either loop: [hit] is the outcome of the test, [k] the
    one-based rank that divides the running count. *)
Definition record_rank (hit : bool) (k : nat) (a : acc) : acc :=
  let c := if hit then S (correct_edge a) else correct_edge a in
  {| precision_scores := precision_scores a ++ [ratio c k];
     delta_factors := delta_factors a ++ [if hit then 1 else 0];
     correct_edge := c |}.

(** [for i in range(...)] over [sorted_edges[i]], from rank [i]. *)
Fixpoint score_predictions (g : DiGraph) (es : list edge) (i : nat)
    (a : acc) : acc :=
  match es with
  | [] => a
  | e :: es' =>
      score_predictions g es' (S i)
        (record_rank (has_edge g (src e) (dst e)) (i + 1) a)
  end.

(** The effective [max_k] of [computePrecisionCurve]. *)
Definition clip_k (max_k : Z) (len : nat) : Z :=
  if (max_k =? -1)%Z then Z.of_nat len else Z.min max_k (Z.of_nat len).

(** [computePrecisionCurve]: the loop visits [sorted_edges[i]] for
    [i < max_k <= len], that is the first [max_k] sorted entries. *)
Definition computePrecisionCurve (predicted_edge_list : list edge)
    (true_digraph : DiGraph) (max_k : Z) : list Q * list Q :=
  let max_k := clip_k max_k (length predicted_edge_list) in
  let sorted_edges := sorted_desc predicted_edge_list in
  let a := score_predictions true_digraph
             (firstn (Z.to_nat max_k) sorted_edges) 0 acc0 in
  (precision_scores a, delta_factors a).

(** [computeMAP]. *)

(** [node_edges[st].append((st, ed, w))]. *)
Definition bucket_append (node_edges : list (list edge)) (e : edge)
    : result (list (list edge)) :=
  let n := Z.of_nat (length node_edges) in
  let k := (if src e <? 0 then src e + n else src e)%Z in
  if (k <? 0)%Z || (n <=? k)%Z then Raise IndexError
  else Ok (map (fun ib : nat * list edge =>
                  if Nat.eqb (fst ib) (Z.to_nat k) then snd ib ++ [e]
                  else snd ib)
               (combine (seq 0 (length node_edges)) node_edges)).

Fixpoint partition_by_source (node_edges : list (list edge))
    (l : list edge) : result (list (list edge)) :=
  match l with
  | [] => Ok node_edges
  | e :: l' =>
      (ne <- bucket_append node_edges e ;;
       partition_by_source ne l')%res
  end.

(** The average precision stored in [node_AP[i]]. *)
Definition average_precision (node_edges_i : list edge) (g : DiGraph)
    (max_k : Z) : Q :=
  let '(precision_scores, delta_factors) :=
    computePrecisionCurve node_edges_i g max_k in
  let precision_rectified :=
    map (fun pd : Q * Q => fst pd * snd pd)
        (combine precision_scores delta_factors) in
  if Qeq_bool (Py.sum delta_factors) 0 then 0
  else Py.sum precision_rectified / Py.sum delta_factors.

(** [l[i] = x] for an index in range. *)
Definition setitem {A : Type} (l : list A) (i : nat) (x : A) : list A :=
  firstn i l ++ x :: skipn (S i) l.

(** The loop [for i in range(node_num)] that fills [node_AP] and
    counts the nodes it does not skip. *)
Fixpoint node_loop (g : DiGraph) (max_k : Z) (node_edges : list (list edge))
    (nodes : list nat) (node_AP : list Q) (count : nat) : list Q * nat :=
  match nodes with
  | [] => (node_AP, count)
  | i :: rest =>
      if (out_degree g (Z.of_nat i) =? 0)%Z
      then node_loop g max_k node_edges rest node_AP count
      else node_loop g max_k node_edges rest
             (setitem node_AP i
                (average_precision (nth i node_edges []) g max_k))
             (S count)
  end.

(** [sum(node_AP) / count]: Python raises on a zero divisor. *)
Definition py_div (x : Q) (count : nat) : result Q :=
  if Nat.eqb count 0 then Raise ZeroDivisionError
  else Ok (x / inject_Z (Z.of_nat count)).

Definition computeMAP (predicted_edge_list : list edge)
    (true_digraph : DiGraph) (max_k : Z) : result Q :=
  let node_num := number_of_nodes true_digraph in
  (node_edges <- partition_by_source (repeat [] node_num)
                   predicted_edge_list ;;
   let '(node_AP, count) :=
     node_loop true_digraph max_k node_edges (seq 0 node_num)
       (repeat 0 node_num) 0 in
   py_div (Py.sum node_AP) count)%res.

(** [checkedges]: the second argument is either one edge, a tuple, or
    a sequence of edges. *)
Inductive removed : Type :=
| RTuple (s t : Z)
| RList (es : list (Z * Z)).

Definition same_pair (k : edge) (s t : Z) : bool :=
  (dst k =? t)%Z && (src k =? s)%Z.

Definition checkedges (edge_list : list edge) (e : removed) : bool :=
  fold_left
    (fun (val : bool) (k : edge) =>
       match e with
       | RTuple s t => if same_pair k s t then true else val
       | RList es =>
           fold_left
             (fun (val : bool) (ee : Z * Z) =>
                if same_pair k (fst ee) (snd ee) then true else val)
             es val
       end)
    edge_list false.

(** [computePrecisionCurve_changed]: [max_k] is computed and then not
    read again; both loops run over their whole lists. *)
Fixpoint score_removed (predicted_edge_list : list edge)
    (node_edges_rm : list removed) (j : nat) (a : acc) : acc :=
  match node_edges_rm with
  | [] => a
  | e :: rest =>
      score_removed predicted_edge_list rest (S j)
        (record_rank (negb (checkedges predicted_edge_list e))
           (length predicted_edge_list + j + 1) a)
  end.

Definition computePrecisionCurve_changed (predicted_edge_list : list edge)
    (true_digraph : DiGraph) (node_edges_rm : list removed) (max_k : Z)
    : list Q * list Q :=
  let max_k :=
    if (max_k =? -1)%Z
    then Z.of_nat (length predicted_edge_list + length node_edges_rm)
    else Z.min max_k
           (Z.of_nat (length predicted_edge_list + length node_edges_rm)) in
  let sorted_edges := sorted_desc predicted_edge_list in
  let a := score_predictions true_digraph sorted_edges 0 acc0 in
  let a :=
    match node_edges_rm with
    | [] => a
    | _ :: _ => score_removed predicted_edge_list node_edges_rm 0 a
    end in
  (precision_scores a, delta_factors a).

(** [getPrecisionReport]; [format_f] stands for Python's ['%f' % x]. *)
Section Report.

Variable format_f : Q -> string.

Definition tab : string := String (ascii_of_nat 9) EmptyString.

Definition report_field (prec_curv : list Q) (p : Z) : result string :=
  if (p <? Z.of_nat (length prec_curv))%Z
  then (v <- Py.getitem prec_curv (p - 1) ;; Ok (tab ++ format_f v)%string)%res
  else Ok (tab ++ "-")%string.

Fixpoint report_loop (prec_curv : list Q) (temp_pos : list Z)
    (result_str : string) : result string :=
  match temp_pos with
  | [] => Ok result_str
  | p :: rest =>
      (f <- report_field prec_curv p ;;
       report_loop prec_curv rest (result_str ++ f)%string)%res
  end.

Definition getPrecisionReport (prec_curv : list Q) (edge_num : Z)
    : result string :=
  let temp_pos := precision_pos ++ [edge_num] in
  (result_str <- report_loop prec_curv temp_pos EmptyString ;;
   Ok (Py.tail_str result_str))%res.

End Report.

End Metrics.

(** ** The fragment of numpy that the code relies on

    A two-dimensional array carries its shape and its rows; entry
    [(i, j)] is read with [get], and every operation builds its result
    with [tabulate], so a result always has exactly the rows its shape
    announces.  A one-dimensional array is a list. *)

Module Np.

Record ndarray : Type := mk_ndarray {
  shape0 : nat;
  shape1 : nat;
  rows : list (list Q)
}.

Definition get (M : ndarray) (i j : nat) : Q :=
  nth j (nth i (rows M) []) 0.

Definition tabulate (r c : nat) (f : nat -> nat -> Q) : ndarray :=
  mk_ndarray r c (map (fun i => map (f i) (seq 0 c)) (seq 0 r)).

(** [M[i, :]]. *)
Definition row (M : ndarray) (i : nat) : list Q :=
  map (get M i) (seq 0 (shape1 M)).

Definition copy (M : ndarray) : ndarray :=
  tabulate (shape0 M) (shape1 M) (get M).

Definition sum (l : list Q) : Q := fold_left Qplus l 0.

(** Broadcasting of one dimension: equal lengths, or one of them 1. *)
Definition bdim (a b : nat) : result nat :=
  if Nat.eqb a b then Ok a
  else if Nat.eqb a 1 then Ok b
  else if Nat.eqb b 1 then Ok a
  else Raise ValueError.

Definition bidx (dim i : nat) : nat := if Nat.eqb dim 1 then 0 else i.

Definition bget (M : ndarray) (i j : nat) : Q :=
  get M (bidx (shape0 M) i) (bidx (shape1 M) j).

(** An elementwise binary operation, [A op B]. *)
Definition zip2 (op : Q -> Q -> Q) (A B : ndarray) : result ndarray :=
  (r <- bdim (shape0 A) (shape0 B) ;;
   c <- bdim (shape1 A) (shape1 B) ;;
   Ok (tabulate r c (fun i j => op (bget A i j) (bget B i j))))%res.

Definition map1 (f : Q -> Q) (A : ndarray) : ndarray :=
  tabulate (shape0 A) (shape1 A) (fun i j => f (get A i j)).

(** [k * A] for a scalar [k]. *)
Definition scale (k : Q) (A : ndarray) : ndarray := map1 (Qmult k) A.

(** [A.T]. *)
Definition transpose (A : ndarray) : ndarray :=
  tabulate (shape1 A) (shape0 A) (fun i j => get A j i).

(** [np.eye(n)]. *)
Definition eye (n : nat) : ndarray :=
  tabulate n n (fun i j => if Nat.eqb i j then 1 else 0).

(** [np.dot(A, B)] on two matrices. *)
Definition dot (A B : ndarray) : result ndarray :=
  if Nat.eqb (shape1 A) (shape0 B)
  then Ok (tabulate (shape0 A) (shape1 B)
             (fun i j =>
                sum (map (fun k => get A i k * get B k j)
                         (seq 0 (shape1 A)))))
  else Raise ValueError.

(** [np.sum(A, 1)]. *)
Definition sum_axis1 (A : ndarray) : list Q :=
  map (fun i => sum (row A i)) (seq 0 (shape0 A)).

(** [np.linalg.norm(A) ** 2]: the sum of the squared entries. *)
Definition norm_sq (A : ndarray) : Q :=
  sum (map (fun i => sum (map (fun x => x * x) (row A i)))
           (seq 0 (shape0 A))).

(** [np.allclose(a, b)] with the default tolerances. *)
Definition rtol : Q := 1 # 100000.
Definition atol : Q := 1 # 100000000.

Definition isclose (a b : Q) : bool :=
  Qle_bool (Qabs (a - b)) (atol + rtol * Qabs b).

Definition allclose (a b : ndarray) : result bool :=
  (r <- bdim (shape0 a) (shape0 b) ;;
   c <- bdim (shape1 a) (shape1 b) ;;
   Ok (forallb (fun i =>
                  forallb (fun j => isclose (bget a i j) (bget b i j))
                          (seq 0 c))
               (seq 0 r)))%res.

(** [np.where(A > 0)], zipped: the positions of the positive entries in
    row-major order. *)
Definition where_pos (A : ndarray) : list (nat * nat) :=
  flat_map (fun i =>
              map (pair i)
                  (filter (fun j => Qlt_bool 0 (get A i j))
                          (seq 0 (shape1 A))))
           (seq 0 (shape0 A)).

(** [X[:m, :c]]. *)
Definition slice (X : ndarray) (m c : nat) : ndarray :=
  tabulate (Nat.min m (shape0 X)) (Nat.min c (shape1 X)) (get X).

(** [X[:m, :] = P], in place: [P] is broadcast to the shape of the
    slice. *)
Definition assign_rows (X : ndarray) (m : nat) (P : ndarray)
    : result ndarray :=
  let r := Nat.min m (shape0 X) in
  if (Nat.eqb (shape0 P) r || Nat.eqb (shape0 P) 1)
     && (Nat.eqb (shape1 P) (shape1 X) || Nat.eqb (shape1 P) 1)
  then Ok (tabulate (shape0 X) (shape1 X)
             (fun i j => if Nat.ltb i r then bget P i j else get X i j))
  else Raise ValueError.

(** One-dimensional arrays. *)

Definition vget (v : list Q) (j : nat) : Q :=
  nth (bidx (length v) j) v 0.

Definition vzip2 (op : Q -> Q -> Q) (u v : list Q) : result (list Q) :=
  (n <- bdim (length u) (length v) ;;
   Ok (map (fun j => op (vget u j) (vget v j)) (seq 0 n)))%res.

Definition vscale (k : Q) (v : list Q) : list Q := map (Qmult k) v.

(** [np.dot(u, v)] on two vectors. *)
Definition vdot (u v : list Q) : result Q :=
  if Nat.eqb (length u) (length v)
  then Ok (sum (map (fun xy : Q * Q => fst xy * snd xy) (combine u v)))
  else Raise ValueError.

Definition zeros (d : nat) : list Q := repeat 0 d.

(** [v[0]]. *)
Definition item0 (v : list Q) : result Q :=
  match v with
  | [] => Raise IndexError
  | x :: _ => Ok x
  end.

(** [X[i, :] -= w], in place. *)
Definition isub_row (X : ndarray) (i : nat) (w : list Q) : result ndarray :=
  if Nat.eqb (length w) (shape1 X) || Nat.eqb (length w) 1
  then Ok (tabulate (shape0 X) (shape1 X)
             (fun i' j =>
                if Nat.eqb i' i then get X i j - vget w j else get X i' j))
  else Raise ValueError.

End Np.

(** ** graphFac_dynamic.py *)

Module GraphFac.

Import Np.

(** A graph snapshot, as [learn_embedding] consumes it. *)
Record DiGraph : Type := {
  number_of_nodes : nat;
  edge_weight : nat -> nat -> Q
}.

(** Modelled from the spec: [graph_util.transform_DiGraph_to_adj] is
    not among the source files; it converts a graph object into its
    dense N x N adjacency matrix. *)
Definition transform_DiGraph_to_adj (g : DiGraph) : ndarray :=
  tabulate (number_of_nodes g) (number_of_nodes g) (edge_weight g).

(** What [np.copy] returns on the outcome of [learn_embedding]: a
    zero-dimensional object array when that is [None], a matrix
    otherwise. *)
Inductive embedding : Type :=
| ObjNone
| Mat (M : ndarray).

(** [self._kappas]: the scalar [self._kappa] at first, a vector after a
    step of the driver. *)
Inductive kappas : Type :=
| KScalar (k : Q)
| KVector (ks : list Q).

(** The lines written to the standard output. *)
Inductive line : Type :=
| MsgNotSymmetric
| MsgInitializing
| MsgObjective (iter_id : nat) (f f1 f2 f3 : Q)
| MsgDel (iter_id : nat) (del del_f1 del_f2 del_f3 : Q).

(** The attributes of a [GraphFactorization] object ([None] for one
    not assigned yet), with the two pieces of process state that the
    methods touch: the position in the stream of numpy's global random
    generator, and the standard output. *)
Record GraphFactorization : Type := {
  _d : nat;
  _eta : Q;
  _regu : Q;
  _n_iter : nat;
  _n_iter_sub : nat;
  _kappa : Q;
  _initEmbed : option ndarray;
  _node_num : option nat;
  _num_iter : option nat;
  _X : option ndarray;
  _kappas : option kappas;
  _Xs : option (list embedding);
  random_state : nat;
  stdout : list line
}.

(** [GraphFactorization(d, n_iter, n_iter_sub, eta, regu, kappa,
    initEmbed)], in a process whose random generator stands at
    position [seed]. *)
Definition __init__ (d n_iter n_iter_sub : nat) (eta regu kappa : Q)
    (initEmbed : option ndarray) (seed : nat) : GraphFactorization :=
  {| _d := d; _eta := eta; _regu := regu; _n_iter := n_iter;
     _n_iter_sub := n_iter_sub; _kappa := kappa; _initEmbed := initEmbed;
     _node_num := None; _num_iter := None; _X := None; _kappas := None;
     _Xs := None; random_state := seed; stdout := [] |}.

Definition set_eta (v : Q) (s : GraphFactorization) : GraphFactorization :=
  {| _d := _d s; _eta := v; _regu := _regu s; _n_iter := _n_iter s;
     _n_iter_sub := _n_iter_sub s; _kappa := _kappa s;
     _initEmbed := _initEmbed s; _node_num := _node_num s;
     _num_iter := _num_iter s; _X := _X s; _kappas := _kappas s;
     _Xs := _Xs s; random_state := random_state s; stdout := stdout s |}.

Definition set_node_num (v : nat) (s : GraphFactorization)
    : GraphFactorization :=
  {| _d := _d s; _eta := _eta s; _regu := _regu s; _n_iter := _n_iter s;
     _n_iter_sub := _n_iter_sub s; _kappa := _kappa s;
     _initEmbed := _initEmbed s; _node_num := Some v;
     _num_iter := _num_iter s; _X := _X s; _kappas := _kappas s;
     _Xs := _Xs s; random_state := random_state s; stdout := stdout s |}.

Definition set_num_iter (v : nat) (s : GraphFactorization)
    : GraphFactorization :=
  {| _d := _d s; _eta := _eta s; _regu := _regu s; _n_iter := _n_iter s;
     _n_iter_sub := _n_iter_sub s; _kappa := _kappa s;
     _initEmbed := _initEmbed s; _node_num := _node_num s;
     _num_iter := Some v; _X := _X s; _kappas := _kappas s;
     _Xs := _Xs s; random_state := random_state s; stdout := stdout s |}.

Definition set_X (v : ndarray) (s : GraphFactorization)
    : GraphFactorization :=
  {| _d := _d s; _eta := _eta s; _regu := _regu s; _n_iter := _n_iter s;
     _n_iter_sub := _n_iter_sub s; _kappa := _kappa s;
     _initEmbed := _initEmbed s; _node_num := _node_num s;
     _num_iter := _num_iter s; _X := Some v; _kappas := _kappas s;
     _Xs := _Xs s; random_state := random_state s; stdout := stdout s |}.

Definition set_kappas (v : kappas) (s : GraphFactorization)
    : GraphFactorization :=
  {| _d := _d s; _eta := _eta s; _regu := _regu s; _n_iter := _n_iter s;
     _n_iter_sub := _n_iter_sub s; _kappa := _kappa s;
     _initEmbed := _initEmbed s; _node_num := _node_num s;
     _num_iter := _num_iter s; _X := _X s; _kappas := Some v;
     _Xs := _Xs s; random_state := random_state s; stdout := stdout s |}.

Definition set_Xs (v : list embedding) (s : GraphFactorization)
    : GraphFactorization :=
  {| _d := _d s; _eta := _eta s; _regu := _regu s; _n_iter := _n_iter s;
     _n_iter_sub := _n_iter_sub s; _kappa := _kappa s;
     _initEmbed := _initEmbed s; _node_num := _node_num s;
     _num_iter := _num_iter s; _X := _X s; _kappas := _kappas s;
     _Xs := Some v; random_state := random_state s; stdout := stdout s |}.

Definition set_random_state (v : nat) (s : GraphFactorization)
    : GraphFactorization :=
  {| _d := _d s; _eta := _eta s; _regu := _regu s; _n_iter := _n_iter s;
     _n_iter_sub := _n_iter_sub s; _kappa := _kappa s;
     _initEmbed := _initEmbed s; _node_num := _node_num s;
     _num_iter := _num_iter s; _X := _X s; _kappas := _kappas s;
     _Xs := _Xs s; random_state := v; stdout := stdout s |}.

Definition set_stdout (v : list line) (s : GraphFactorization)
    : GraphFactorization :=
  {| _d := _d s; _eta := _eta s; _regu := _regu s; _n_iter := _n_iter s;
     _n_iter_sub := _n_iter_sub s; _kappa := _kappa s;
     _initEmbed := _initEmbed s; _node_num := _node_num s;
     _num_iter := _num_iter s; _X := _X s; _kappas := _kappas s;
     _Xs := _Xs s; random_state := random_state s; stdout := v |}.

Definition print (l : line) (s : GraphFactorization) : GraphFactorization :=
  set_stdout (stdout s ++ [l]) s.

(** [np.copy] of what [learn_embedding] returned. *)
Definition np_copy (r : option ndarray) : embedding :=
  match r with
  | None => ObjNone
  | Some M => Mat (copy M)
  end.

(** The values of the per-edge locals [delPhi], [delPhi1], [delPhi2]
    and [delPhi3] of [learn_embedding]; they are unbound until the
    first edge with [i < j] has been visited. *)
Record gradients : Type := {
  delPhi : list Q;
  delPhi1 : list Q;
  delPhi2 : list Q;
  delPhi3 : list Q
}.

Section WithEnvironment.

(** The two library services the code is given: the entries of
    the inverse that [np.linalg.inv] computes for a matrix (or the
    error it raises), and the stream of samples that
    [np.random.randn] draws from. *)
Variable inverse_entries : ndarray -> result (nat -> nat -> Q).
Variable gauss : nat -> Q.

(** [np.linalg.inv(M)]: the result has the shape of [M]. *)
Definition linalg_inv (M : ndarray) : result ndarray :=
  (f <- inverse_entries M ;;
   Ok (tabulate (shape0 M) (shape1 M) f))%res.

(** [np.random.randn(n, d)] from position [pos] of the stream. *)
Definition randn (pos n d : nat) : ndarray :=
  tabulate n d (fun i j => gauss (pos + i * d + j)).

(** [getFVal]. *)
Definition getFVal (self : GraphFactorization) (adj_mtx X : ndarray)
    (prev_step_emb : option ndarray) : result (Q * Q * Q * Q) :=
  (XXt <- dot X (transpose X) ;;
   R <- zip2 Qminus adj_mtx XXt ;;
   let f1 := norm_sq R in
   let f2 := _regu self * norm_sq X in
   f3 <- match prev_step_emb with
         | None => Ok 0
         | Some P =>
             (D <- zip2 Qminus (slice X (shape0 P) (shape1 P)) P ;;
              Ok (_kappa self * norm_sq D))
         end ;;
   Ok (f1, f2, f3, f1 + f2 + f3))%res.

(** The body of the loop over the edges, for an edge with [i < j]
    (lines 121 to 127): the updated matrix and the locals. *)
Definition edge_update (self : GraphFactorization) (A : ndarray)
    (prevEmbed : option ndarray) (X : ndarray) (i j : nat)
    : result (ndarray * gradients) :=
  (xx <- vdot (row X i) (row X j) ;;
   let delPhi1 := vscale (- (get A i j - xx)) (row X j) in
   let delPhi2 := vscale (_regu self) (row X i) in
   delPhi3 <- match prevEmbed with
              | Some P =>
                  if Nat.ltb i (shape0 P)
                  then (D <- vzip2 Qminus (row X i) (row P i) ;;
                        Ok (vscale (_kappa self) D))
                  else Ok (zeros (_d self))
              | None => Ok (zeros (_d self))
              end ;;
   s <- vzip2 Qplus delPhi1 delPhi2 ;;
   delPhi <- vzip2 Qplus s delPhi3 ;;
   X' <- isub_row X i (vscale (_eta self) delPhi) ;;
   Ok (X', {| delPhi := delPhi; delPhi1 := delPhi1;
              delPhi2 := delPhi2; delPhi3 := delPhi3 |}))%res.

(** [for i, j in zip(edgeList[0], edgeList[1])]. *)
Fixpoint edge_loop (self : GraphFactorization) (A : ndarray)
    (prevEmbed : option ndarray) (edgeList : list (nat * nat))
    (X : ndarray) (locals : option gradients)
    : result (option gradients) * ndarray :=
  match edgeList with
  | [] => (Ok locals, X)
  | (i, j) :: rest =>
      if Nat.leb j i then edge_loop self A prevEmbed rest X locals
      else match edge_update self A prevEmbed X i j with
           | Raise e => (Raise e, X)
           | Ok (X', g) => edge_loop self A prevEmbed rest X' (Some g)
           end
  end.

(** The arguments of the second [print] of an iteration. *)
Definition del_values (iter_id : nat) (locals : option gradients)
    : result line :=
  match locals with
  | None => Raise UnboundLocalError
  | Some g =>
      (a <- item0 (delPhi g) ;;
       b <- item0 (delPhi1 g) ;;
       c <- item0 (delPhi2 g) ;;
       d <- item0 (delPhi3 g) ;;
       Ok (MsgDel iter_id a b c d))%res
  end.

Definition objective_line (self : GraphFactorization) (A X : ndarray)
    (prevEmbed : option ndarray) (iter_id : nat) : result line :=
  (v <- getFVal self A X prevEmbed ;;
   let '(f1, f2, f3, f) := v in
   Ok (MsgObjective iter_id f f1 f2 f3))%res.

(** [for iter_id in range(self._num_iter)]: the matrix [self._X], the
    per-edge locals and the output so far are carried from one
    iteration to the next. *)
Fixpoint iter_loop (self : GraphFactorization) (A : ndarray)
    (prevEmbed : option ndarray) (edgeList : list (nat * nat))
    (iters : list nat) (X : ndarray) (locals : option gradients)
    (out : list line) : result unit * ndarray * list line :=
  match iters with
  | [] => (Ok tt, X, out)
  | iter_id :: rest =>
      let report := Nat.eqb (iter_id mod 100) 0 in
      match (if report
             then (l <- objective_line self A X prevEmbed iter_id ;;
                   Ok (out ++ [l]))%res
             else Ok out) with
      | Raise e => (Raise e, X, out)
      | Ok out =>
          match edge_loop self A prevEmbed edgeList X locals with
          | (Raise e, X) => (Raise e, X, out)
          | (Ok locals, X) =>
              match (if report
                     then (l <- del_values iter_id locals ;;
                           Ok (out ++ [l]))%res
                     else Ok out) with
              | Raise e => (Raise e, X, out)
              | Ok out =>
                  iter_loop self A prevEmbed edgeList rest X locals out
              end
          end
      end
  end.

(** Lines 102 to 110 of [learn_embedding]: the random start, and the
    warm start from [prevEmbed] when there is one.  The outcome is
    the matrix now in [self._X] and the previous embedding that the
    loop will read. *)
Definition initialize (self : GraphFactorization) (A : ndarray)
    (prevEmbed : option embedding)
    : result (ndarray * option ndarray) * GraphFactorization :=
  let self := set_node_num (shape0 A) self in
  let self := set_num_iter (_n_iter self) self in
  let X := scale (1 # 100) (randn (random_state self) (shape0 A) (_d self)) in
  let self :=
    set_X X (set_random_state (random_state self + shape0 A * _d self)
               self) in
  match prevEmbed with
  | None => (Ok (X, None), self)
  | Some p =>
      let self := print MsgInitializing self in
      match p with
      | ObjNone => (Raise IndexError, self)
      | Mat P =>
          match assign_rows X (shape0 P) (copy P) with
          | Raise e => (Raise e, self)
          | Ok X' =>
              (Ok (X', Some P),
               set_num_iter (_n_iter_sub self) (set_X X' self))
          end
      end
  end.

(** Lines 113 to 135: the optimisation loop and the return. *)
Definition optimize (self : GraphFactorization) (A : ndarray)
    (prevEmbed : option ndarray) (X : ndarray)
    : result (option ndarray) * GraphFactorization :=
  match _num_iter self with
  | None => (Raise AttributeError, self)
  | Some num_iter =>
      let '(r, X, out) :=
        iter_loop self A prevEmbed (where_pos A) (seq 0 num_iter) X None
          (stdout self) in
      let self := set_stdout out (set_X X self) in
      match r with
      | Raise e => (Raise e, self)
      | Ok _ => (Ok (Some X), self)
      end
  end.

Definition learn_embedding (self : GraphFactorization) (graph : DiGraph)
    (prevEmbed : option embedding)
    : result (option ndarray) * GraphFactorization :=
  let A := transform_DiGraph_to_adj graph in
  match allclose (transpose A) A with
  | Raise e => (Raise e, self)
  | Ok false => (Ok None, print MsgNotSymmetric self)
  | Ok true =>
      match initialize self A prevEmbed with
      | (Raise e, self) => (Raise e, self)
      | (Ok (X, prev), self) => optimize self A prev X
      end
  end.

(** Lines 149 to 158 of [learn_embeddings]: the vector assigned to
    [self._kappas] at step [i]. *)
Definition beta : Q := 1 # 100.

Definition step_kappas (self : GraphFactorization) (graph_i graph_p : DiGraph)
    : result (list Q) :=
  let X_curr := transform_DiGraph_to_adj graph_i in
  let X_prev := transform_DiGraph_to_adj graph_p in
  (D <- zip2 Qminus X_curr X_prev ;;
   let delX := map1 Qabs D in
   M_g <- zip2 Qminus (eye (shape0 X_curr)) (scale beta delX) ;;
   let M_l := scale beta delX in
   G <- linalg_inv M_g ;;
   S <- dot G M_l ;;
   let S_sum := sum_axis1 S in
   let S_sum := map (fun s => if Qeq_bool s 0 then 1 # 100 else s) S_sum in
   Ok (map (fun s => _kappa self / s) S_sum))%res.

(** Lines 149 to 159: the penalty vector and the decay of the
    learning rate. *)
Definition step_prepare (self : GraphFactorization) (graphs : list DiGraph)
    (i : nat) : result (DiGraph * embedding) * GraphFactorization :=
  match Py.getitem graphs (Z.of_nat i),
        Py.getitem graphs (Z.of_nat i - 1) with
  | Ok graph_i, Ok graph_p =>
      match step_kappas self graph_i graph_p with
      | Raise e => (Raise e, self)
      | Ok ks =>
          let self := set_kappas (KVector ks) self in
          let self := set_eta (_eta self / 10) self in
          match _Xs self with
          | None => (Raise AttributeError, self)
          | Some Xs =>
              match Py.getitem Xs (Z.of_nat i - 1) with
              | Raise e => (Raise e, self)
              | Ok prev => (Ok (graph_i, prev), self)
              end
          end
      end
  | Raise e, _ => (Raise e, self)
  | _, Raise e => (Raise e, self)
  end.

(** [self._Xs.append(np.copy(...))]. *)
Definition append_Xs (r : option ndarray) (self : GraphFactorization)
    : GraphFactorization :=
  match _Xs self with
  | None => self
  | Some Xs => set_Xs (Xs ++ [np_copy r]) self
  end.

(** [for i in range(1, len(graphs))]. *)
Fixpoint steps (self : GraphFactorization) (graphs : list DiGraph)
    (indices : list nat) : result unit * GraphFactorization :=
  match indices with
  | [] => (Ok tt, self)
  | i :: rest =>
      match step_prepare self graphs i with
      | (Raise e, self) => (Raise e, self)
      | (Ok (graph_i, prev), self) =>
          match learn_embedding self graph_i (Some prev) with
          | (Raise e, self) => (Raise e, self)
          | (Ok r, self) => steps (append_Xs r self) graphs rest
          end
      end
  end.

Definition learn_embeddings (self : GraphFactorization)
    (graphs : list DiGraph) (prevStepInfo : bool)
    : result (list embedding) * GraphFactorization :=
  let self := set_kappas (KScalar (_kappa self)) self in
  match Py.getitem graphs 0 with
  | Raise e => (Raise e, self)
  | Ok graph_0 =>
      let first :=
        if prevStepInfo
        then match _initEmbed self with
             | None => (Raise AttributeError, self)
             | Some E => learn_embedding self graph_0 (Some (Mat E))
             end
        else learn_embedding self graph_0 None in
      match first with
      | (Raise e, self) => (Raise e, self)
      | (Ok r, self) =>
          let self := set_Xs [np_copy r] self in
          match steps self graphs (seq 1 (length graphs - 1)) with
          | (Raise e, self) => (Raise e, self)
          | (Ok _, self) =>
              match _Xs self with
              | None => (Raise AttributeError, self)
              | Some Xs => (Ok Xs, self)
              end
          end
      end
  end.

End WithEnvironment.

End GraphFac.

(** ** Notions used to state the properties of the metrics *)

Module MetricsSpec.

Import Metrics.

(** [checkedges] on a tuple: some predicted entry has the same pair. *)
Definition predicted (pred : list edge) (e : Z * Z) : bool :=
  existsb (fun k => same_pair k (fst e) (snd e)) pred.

(** A removed edge as the tuple that [computeMAP_changed] builds. *)
Definition as_tuple (e : Z * Z) : removed := RTuple (fst e) (snd e).

(** The number of removed edges that count as correct. *)
Definition forgotten (pred : list edge) (rm : list (Z * Z)) : nat :=
  length (filter (fun e => negb (predicted pred e)) rm).

(** The number of predictions that are edges of the ground truth. *)
Definition hits (g : DiGraph) (pred : list edge) : nat :=
  length (filter (fun e => has_edge g (src e) (dst e)) pred).

(** The indicator 1.0 or 0.0 of a test. *)
Definition indicator (b : bool) : Q := if b then 1 else 0.

End MetricsSpec.

(** ** Notions used to state the properties of the factorization *)

Module GraphFacSpec.

Import Np GraphFac.

(** The symmetry that [learn_embedding] tests for: every entry is
    close to its mirror image, in the sense of [np.allclose]. *)
Definition symmetric_within_tolerance (g : DiGraph) : Prop :=
  forall i j : nat,
    (i < number_of_nodes g)%nat -> (j < number_of_nodes g)%nat ->
    isclose (edge_weight g j i) (edge_weight g i j) = true.

(** No positive entry above the diagonal. *)
Definition no_upper_edge (g : DiGraph) : Prop :=
  forall i j : nat,
    (i < j)%nat -> (j < number_of_nodes g)%nat ->
    Qlt_bool 0 (edge_weight g i j) = false.

(** A previous embedding that fits a graph of [n] nodes and dimension
    [d]; the number of iterations that [learn_embedding] then runs. *)
Definition fits (n d : nat) (prevEmbed : option embedding) : Prop :=
  match prevEmbed with
  | None => True
  | Some ObjNone => False
  | Some (Mat P) => (shape0 P <= n)%nat /\ shape1 P = d
  end.

Definition iteration_count (self : GraphFactorization)
    (prevEmbed : option embedding) : nat :=
  match prevEmbed with
  | None => _n_iter self
  | Some _ => _n_iter_sub self
  end.

(** The tail of [learn_embedding] once [iter_loop] has returned. *)
Definition finish (self : GraphFactorization)
    (outcome : result unit * ndarray * list line)
    : result (option ndarray) * GraphFactorization :=
  let '(r, X, out) := outcome in
  let self := set_stdout out (set_X X self) in
  match r with
  | Raise e => (Raise e, self)
  | Ok _ => (Ok (Some X), self)
  end.

(** The matrix that the warm start leaves in [self._X]: the rows of
    the previous embedding [P] above the rows of the random start. *)
Definition warm_matrix (gauss : nat -> Q) (self : GraphFactorization)
    (n : nat) (P : ndarray) : ndarray :=
  tabulate n (_d self)
    (fun i j =>
       if Nat.ltb i (Nat.min (shape0 P) n) then bget (copy P) i j
       else get (scale (1 # 100) (randn gauss (random_state self) n (_d self)))
                i j).

(** What [learn_embedding] leaves untouched: it assigns only
    [self._node_num], [self._num_iter] and [self._X], draws random
    numbers and prints. *)
Definition unchanged_by_learn_embedding (s s' : GraphFactorization) : Prop :=
  _d s' = _d s /\ _eta s' = _eta s /\ _regu s' = _regu s
  /\ _n_iter s' = _n_iter s /\ _n_iter_sub s' = _n_iter_sub s
  /\ _kappa s' = _kappa s /\ _initEmbed s' = _initEmbed s
  /\ _kappas s' = _kappas s /\ _Xs s' = _Xs s.

(** The learning rate after [k] steps of the driver. *)
Definition decayed (eta : Q) (k : nat) : Q :=
  Nat.iter k (fun e => e / 10) eta.

(** The object with another global coefficient [self._kappa]. *)
Definition with_kappa (v : Q) (s : GraphFactorization) : GraphFactorization :=
  {| _d := _d s; _eta := _eta s; _regu := _regu s; _n_iter := _n_iter s;
     _n_iter_sub := _n_iter_sub s; _kappa := v;
     _initEmbed := _initEmbed s; _node_num := _node_num s;
     _num_iter := _num_iter s; _X := _X s; _kappas := _kappas s;
     _Xs := _Xs s; random_state := random_state s; stdout := stdout s |}.

(** Entry [(i, j)] of the embedding that a call returned. *)
Definition returned_entry (r : result (option ndarray)) (i j : nat)
    : option Q :=
  match r with
  | Ok (Some X) => Some (get X i j)
  | _ => None
  end.

(** The penalty vector as the specification words it, for two
    snapshots of [n] nodes and a matrix [G] standing for the inverse of
    [M_g]. *)
Section Penalty.

Variables (kappa_base : Q) (graph_t graph_p : DiGraph) (n : nat).

Definition DeltaA (i j : nat) : Q :=
  Qabs (edge_weight graph_t i j - edge_weight graph_p i j).

Definition M_g : ndarray :=
  tabulate n n
    (fun i j => (if Nat.eqb i j then 1 else 0) - (1 # 100) * DeltaA i j).

Definition M_l : ndarray :=
  tabulate n n (fun i j => (1 # 100) * DeltaA i j).

Variable G : nat -> nat -> Q.

Definition S_entry (i j : nat) : Q :=
  Np.sum (map (fun k => G i k * get M_l k j) (seq 0 n)).

Definition row_sum (i : nat) : Q :=
  let s := Np.sum (map (S_entry i) (seq 0 n)) in
  if Qeq_bool s 0 then 1 # 100 else s.

Definition penalty (i : nat) : Q := kappa_base / row_sum i.

End Penalty.

End GraphFacSpec.

(** ** Concrete inputs used by the examples below *)

Module MetricsExamples.

Import Metrics.

(** Three nodes, edges 0 -> 1 and 1 -> 2. *)
Definition path3 : DiGraph :=
  {| number_of_nodes := 3;
     has_edge := fun s t =>
       ((s =? 0) && (t =? 1) || (s =? 1) && (t =? 2))%Z;
     out_degree := fun i => if ((i =? 0) || (i =? 1))%Z then 1%Z else 0%Z |}.

(** Three nodes, no edge. *)
Definition isolated3 : DiGraph :=
  {| number_of_nodes := 3;
     has_edge := fun _ _ => false;
     out_degree := fun _ => 0%Z |}.

Definition one_prediction : list edge := [(0%Z, 1%Z, 9 # 10)].

Definition two_predictions : list edge :=
  [(0%Z, 1%Z, 9 # 10); (2%Z, 0%Z, 1 # 2)].

Definition short_curve : list Q := [1; 1 # 2].

End MetricsExamples.

Module GraphFacExamples.

Import Np GraphFac.

(** An instance of the inverse: Gauss-Jordan elimination on the
    matrix extended with the identity, over exact rationals. *)
Definition augmented (M : ndarray) : ndarray :=
  let n := shape0 M in
  tabulate n (2 * n)
    (fun i j =>
       if Nat.ltb j n then get M i j
       else if Nat.eqb (j - n) i then 1 else 0).

Definition eliminate (M : ndarray) (k : nat) : result ndarray :=
  let n := shape0 M in
  match find (fun r => negb (Qeq_bool (get M r k) 0)) (seq k (n - k)) with
  | None => Raise LinAlgError
  | Some r =>
      let swapped :=
        tabulate n (shape1 M)
          (fun i j =>
             if Nat.eqb i k then get M r j
             else if Nat.eqb i r then get M k j
             else get M i j) in
      let p := get swapped k k in
      Ok (tabulate n (shape1 M)
            (fun i j =>
               if Nat.eqb i k then Qred (get swapped k j / p)
               else Qred (get swapped i j
                          - get swapped i k * (get swapped k j / p))))
  end.

Fixpoint eliminate_all (M : ndarray) (ks : list nat) : result ndarray :=
  match ks with
  | [] => Ok M
  | k :: rest => (M' <- eliminate M k ;; eliminate_all M' rest)%res
  end.

Definition gauss_jordan (M : ndarray) : result (nat -> nat -> Q) :=
  if Nat.eqb (shape0 M) (shape1 M)
  then (R <- eliminate_all (augmented M) (seq 0 (shape0 M)) ;;
        Ok (fun i j => get R i (shape0 M + j)))%res
  else Raise LinAlgError.

(** A fixed stream of samples. *)
Definition samples (k : nat) : Q := inject_Z (Z.of_nat (k mod 5)) - 2.

Definition graph_of (n : nat) (edges : list (nat * nat * Q)) : DiGraph :=
  {| number_of_nodes := n;
     edge_weight := fun i j =>
       match find (fun e : nat * nat * Q =>
                     Nat.eqb (fst (fst e)) i && Nat.eqb (snd (fst e)) j)
                  edges with
       | Some e => snd e
       | None => 0
       end |}.

Definition unit_weight (edges : list (nat * nat)) : list (nat * nat * Q) :=
  map (fun e => (e, 1)) edges.

(** Two nodes joined by one undirected edge. *)
Definition pair_graph : DiGraph := graph_of 2 (unit_weight [(0, 1); (1, 0)]%nat).

(** Two nodes and the single directed edge 0 -> 1. *)
Definition one_way : DiGraph := graph_of 2 (unit_weight [(0, 1)]%nat).

(** Two nodes whose opposite edges differ by 1e-9. *)
Definition almost_symmetric : DiGraph :=
  graph_of 2 [(0%nat, 1%nat, 1); (1%nat, 0%nat, 1 + (1 # 1000000000))].

(** Two nodes, no edge; and two nodes with self-loops only. *)
Definition edgeless : DiGraph := graph_of 2 [].
Definition self_loops : DiGraph := graph_of 2 (unit_weight [(0, 0); (1, 1)]%nat).

(** Three nodes: the path 1 - 0 - 2, and the same with 1 - 2 added. *)
Definition star3 : DiGraph :=
  graph_of 3 (unit_weight [(0, 1); (1, 0); (0, 2); (2, 0)]%nat).
Definition triangle3 : DiGraph :=
  graph_of 3
    (unit_weight [(0, 1); (1, 0); (0, 2); (2, 0); (1, 2); (2, 1)]%nat).

(** [GraphFactorization(1, 1, 2, 0.1, 0.1, 1.0)]. *)
Definition model : GraphFactorization :=
  __init__ 1 1 2 (1 # 10) (1 # 10) 1 None 0.

Definition model_with_kappa (kappa : Q) : GraphFactorization :=
  __init__ 1 1 2 (1 # 10) (1 # 10) kappa None 0.

(** A run of the driver over twice the same snapshot, cut after the
    first snapshot and again after lines 149 to 159 of the step for the
    second. *)
Definition two_snapshots : list DiGraph := [pair_graph; pair_graph].

Definition after_first_snapshot : GraphFactorization :=
  let '(r, s) :=
    learn_embedding samples (set_kappas (KScalar (_kappa model)) model)
      pair_graph None in
  match r with
  | Ok X => set_Xs [np_copy X] s
  | Raise _ => s
  end.

Definition second_step
    : result (DiGraph * embedding) * GraphFactorization :=
  step_prepare gauss_jordan after_first_snapshot two_snapshots 1.

Definition second_step_state : GraphFactorization := snd second_step.

Definition first_embedding : embedding :=
  match fst second_step with
  | Ok (_, prev) => prev
  | Raise _ => ObjNone
  end.

Definition three_snapshots : list DiGraph :=
  [pair_graph; pair_graph; pair_graph].

(** [GraphFactorization(1, 1, 1, 0.1, 0.1, 1.0)]. *)
Definition short_model : GraphFactorization :=
  __init__ 1 1 1 (1 # 10) (1 # 10) 1 None 0.

(** A previous embedding of one node in dimension one. *)
Definition one_row : ndarray := tabulate 1 1 (fun _ _ => 1 # 2).

End GraphFacExamples.

(** ** The rest of metrics.py *)

Module MetricsRest.

Import Metrics.

(** The exceptions of [computeMAP_changed]: those above, and the
    [KeyError] of a dictionary lookup. *)
Inductive error : Type :=
| Builtin (e : exn)
| KeyError.

Inductive outcome (A : Type) : Type :=
| Return (a : A)
| Throw (e : error).

Arguments Return {A} a.
Arguments Throw {A} e.

Definition lift {A : Type} (r : result A) : outcome A :=
  match r with
  | Ok a => Return a
  | Raise e => Throw (Builtin e)
  end.

Definition bind_outcome {A B : Type} (r : outcome A) (k : A -> outcome B)
    : outcome B :=
  match r with
  | Return a => k a
  | Throw e => Throw e
  end.

(** [node_dict[k]] on a dictionary, given by its lookup. *)
Definition dict_getitem (node_dict : Z -> option Z) (k : Z) : outcome Z :=
  match node_dict k with
  | Some v => Return v
  | None => Throw KeyError
  end.

(** [node_edges_rm[node_dict[st]].append((node_dict[st], node_dict[ed], 1))]:
    the list is indexed before the tuple is built. *)
Definition bucket_append_rm (node_dict : Z -> option Z)
    (node_edges_rm : list (list edge)) (sted : Z * Z)
    : outcome (list (list edge)) :=
  bind_outcome (dict_getitem node_dict (fst sted)) (fun s =>
  bind_outcome (lift (Py.getitem node_edges_rm s)) (fun _ =>
  bind_outcome (dict_getitem node_dict (fst sted)) (fun s' =>
  bind_outcome (dict_getitem node_dict (snd sted)) (fun t' =>
  lift (bucket_append node_edges_rm (s', t', 1)))))).

Fixpoint partition_removed (node_dict : Z -> option Z)
    (node_edges_rm : list (list edge)) (l : list (Z * Z))
    : outcome (list (list edge)) :=
  match l with
  | [] => Return node_edges_rm
  | sted :: l' =>
      bind_outcome (bucket_append_rm node_dict node_edges_rm sted)
        (fun ne => partition_removed node_dict ne l')
  end.

(** The tuples of [node_edges_rm[i]], as [checkedges] receives them. *)
Definition as_removed (e : edge) : removed := RTuple (src e) (dst e).

(** The average precision stored in [node_AP[i]] by
    [computeMAP_changed]. *)
Definition average_precision_changed (node_edges_i : list edge)
    (g : DiGraph) (node_edges_rm_i : list edge) (max_k : Z) : Q :=
  let '(precision_scores, delta_factors) :=
    computePrecisionCurve_changed node_edges_i g
      (map as_removed node_edges_rm_i) max_k in
  let precision_rectified :=
    map (fun pd : Q * Q => fst pd * snd pd)
        (combine precision_scores delta_factors) in
  if Qeq_bool (Py.sum delta_factors) 0 then 0
  else Py.sum precision_rectified / Py.sum delta_factors.

Fixpoint node_loop_changed (g : DiGraph) (max_k : Z)
    (node_edges node_edges_rm : list (list edge)) (nodes : list nat)
    (node_AP : list Q) (count : nat) : list Q * nat :=
  match nodes with
  | [] => (node_AP, count)
  | i :: rest =>
      if (out_degree g (Z.of_nat i) =? 0)%Z
      then node_loop_changed g max_k node_edges node_edges_rm rest node_AP
             count
      else node_loop_changed g max_k node_edges node_edges_rm rest
             (setitem node_AP i
                (average_precision_changed (nth i node_edges []) g
                   (nth i node_edges_rm []) max_k))
             (S count)
  end.

(** [computeMAP_changed]; [edges_rm[0]] is the list of removed edges. *)
Definition computeMAP_changed (predicted_edge_list : list edge)
    (true_digraph : DiGraph) (node_dict : Z -> option Z)
    (edges_rm : list (list (Z * Z))) (max_k : Z) : outcome Q :=
  let node_num := number_of_nodes true_digraph in
  bind_outcome
    (lift (partition_by_source (repeat [] node_num) predicted_edge_list))
    (fun node_edges =>
  bind_outcome (lift (Py.getitem edges_rm 0)) (fun removed_edges =>
  bind_outcome
    (partition_removed node_dict (repeat [] node_num) removed_edges)
    (fun node_edges_rm =>
  let '(node_AP, count) :=
    node_loop_changed true_digraph max_k node_edges node_edges_rm
      (seq 0 node_num) (repeat 0 node_num) 0 in
  lift (py_div (Py.sum node_AP) count)))).

(** ['%d' % z]: the decimal digits of an integer. *)
Definition digit (n : Z) : ascii := ascii_of_nat (48 + Z.to_nat n).

Fixpoint decimal (fuel : nat) (n : Z) (acc : string) : string :=
  match fuel with
  | O => acc
  | S fuel' =>
      let acc' := String (digit (n mod 10)) acc in
      if (n / 10 =? 0)%Z then acc' else decimal fuel' (n / 10) acc'
  end.

Definition format_d (z : Z) : string :=
  let fuel := S (Z.to_nat (Z.log2 (Z.abs z))) in
  if (z <? 0)%Z then ("-" ++ decimal fuel (- z) EmptyString)%string
  else decimal fuel z EmptyString.

(** ['\t'.join(l)]. *)
Fixpoint join_tab (l : list string) : string :=
  match l with
  | [] => EmptyString
  | [s] => s
  | s :: rest => (s ++ tab ++ join_tab rest)%string
  end.

(** [getMetricsHeader]. *)
Definition getMetricsHeader : string :=
  let header :=
    (("MAP" ++ tab)
       ++ join_tab (map (fun p => ("P@" ++ format_d p)%string) precision_pos))
      %string in
  (header ++ (tab ++ "P@EdgeNum"))%string.

End MetricsRest.

(** ** Further notions used to state properties of the metrics *)

Module MetricsRestSpec.

Import Metrics MetricsSpec.

(** [a] is ranked before [b]: its score is at least that of [b]. *)
Definition ranked_before (a b : edge) : Prop := score b <= score a.

(** The predictions that [computePrecisionCurve] scores: the first
    [max_k] of the sorted ones, all of them for [max_k = -1]. *)
Definition top_ranked (pred : list edge) (max_k : Z) : list edge :=
  firstn (Z.to_nat (clip_k max_k (length pred))) (sorted_desc pred).

(** The bucket that [node_edges[st]] denotes for a source [st]: a
    negative index counts from the end. *)
Definition bucket_of (node_num : nat) (e : edge) : Z :=
  if (src e <? 0)%Z then (src e + Z.of_nat node_num)%Z else src e.

(** The predictions filed under node [i], in their order. *)
Definition predictions_of (node_num : nat) (pred : list edge) (i : nat)
    : list edge :=
  filter (fun e => (bucket_of node_num e =? Z.of_nat i)%Z) pred.

(** Whether a source is a valid index of a list of [node_num] buckets. *)
Definition source_in_range (node_num : nat) (e : edge) : Prop :=
  (- Z.of_nat node_num <= src e < Z.of_nat node_num)%Z.

(** The nodes that [computeMAP] does not skip. *)
Definition counted (g : DiGraph) (i : nat) : bool :=
  negb (out_degree g (Z.of_nat i) =? 0)%Z.

(** The entry of [node_AP] for node [i]: the average precision of the
    predictions filed under it, or the initial 0.0 of a skipped node. *)
Definition node_average (pred : list edge) (g : DiGraph) (max_k : Z)
    (i : nat) : Q :=
  if counted g i
  then average_precision (predictions_of (number_of_nodes g) pred i) g max_k
  else 0.

(** The number of nodes that [computeMAP] counts. *)
Definition counted_nodes (g : DiGraph) : nat :=
  length (filter (counted g) (seq 0 (number_of_nodes g))).

(** A removed edge that [computeMAP_changed] can file: both endpoints
    are keys of the dictionary and the image of the source is an index of
    the node list. *)
Definition translatable (node_num : nat) (node_dict : Z -> option Z)
    (sted : Z * Z) : Prop :=
  exists s t : Z,
    node_dict (fst sted) = Some s /\ node_dict (snd sted) = Some t
    /\ (- Z.of_nat node_num <= s < Z.of_nat node_num)%Z.

(** The dictionary that maps each of the first [n] node ids to
    itself. *)
Definition identity_dict (n : nat) (k : Z) : option Z :=
  if ((0 <=? k) && (k <? Z.of_nat n))%Z then Some k else None.

(** The number of tab characters of a string: one less than its number
    of tab-separated fields. *)
Fixpoint tabs (s : string) : nat :=
  match s with
  | EmptyString => 0
  | String c s' =>
      (if Ascii.eqb c (ascii_of_nat 9) then 1 else 0)%nat + tabs s'
  end.

(** A stand-in for ['%f' % x] that prints no tab: the integer part and
    six decimals, truncated. *)
Definition fixed6 (x : Q) : string :=
  let scaled := (Qnum (x * 1000000) / Z.pos (Qden (x * 1000000)))%Z in
  (MetricsRest.format_d (scaled / 1000000) ++ "."
   ++ MetricsRest.format_d (scaled mod 1000000))%string.

End MetricsRestSpec.

(** ** The rest of graphFac_dynamic.py *)

Module GraphFacRest.

Import Np GraphFac.

(** [get_embedding] and [get_embeddings]: an attribute that was never
    assigned raises [AttributeError]. *)
Definition get_embedding (self : GraphFactorization) : result ndarray :=
  match _X self with
  | Some X => Ok X
  | None => Raise AttributeError
  end.

Definition get_embeddings (self : GraphFactorization)
    : result (list embedding) :=
  match _Xs self with
  | Some Xs => Ok Xs
  | None => Raise AttributeError
  end.

(** [X[i, :]] for a Python integer [i]. *)
Definition row_at (X : ndarray) (i : Z) : result (list Q) :=
  let n := Z.of_nat (shape0 X) in
  let k := (if i <? 0 then i + n else i)%Z in
  if ((k <? 0) || (n <=? k))%Z then Raise IndexError
  else Ok (row X (Z.to_nat k)).

(** [get_edge_weight]. *)
Definition get_edge_weight (self : GraphFactorization) (i j : Z) : result Q :=
  match _X self with
  | None => Raise AttributeError
  | Some X =>
      (u <- row_at X i ;;
       v <- row_at X j ;;
       vdot u v)%res
  end.

(** [adj[i, j] = v], in place, for a position inside the matrix. *)
Definition setitem2 (M : ndarray) (i j : nat) (v : Q) : ndarray :=
  tabulate (shape0 M) (shape1 M)
    (fun a b => if Nat.eqb a i && Nat.eqb b j then v else get M a b).

(** The two loops of [get_reconstructed_adj]. *)
Fixpoint fill_row (self : GraphFactorization) (v_i : nat) (cols : list nat)
    (adj_mtx_r : ndarray) : result ndarray :=
  match cols with
  | [] => Ok adj_mtx_r
  | v_j :: rest =>
      if Nat.eqb v_i v_j then fill_row self v_i rest adj_mtx_r
      else (w <- get_edge_weight self (Z.of_nat v_i) (Z.of_nat v_j) ;;
            fill_row self v_i rest (setitem2 adj_mtx_r v_i v_j w))%res
  end.

Fixpoint fill_rows (self : GraphFactorization) (node_num : nat)
    (rows : list nat) (adj_mtx_r : ndarray) : result ndarray :=
  match rows with
  | [] => Ok adj_mtx_r
  | v_i :: rest =>
      (adj <- fill_row self v_i (seq 0 node_num) adj_mtx_r ;;
       fill_rows self node_num rest adj)%res
  end.

(** [get_reconstructed_adj]. *)
Definition get_reconstructed_adj (self : GraphFactorization)
    (X : option ndarray) : result ndarray * GraphFactorization :=
  let self :=
    match X with
    | Some X => set_node_num (shape0 X) (set_X X self)
    | None => self
    end in
  match _node_num self with
  | None => (Raise AttributeError, self)
  | Some node_num =>
      (fill_rows self node_num (seq 0 node_num)
         (tabulate node_num node_num (fun _ _ => 0)),
       self)
  end.

End GraphFacRest.

(** ** Further notions used to state properties of the factorization *)

Module GraphFacRestSpec.

Import Np GraphFac GraphFacSpec.

(** The inner product of rows [i] and [j] of a matrix. *)
Definition inner (X : ndarray) (i j : nat) : Q :=
  Np.sum (map (fun k => get X i k * get X j k) (seq 0 (shape1 X))).

(** Node [i] starts no edge of the upper triangle: the loop over the
    edges never updates its row. *)
Definition starts_no_edge (g : DiGraph) (i : nat) : Prop :=
  forall j : nat,
    (i < j)%nat -> (j < number_of_nodes g)%nat ->
    Qlt_bool 0 (edge_weight g i j) = false.

(** Some positive entry lies above the diagonal. *)
Definition has_upper_edge (g : DiGraph) : Prop :=
  exists i j : nat,
    (i < j)%nat /\ (j < number_of_nodes g)%nat
    /\ Qlt_bool 0 (edge_weight g i j) = true.

(** Entry [(i, j)] of the matrix that [learn_embedding] starts from:
    the previous embedding on its rows, the scaled random draw below
    them. *)
Definition initial_entry (gauss : nat -> Q) (self : GraphFactorization)
    (prevEmbed : option embedding) (i j : nat) : Q :=
  let drawn := (1 # 100) * gauss (random_state self + i * _d self + j)%nat in
  match prevEmbed with
  | Some (Mat P) => if Nat.ltb i (shape0 P) then get P i j else drawn
  | _ => drawn
  end.

(** The symmetry test of [learn_embedding], as a boolean. *)
Definition symmetry_test_passes (g : DiGraph) : bool :=
  forallb (fun i =>
             forallb (fun j => isclose (edge_weight g j i) (edge_weight g i j))
                     (seq 0 (number_of_nodes g)))
          (seq 0 (number_of_nodes g)).

(** The per-edge locals, when bound, are vectors of length [d]. *)
Definition gradients_of_dim (d : nat) (locals : option gradients) : Prop :=
  match locals with
  | None => True
  | Some g =>
      length (delPhi g) = d /\ length (delPhi1 g) = d
      /\ length (delPhi2 g) = d /\ length (delPhi3 g) = d
  end.

(** The previous embedding that the loop reads has [d] columns and at
    most [n] rows. *)
Definition prev_fits (n d : nat) (prev : option ndarray) : Prop :=
  match prev with
  | None => True
  | Some P => (shape0 P <= n)%nat /\ shape1 P = d
  end.

(** A Python index into an axis of length [n], and the position it
    denotes. *)
Definition valid_index (n : nat) (i : Z) : Prop :=
  (- Z.of_nat n <= i < Z.of_nat n)%Z.

Definition wrapped (n : nat) (i : Z) : nat :=
  Z.to_nat (i mod Z.of_nat n).

(** Entry [(i, j)] of the reconstruction from [X]: zero on the
    diagonal, the inner product of the two rows elsewhere. *)
Definition gram_entry (X : ndarray) (i j : nat) : Q :=
  if Nat.eqb i j then 0 else inner X i j.

(** What the driver stores for a snapshot [g] in dimension [d]: the
    object array of [None] when [g] fails the symmetry test, an N x d
    matrix when it passes. *)
Definition entry_matches (d : nat) (g : DiGraph) (x : embedding) : Prop :=
  match x with
  | ObjNone => symmetry_test_passes g = false
  | Mat M =>
      symmetry_test_passes g = true
      /\ shape0 M = number_of_nodes g /\ shape1 M = d
  end.

(** The two snapshots have the same weight on every pair of nodes. *)
Definition same_weights (g g' : DiGraph) : Prop :=
  number_of_nodes g = number_of_nodes g'
  /\ forall i j : nat,
       (i < number_of_nodes g)%nat -> (j < number_of_nodes g)%nat ->
       edge_weight g i j == edge_weight g' i j.

(** From the first [None] on, every entry is [None]. *)
Definition none_chain (Xs : list embedding) : Prop :=
  forall t : nat,
    nth_error Xs t = Some ObjNone -> (S t < length Xs)%nat ->
    nth_error Xs (S t) = Some ObjNone.

End GraphFacRestSpec.

(** ** Further concrete inputs *)

Module GraphFacRestExamples.

Import Np GraphFac GraphFacExamples.

(** [GraphFactorization(0, 1, 1, 0.1, 0.1, 1.0)]: dimension zero. *)
Definition flat_model : GraphFactorization :=
  __init__ 0 1 1 (1 # 10) (1 # 10) 1 None 0.

(** [GraphFactorization(1, 0, 0, 0.1, 0.1, 1.0)]: no iteration. *)
Definition idle_model : GraphFactorization :=
  __init__ 1 0 0 (1 # 10) (1 # 10) 1 None 0.

(** A matrix of three rows in dimension two. *)
Definition three_rows : ndarray :=
  tabulate 3 2 (fun i j => inject_Z (Z.of_nat (i + j))).

(** Two nodes and the single directed edge 1 -> 0. *)
Definition other_way : DiGraph := graph_of 2 (unit_weight [(1, 0)]%nat).

(** Four nodes: node 0 joined to each of the three others. *)
Definition star4 : DiGraph :=
  graph_of 4
    (unit_weight [(0, 1); (1, 0); (0, 2); (2, 0); (0, 3); (3, 0)]%nat).

(** A sequence of snapshots that gains one node at every step. *)
Definition growing_snapshots : list DiGraph := [pair_graph; star3; star4].

End GraphFacRestExamples.
(** * Properties of the ranking metrics *)

Module MetricsFacts.

Import Metrics MetricsSpec MetricsExamples.
Local Open Scope nat_scope.

Lemma record_rank_scores (hit : bool) (k : nat) (a : acc) :
  length (precision_scores (record_rank hit k a))
    = S (length (precision_scores a))
  /\ length (delta_factors (record_rank hit k a))
    = S (length (delta_factors a)).
Proof.
  unfold record_rank; simpl. rewrite !length_app; simpl. lia.
Qed.

Lemma score_predictions_length (g : DiGraph) (es : list edge) :
  forall (i : nat) (a : acc),
    length (precision_scores (score_predictions g es i a))
      = length (precision_scores a) + length es
    /\ length (delta_factors (score_predictions g es i a))
      = length (delta_factors a) + length es.
Proof.
  induction es as [|e es IH]; intros i a; simpl.
  - lia.
  - destruct (IH (S i) (record_rank (has_edge g (src e) (dst e)) (i + 1) a))
      as [H1 H2].
    destruct (record_rank_scores (has_edge g (src e) (dst e)) (i + 1) a)
      as [R1 R2].
    lia.
Qed.

Lemma score_removed_length (pred : list edge) (rm : list removed) :
  forall (j : nat) (a : acc),
    length (precision_scores (score_removed pred rm j a))
      = length (precision_scores a) + length rm
    /\ length (delta_factors (score_removed pred rm j a))
      = length (delta_factors a) + length rm.
Proof.
  induction rm as [|e rm IH]; intros j a; simpl.
  - lia.
  - destruct (IH (S j)
                (record_rank (negb (checkedges pred e))
                   (length pred + j + 1) a)) as [H1 H2].
    destruct (record_rank_scores (negb (checkedges pred e))
                (length pred + j + 1) a) as [R1 R2].
    lia.
Qed.

Lemma insert_desc_length (x : edge) (l : list edge) :
  length (insert_desc x l) = S (length l).
Proof.
  induction l as [|y l IH]; simpl; [reflexivity|].
  destruct (Qlt_bool (score x) (score y)); simpl; [rewrite IH|]; reflexivity.
Qed.

Lemma sorted_desc_length (l : list edge) :
  length (sorted_desc l) = length l.
Proof.
  induction l as [|x l IH]; simpl; [reflexivity|].
  rewrite insert_desc_length, IH. reflexivity.
Qed.

(** Whatever [max_k] is, the changed-graph curve has one entry per
    prediction and per removed edge. *)
Lemma computePrecisionCurve_changed_length (pred : list edge) (g : DiGraph)
    (rm : list removed) (max_k : Z) :
  length (fst (computePrecisionCurve_changed pred g rm max_k))
    = length pred + length rm
  /\ length (snd (computePrecisionCurve_changed pred g rm max_k))
    = length pred + length rm.
Proof.
  unfold computePrecisionCurve_changed; simpl.
  destruct (score_predictions_length g (sorted_desc pred) 0 acc0) as [P1 P2].
  rewrite sorted_desc_length in P1, P2. simpl in P1, P2.
  destruct rm as [|e rm].
  - simpl. lia.
  - destruct (score_removed_length pred (e :: rm) 0
                (score_predictions g (sorted_desc pred) 0 acc0)) as [H1 H2].
    rewrite H1, H2, P1, P2. split; reflexivity.
Qed.

Lemma checkedges_tuple_from (s t : Z) (l : list edge) :
  forall val : bool,
    fold_left (fun (val : bool) (k : edge) =>
                 if same_pair k s t then true else val) l val
      = val || existsb (fun k => same_pair k s t) l.
Proof.
  induction l as [|k l IH]; intros val; simpl.
  - now rewrite orb_false_r.
  - rewrite IH. destruct (same_pair k s t), val; reflexivity.
Qed.

Lemma checkedges_tuple (pred : list edge) (e : Z * Z) :
  checkedges pred (as_tuple e) = predicted pred e.
Proof.
  unfold checkedges, as_tuple, predicted.
  now rewrite checkedges_tuple_from.
Qed.

Lemma predicted_iff (pred : list edge) (e : Z * Z) :
  predicted pred e = true
  <-> exists k, In k pred /\ src k = fst e /\ dst k = snd e.
Proof.
  unfold predicted, same_pair. rewrite existsb_exists.
  split; intros [k [Hin H]]; exists k; split; auto.
  - apply andb_true_iff in H. destruct H as [H1 H2].
    apply Z.eqb_eq in H1, H2. auto.
  - destruct H as [H1 H2]. rewrite H1, H2, !Z.eqb_refl. reflexivity.
Qed.

Lemma score_removed_spec (pred : list edge) (rm : list (Z * Z)) :
  forall (j : nat) (a : acc),
    let a' := score_removed pred (map as_tuple rm) j a in
    delta_factors a'
      = delta_factors a
          ++ map (fun e => indicator (negb (predicted pred e))) rm
    /\ precision_scores a'
      = precision_scores a
          ++ map (fun jj =>
                    ratio (correct_edge a + forgotten pred (firstn (S jj) rm))
                          (length pred + (j + jj) + 1))
                 (seq 0 (length rm))
    /\ correct_edge a' = correct_edge a + forgotten pred rm.
Proof.
  induction rm as [|e rm IH]; intros j a; simpl.
  - rewrite !app_nil_r. unfold forgotten; simpl. repeat split; lia.
  - specialize (IH (S j)
                   (record_rank (negb (checkedges pred (as_tuple e)))
                      (length pred + j + 1) a)).
    simpl in IH. destruct IH as [Hd [Hp Hc]].
    rewrite Hd, Hp, Hc. clear Hd Hp Hc.
    rewrite checkedges_tuple.
    unfold record_rank; simpl.
    rewrite <- !app_assoc. simpl.
    rewrite <- seq_shift, map_map.
    unfold forgotten, indicator; simpl.
    destruct (negb (predicted pred e)); simpl.
    + repeat split; try lia.
      f_equal. f_equal.
      * f_equal; lia.
      * apply map_ext. intros jj. f_equal; lia.
    + repeat split; try lia.
      f_equal. f_equal.
      * f_equal; lia.
      * apply map_ext. intros jj. f_equal; lia.
Qed.

Lemma insert_desc_filter (f : edge -> bool) (x : edge) (l : list edge) :
  length (filter f (insert_desc x l)) = length (filter f (x :: l)).
Proof.
  induction l as [|y l IH]; simpl; [reflexivity|].
  destruct (Qlt_bool (score x) (score y)); simpl; [|reflexivity].
  simpl in IH. destruct (f y), (f x); simpl in *; lia.
Qed.

Lemma sorted_desc_filter (f : edge -> bool) (l : list edge) :
  length (filter f (sorted_desc l)) = length (filter f l).
Proof.
  induction l as [|x l IH]; simpl; [reflexivity|].
  rewrite insert_desc_filter. simpl.
  destruct (f x); simpl; lia.
Qed.

Lemma score_predictions_count (g : DiGraph) (es : list edge) :
  forall (i : nat) (a : acc),
    correct_edge (score_predictions g es i a)
      = correct_edge a + hits g es.
Proof.
  induction es as [|e es IH]; intros i a; simpl.
  - unfold hits; simpl; lia.
  - rewrite IH. unfold record_rank, hits; simpl.
    destruct (has_edge g (src e) (dst e)); simpl; lia.
Qed.

Lemma firstn_succ_nth (A : Type) (l : list A) :
  forall (j : nat) (e : A),
    nth_error l j = Some e -> firstn (S j) l = firstn j l ++ [e].
Proof.
  induction l as [|x l IH]; intros [|j] e H; simpl in *; try discriminate.
  - now inversion H.
  - f_equal. now apply IH.
Qed.

Lemma forgotten_upto (pred : list edge) (rm : list (Z * Z)) (j : nat)
    (e : Z * Z) :
  nth_error rm j = Some e ->
  forgotten pred (firstn (S j) rm)
    = forgotten pred (firstn j rm)
      + (if predicted pred e then 0 else 1).
Proof.
  intros H. rewrite (firstn_succ_nth _ rm j e H).
  unfold forgotten. rewrite filter_app, length_app. simpl.
  destruct (predicted pred e); reflexivity.
Qed.

Lemma computePrecisionCurve_all (pred : list edge) (g : DiGraph) :
  computePrecisionCurve pred g (-1)
    = (precision_scores (score_predictions g (sorted_desc pred) 0 acc0),
       delta_factors (score_predictions g (sorted_desc pred) 0 acc0)).
Proof.
  unfold computePrecisionCurve, clip_k. simpl.
  rewrite Nat2Z.id, <- (sorted_desc_length pred), firstn_all. reflexivity.
Qed.

(** The changed-graph curve is the plain curve of all predictions
    followed by one entry per removed edge, in the order of the removed
    edges. *)
Lemma computePrecisionCurve_changed_split (pred : list edge) (g : DiGraph)
    (rm : list (Z * Z)) (max_k : Z) :
  let curve := computePrecisionCurve_changed pred g (map as_tuple rm) max_k in
  let plain := computePrecisionCurve pred g (-1) in
  fst curve
    = fst plain
        ++ map (fun j =>
                  ratio (hits g pred + forgotten pred (firstn (S j) rm))
                        (length pred + j + 1))
               (seq 0 (length rm))
  /\ snd curve
    = snd plain ++ map (fun e => indicator (negb (predicted pred e))) rm.
Proof.
  cbv zeta. rewrite computePrecisionCurve_all.
  unfold computePrecisionCurve_changed. cbv zeta.
  set (a := score_predictions g (sorted_desc pred) 0 acc0).
  assert (Ha : correct_edge a = hits g pred).
  { unfold a. rewrite score_predictions_count. simpl.
    unfold hits. apply sorted_desc_filter. }
  destruct rm as [|e rm].
  - simpl. now rewrite !app_nil_r.
  - change (match map as_tuple (e :: rm) with
            | [] => a
            | _ :: _ => score_removed pred (map as_tuple (e :: rm)) 0 a
            end)
      with (score_removed pred (map as_tuple (e :: rm)) 0 a).
    destruct (score_removed_spec pred (e :: rm) 0 a) as [Hd [Hp _]].
    cbv zeta in Hd, Hp. unfold fst, snd. rewrite Hd, Hp, Ha.
    split; reflexivity.
Qed.

(** C7. In [computePrecisionCurve_changed] the removed edges are scored
    after all the predictions and in their own order: the first
    [len(predicted_edge_list)] entries are the plain precision curve, and
    entry [len(predicted_edge_list) + j] belongs to removed edge [j].
    That edge counts as correct (indicator 1.0, running count
    incremented) exactly when no predicted entry has its
    (source, target) pair, and as a miss (indicator 0.0, count
    unchanged) when some predicted entry has it. *)
Theorem removed_edge_scored_after_predictions (pred : list edge)
    (g : DiGraph) (rm : list (Z * Z)) (max_k : Z) :
  let curve := computePrecisionCurve_changed pred g (map as_tuple rm) max_k in
  let plain := computePrecisionCurve pred g (-1) in
  let n := length pred in
  firstn n (fst curve) = fst plain
  /\ firstn n (snd curve) = snd plain
  /\ length (fst curve) = n + length rm
  /\ length (snd curve) = n + length rm
  /\ forall (j : nat) (e : Z * Z),
       nth_error rm j = Some e ->
       let also_predicted :=
         exists k, In k pred /\ src k = fst e /\ dst k = snd e in
       let correct_before := hits g pred + forgotten pred (firstn j rm) in
       (~ also_predicted ->
          nth_error (snd curve) (n + j) = Some 1%Q
          /\ nth_error (fst curve) (n + j)
             = Some (ratio (S correct_before) (n + j + 1)))
       /\ (also_predicted ->
          nth_error (snd curve) (n + j) = Some 0%Q
          /\ nth_error (fst curve) (n + j)
             = Some (ratio correct_before (n + j + 1))).
Proof.
  cbv zeta.
  destruct (computePrecisionCurve_changed_split pred g rm max_k) as [Hp Hd].
  cbv zeta in Hp, Hd.
  destruct (computePrecisionCurve_changed_length pred g (map as_tuple rm)
              max_k) as [L1 L2].
  rewrite length_map in L1, L2.
  assert (P1 : length (fst (computePrecisionCurve pred g (-1)))
               = length pred).
  { rewrite computePrecisionCurve_all. simpl.
    destruct (score_predictions_length g (sorted_desc pred) 0 acc0)
      as [H _]. rewrite H, sorted_desc_length. reflexivity. }
  assert (P2 : length (snd (computePrecisionCurve pred g (-1)))
               = length pred).
  { rewrite computePrecisionCurve_all. simpl.
    destruct (score_predictions_length g (sorted_desc pred) 0 acc0)
      as [_ H]. rewrite H, sorted_desc_length. reflexivity. }
  repeat split; auto.
  - rewrite Hp, <- P1, firstn_app, firstn_all, Nat.sub_diag. simpl.
    now rewrite app_nil_r.
  - rewrite Hd, <- P2, firstn_app, firstn_all, Nat.sub_diag. simpl.
    now rewrite app_nil_r.
  - rewrite Hd, nth_error_app2 by lia.
    rewrite P2, Nat.add_comm, Nat.add_sub.
    rewrite nth_error_map, H. simpl.
    destruct (predicted pred e) eqn:E; [|reflexivity].
    exfalso. apply H0. now apply predicted_iff.
  - rewrite Hp, nth_error_app2 by lia.
    rewrite P1, Nat.add_comm, Nat.add_sub.
    assert (Hj : j < length rm) by (apply nth_error_Some; congruence).
    rewrite nth_error_map, nth_error_seq.
    destruct (Nat.ltb_spec j (length rm)); [|lia]. simpl.
    f_equal. f_equal; [|lia].
    change (match rm with [] => [] | a :: l => a :: firstn j l end)
      with (firstn (S j) rm).
    rewrite (forgotten_upto pred rm j e H).
    destruct (predicted pred e) eqn:E; [|lia].
    exfalso. apply H0. now apply predicted_iff.
  - rewrite Hd, nth_error_app2 by lia.
    rewrite P2, Nat.add_comm, Nat.add_sub.
    rewrite nth_error_map, H. simpl.
    apply predicted_iff in H0. now rewrite H0.
  - rewrite Hp, nth_error_app2 by lia.
    rewrite P1, Nat.add_comm, Nat.add_sub.
    assert (Hj : j < length rm) by (apply nth_error_Some; congruence).
    rewrite nth_error_map, nth_error_seq.
    destruct (Nat.ltb_spec j (length rm)); [|lia]. simpl.
    f_equal. f_equal; [|lia].
    change (match rm with [] => [] | a :: l => a :: firstn j l end)
      with (firstn (S j) rm).
    rewrite (forgotten_upto pred rm j e H).
    apply predicted_iff in H0. rewrite H0. lia.
Qed.


(** C3. [max_k] does not bound the changed-graph curve: with one
    prediction, one removed edge and [max_k = 1] the curve has two
    entries, where [computePrecisionCurve] on the same prediction and
    [max_k = 0] has none. *)
Theorem changed_curve_ignores_max_k :
  computePrecisionCurve_changed one_prediction path3 [RTuple 2 0] 1
    = ([ratio 1 1; ratio 2 2], [1%Q; 1%Q])
  /\ (Z.of_nat (length (fst (computePrecisionCurve_changed one_prediction
                               path3 [RTuple 2 0] 1))) > 1)%Z
  /\ computePrecisionCurve_changed one_prediction path3 [] 0
    = ([ratio 1 1], [1%Q])
  /\ computePrecisionCurve one_prediction path3 0 = ([], []).
Proof.
  repeat split.
Qed.

(** [getPrecisionReport] *)

Lemma report_field_at_length (format_f : Q -> string) (prec_curv : list Q) :
  report_field format_f prec_curv (Z.of_nat (length prec_curv))
    = Ok (tab ++ "-")%string.
Proof.
  unfold report_field. now rewrite Z.ltb_irrefl.
Qed.

Lemma report_field_inside (format_f : Q -> string) (prec_curv : list Q)
    (p : nat) :
  1 <= p < length prec_curv ->
  report_field format_f prec_curv (Z.of_nat p)
    = Ok (tab ++ format_f (nth (p - 1) prec_curv 0%Q))%string.
Proof.
  intros [H1 H2]. unfold report_field.
  destruct (Z.ltb_spec (Z.of_nat p) (Z.of_nat (length prec_curv))); [|lia].
  unfold Py.getitem.
  destruct (Z.ltb_spec (Z.of_nat p - 1) 0); [lia|].
  destruct (Z.ltb_spec (Z.of_nat p - 1) 0); [lia|].
  replace (Z.to_nat (Z.of_nat p - 1)) with (p - 1) by lia.
  destruct (nth_error prec_curv (p - 1)) eqn:E.
  - simpl. now rewrite (nth_error_nth _ _ _ E).
  - apply nth_error_None in E. lia.
Qed.

(** C5. A curve with exactly two entries has a precision at rank 2,
    yet the report shows ["-"] in the field of rank 2 (as in all the
    others): the test that guards the field is [p < len(prec_curv)]. *)
Theorem report_dash_at_exact_length (format_f : Q -> string) :
  getPrecisionReport format_f short_curve 5
    = Ok ("-" ++ tab ++ "-" ++ tab ++ "-" ++ tab ++ "-" ++ tab ++ "-" ++ tab
          ++ "-" ++ tab ++ "-" ++ tab ++ "-")%string
  /\ report_field format_f short_curve 2 = Ok (tab ++ "-")%string
  /\ Py.getitem short_curve (2 - 1) = Ok (1 # 2)%Q.
Proof.
  repeat split.
Qed.

(** [computeMAP] *)

Lemma bucket_append_ok (node_edges : list (list edge)) (e : edge) :
  (- Z.of_nat (length node_edges) <= src e < Z.of_nat (length node_edges))%Z ->
  exists ne, bucket_append node_edges e = Ok ne
             /\ length ne = length node_edges.
Proof.
  intros H. unfold bucket_append.
  set (k := (if (src e <? 0)%Z then (src e + Z.of_nat (length node_edges))%Z
             else src e)).
  assert (Hk : (0 <= k < Z.of_nat (length node_edges))%Z).
  { unfold k. destruct (Z.ltb_spec (src e) 0); lia. }
  destruct (Z.ltb_spec k 0); [lia|].
  destruct (Z.leb_spec (Z.of_nat (length node_edges)) k); [lia|].
  simpl. eexists. split; [reflexivity|].
  rewrite length_map, length_combine, length_seq. lia.
Qed.

Lemma partition_by_source_ok (l : list edge) :
  forall node_edges : list (list edge),
    Forall (fun e => (- Z.of_nat (length node_edges) <= src e
                      < Z.of_nat (length node_edges))%Z) l ->
    exists ne, partition_by_source node_edges l = Ok ne
               /\ length ne = length node_edges.
Proof.
  induction l as [|e l IH]; intros node_edges H; simpl.
  - eauto.
  - inversion H as [|? ? He Hl]; subst.
    destruct (bucket_append_ok node_edges e He) as [ne [E L]].
    rewrite E. simpl.
    destruct (IH ne) as [ne' [E' L']].
    + now rewrite L.
    + exists ne'. split; [exact E'|congruence].
Qed.

(** A node of out-degree zero changes neither [node_AP] nor [count]. *)
Lemma node_loop_skips (g : DiGraph) (max_k : Z)
    (node_edges : list (list edge)) (nodes : list nat) :
  forall (node_AP : list Q) (count : nat),
    Forall (fun i => out_degree g (Z.of_nat i) = 0%Z) nodes ->
    node_loop g max_k node_edges nodes node_AP count = (node_AP, count).
Proof.
  induction nodes as [|i nodes IH]; intros node_AP count H; simpl.
  - reflexivity.
  - inversion H as [|? ? Hi Hn]; subst.
    rewrite Hi. simpl. now apply IH.
Qed.

(** C4. When every node of the ground truth has out-degree zero,
    [computeMAP] does not return: the node count that divides the sum
    is zero and the division raises. *)
Theorem computeMAP_raises_without_out_edges (pred : list edge)
    (g : DiGraph) (max_k : Z) :
  (forall i : nat, i < number_of_nodes g ->
                   out_degree g (Z.of_nat i) = 0%Z) ->
  Forall (fun e => (- Z.of_nat (number_of_nodes g) <= src e
                    < Z.of_nat (number_of_nodes g))%Z) pred ->
  computeMAP pred g max_k = Raise ZeroDivisionError.
Proof.
  intros Hdeg Hsrc. unfold computeMAP.
  destruct (partition_by_source_ok pred (repeat [] (number_of_nodes g)))
    as [ne [E _]].
  { now rewrite repeat_length. }
  rewrite E. simpl.
  rewrite node_loop_skips.
  - reflexivity.
  - apply Forall_forall. intros i Hi. apply in_seq in Hi.
    apply Hdeg. lia.
Qed.

Lemma computeMAP_raises_without_out_edges_witness :
  computeMAP two_predictions isolated3 (-1) = Raise ZeroDivisionError.
Proof.
  apply computeMAP_raises_without_out_edges.
  - intros i _. reflexivity.
  - unfold two_predictions.
    repeat (apply Forall_cons; [unfold src; simpl; lia|]). apply Forall_nil.
Defined.

Lemma removed_edge_scored_after_predictions_witness :
  nth_error (snd (computePrecisionCurve_changed one_prediction path3
                    (map as_tuple [(2, 0); (0, 1)]%Z) (-1))) (1 + 0)
    = Some 1%Q
  /\ nth_error (snd (computePrecisionCurve_changed one_prediction path3
                       (map as_tuple [(2, 0); (0, 1)]%Z) (-1))) (1 + 1)
    = Some 0%Q.
Proof.
  destruct (removed_edge_scored_after_predictions one_prediction path3
              [(2, 0); (0, 1)]%Z (-1)) as [_ [_ [_ [_ H]]]].
  split.
  - refine (proj1 (proj1 (H 0 (2, 0)%Z eq_refl) _)).
    intros [k [[Hk|[]] [Hs _]]]. subst k. discriminate Hs.
  - refine (proj1 (proj2 (H 1 (0, 1)%Z eq_refl) _)).
    exists (0%Z, 1%Z, 9 # 10). simpl. auto.
Defined.

End MetricsFacts.

(** * Properties of the factorization *)

Module NpFacts.

Import Np.
Local Open Scope nat_scope.

Lemma nth_map_seq (A : Type) (f : nat -> A) (d : A) (n i : nat) :
  i < n -> nth i (map f (seq 0 n)) d = f i.
Proof.
  intros H.
  rewrite (nth_indep _ d (f 0)) by (now rewrite length_map, length_seq).
  rewrite (map_nth f (seq 0 n) 0 i), seq_nth by exact H. reflexivity.
Qed.

Lemma get_tabulate (r c : nat) (f : nat -> nat -> Q) (i j : nat) :
  i < r -> j < c -> get (tabulate r c f) i j = f i j.
Proof.
  intros Hi Hj. unfold get, tabulate; simpl.
  rewrite (nth_map_seq _ (fun i => map (f i) (seq 0 c)) [] r i Hi).
  now apply nth_map_seq.
Qed.

Lemma bidx_lt (dim i : nat) : i < dim -> bidx dim i = i.
Proof.
  unfold bidx. destruct (Nat.eqb_spec dim 1); lia.
Qed.

Lemma bget_tabulate (r c : nat) (f : nat -> nat -> Q) (i j : nat) :
  i < r -> j < c -> bget (tabulate r c f) i j = f i j.
Proof.
  intros Hi Hj. unfold bget. simpl.
  rewrite !bidx_lt by assumption. now apply get_tabulate.
Qed.

Lemma tabulate_ext (r c : nat) (f g : nat -> nat -> Q) :
  (forall i j, i < r -> j < c -> f i j = g i j) ->
  tabulate r c f = tabulate r c g.
Proof.
  intros H. unfold tabulate. f_equal.
  apply map_ext_in. intros i Hi. apply in_seq in Hi.
  apply map_ext_in. intros j Hj. apply in_seq in Hj.
  apply H; lia.
Qed.

Lemma row_tabulate (r c : nat) (f : nat -> nat -> Q) (i : nat) :
  i < r -> row (tabulate r c f) i = map (f i) (seq 0 c).
Proof.
  intros Hi. unfold row. simpl.
  apply map_ext_in. intros j Hj. apply in_seq in Hj.
  apply get_tabulate; lia.
Qed.

Lemma bdim_same (n : nat) : bdim n n = Ok n.
Proof. unfold bdim. now rewrite Nat.eqb_refl. Qed.

Lemma zip2_same_shape (op : Q -> Q -> Q) (r c : nat)
    (f g : nat -> nat -> Q) :
  zip2 op (tabulate r c f) (tabulate r c g)
    = Ok (tabulate r c (fun i j => op (f i j) (g i j))).
Proof.
  unfold zip2. simpl. rewrite !bdim_same. simpl. f_equal.
  apply tabulate_ext. intros i j Hi Hj.
  now rewrite !bget_tabulate.
Qed.

Lemma map1_tabulate (h : Q -> Q) (r c : nat) (f : nat -> nat -> Q) :
  map1 h (tabulate r c f) = tabulate r c (fun i j => h (f i j)).
Proof.
  unfold map1. simpl. apply tabulate_ext. intros i j Hi Hj.
  now rewrite get_tabulate.
Qed.

Lemma forallb_seq_false (p : nat -> bool) (n i : nat) :
  i < n -> p i = false -> forallb p (seq 0 n) = false.
Proof.
  intros Hi Hp.
  destruct (forallb p (seq 0 n)) eqn:E; [|reflexivity].
  rewrite forallb_forall in E.
  rewrite <- Hp. symmetry. apply E. apply in_seq. lia.
Qed.

Lemma forallb_seq_true (p : nat -> bool) (n : nat) :
  (forall i, i < n -> p i = true) -> forallb p (seq 0 n) = true.
Proof.
  intros H. apply forallb_forall. intros i Hi. apply in_seq in Hi.
  apply H. lia.
Qed.

Lemma forallb_seq_ext (p q : nat -> bool) (n : nat) :
  (forall i, i < n -> p i = q i) ->
  forallb p (seq 0 n) = forallb q (seq 0 n).
Proof.
  intros H.
  assert (G : forall l : list nat,
             (forall i, In i l -> p i = q i) -> forallb p l = forallb q l).
  { induction l as [|x l IH]; intros Hl; simpl; [reflexivity|].
    rewrite (Hl x) by now left.
    rewrite IH; [reflexivity|]. intros i Hi. apply Hl. now right. }
  apply G. intros i Hi. apply in_seq in Hi. apply H. lia.
Qed.

End NpFacts.

Module GraphFacFacts.

Import Np GraphFac GraphFacSpec GraphFacExamples NpFacts.
Local Open Scope nat_scope.

(** *** The symmetry test *)

Lemma symmetry_test (g : DiGraph) :
  let n := number_of_nodes g in
  let A := transform_DiGraph_to_adj g in
  allclose (transpose A) A
    = Ok (forallb (fun i =>
                     forallb (fun j => isclose (edge_weight g j i)
                                               (edge_weight g i j))
                             (seq 0 n))
                  (seq 0 n)).
Proof.
  cbv zeta. unfold allclose, transform_DiGraph_to_adj. simpl.
  rewrite !bdim_same. simpl. f_equal.
  apply forallb_seq_ext. intros i Hi.
  apply forallb_seq_ext. intros j Hj.
  unfold transpose. simpl.
  rewrite !bget_tabulate by assumption.
  now rewrite get_tabulate.
Qed.

Lemma symmetric_passes (g : DiGraph) :
  symmetric_within_tolerance g ->
  allclose (transpose (transform_DiGraph_to_adj g))
           (transform_DiGraph_to_adj g) = Ok true.
Proof.
  intros H. rewrite symmetry_test. f_equal.
  apply forallb_seq_true. intros i Hi.
  apply forallb_seq_true. intros j Hj.
  now apply H.
Qed.

Lemma asymmetric_fails (g : DiGraph) (i j : nat) :
  i < number_of_nodes g -> j < number_of_nodes g ->
  isclose (edge_weight g j i) (edge_weight g i j) = false ->
  allclose (transpose (transform_DiGraph_to_adj g))
           (transform_DiGraph_to_adj g) = Ok false.
Proof.
  intros Hi Hj H. rewrite symmetry_test. f_equal.
  apply (forallb_seq_false _ _ i Hi).
  now apply (forallb_seq_false _ _ j Hj).
Qed.

(** C2, as the code has it. When some entry of the adjacency matrix
    is not close to its mirror image, [learn_embedding] (with or
    without a previous embedding) writes its message and returns
    [None]; it does not raise, and it leaves every attribute of the
    object, [self._X] included, as it was. *)
Theorem asymmetric_graph_returns_none (gauss : nat -> Q)
    (self : GraphFactorization) (g : DiGraph)
    (prevEmbed : option embedding) (i j : nat) :
  i < number_of_nodes g -> j < number_of_nodes g ->
  isclose (edge_weight g j i) (edge_weight g i j) = false ->
  learn_embedding gauss self g prevEmbed
    = (Ok None, print MsgNotSymmetric self)
  /\ _X (snd (learn_embedding gauss self g prevEmbed)) = _X self
  /\ _Xs (snd (learn_embedding gauss self g prevEmbed)) = _Xs self
  /\ random_state (snd (learn_embedding gauss self g prevEmbed))
     = random_state self.
Proof.
  intros Hi Hj H.
  assert (E : learn_embedding gauss self g prevEmbed
              = (Ok None, print MsgNotSymmetric self)).
  { unfold learn_embedding.
    now rewrite (asymmetric_fails g i j Hi Hj H). }
  rewrite E. repeat split.
Qed.

Lemma asymmetric_graph_returns_none_witness :
  learn_embedding samples model one_way None
    = (Ok None, print MsgNotSymmetric model)
  /\ _X (snd (learn_embedding samples model one_way None)) = _X model
  /\ _Xs (snd (learn_embedding samples model one_way None)) = _Xs model
  /\ random_state (snd (learn_embedding samples model one_way None))
     = random_state model.
Proof.
  apply (asymmetric_graph_returns_none samples model one_way None 0 1).
  - simpl; lia.
  - simpl; lia.
  - reflexivity.
Defined.

(** C2, as stated, fails: on the two-node graph with the single edge
    0 -> 1 the call returns [None] and raises nothing. *)
Lemma asymmetric_graph_does_not_raise :
  edge_weight one_way 0 1 = 1%Q
  /\ edge_weight one_way 1 0 = 0%Q
  /\ fst (learn_embedding samples model one_way None) = Ok None
  /\ forall e : exn,
       fst (learn_embedding samples model one_way None) <> Raise e.
Proof.
  repeat split. intros e H. discriminate H.
Qed.

(** The test is [np.allclose], not equality: a matrix whose mirror
    entries differ by 1e-9 is factorized. *)
Lemma almost_symmetric_graph_is_factorized :
  ~ (edge_weight almost_symmetric 0 1 == edge_weight almost_symmetric 1 0)%Q
  /\ exists X : ndarray,
       fst (learn_embedding samples model almost_symmetric None)
         = Ok (Some X).
Proof.
  split.
  - intros H. vm_compute in H. discriminate H.
  - eexists. vm_compute. reflexivity.
Qed.

(** *** Initialization *)

Lemma random_start (gauss : nat -> Q) (pos n d : nat) :
  scale (1 # 100) (randn gauss pos n d)
    = tabulate n d (fun i j => ((1 # 100) * gauss (pos + i * d + j)%nat)%Q).
Proof.
  unfold scale, randn. apply map1_tabulate.
Qed.

Lemma get_copy (P : ndarray) (i j : nat) :
  i < shape0 P -> j < shape1 P -> bget (copy P) i j = get P i j.
Proof.
  intros Hi Hj. unfold copy. now rewrite bget_tabulate.
Qed.

Lemma initialize_warm (gauss : nat -> Q) (self : GraphFactorization)
    (g : DiGraph) (P : ndarray) :
  let n := number_of_nodes g in
  shape0 P <= n -> shape1 P = _d self ->
  exists self0 : GraphFactorization,
    initialize gauss self (transform_DiGraph_to_adj g) (Some (Mat P))
      = (Ok (warm_matrix gauss self n P, Some P), self0)
    /\ _num_iter self0 = Some (_n_iter_sub self)
    /\ _X self0 = Some (warm_matrix gauss self n P)
    /\ _kappa self0 = _kappa self
    /\ _eta self0 = _eta self.
Proof.
  cbv zeta. intros Hm Hd.
  unfold initialize, assign_rows, warm_matrix. simpl.
  rewrite Nat.min_l by exact Hm.
  rewrite Hd, !Nat.eqb_refl. simpl.
  eexists. split; [reflexivity|]. repeat split.
Qed.

Lemma optimize_finish (self : GraphFactorization) (A : ndarray)
    (prev : option ndarray) (X : ndarray) (k : nat) :
  _num_iter self = Some k ->
  optimize self A prev X
    = finish self (iter_loop self A prev (where_pos A) (seq 0 k) X None
                     (stdout self)).
Proof.
  intros H. unfold optimize, finish. rewrite H. reflexivity.
Qed.

Lemma learn_embedding_warm (gauss : nat -> Q) (self : GraphFactorization)
    (g : DiGraph) (P : ndarray) :
  let n := number_of_nodes g in
  let A := transform_DiGraph_to_adj g in
  let X0 := warm_matrix gauss self n P in
  symmetric_within_tolerance g ->
  shape0 P <= n -> shape1 P = _d self ->
  exists self0 : GraphFactorization,
    initialize gauss self A (Some (Mat P)) = (Ok (X0, Some P), self0)
    /\ _X self0 = Some X0
    /\ _num_iter self0 = Some (_n_iter_sub self)
    /\ learn_embedding gauss self g (Some (Mat P))
       = finish self0
           (iter_loop self0 A (Some P) (where_pos A)
              (seq 0 (_n_iter_sub self)) X0 None (stdout self0)).
Proof.
  cbv zeta. intros Hsym Hm Hd.
  destruct (initialize_warm gauss self g P Hm Hd)
    as [self0 [Hinit [Hiter [HX _]]]].
  exists self0. repeat split; try assumption.
  unfold learn_embedding.
  rewrite (symmetric_passes g Hsym), Hinit.
  now apply optimize_finish.
Qed.

(** C9. When a previous embedding [P] with [N_prev <= N] rows and [d]
    columns is supplied for a symmetric graph, the matrix is drawn at
    random and scaled by 0.01, its first [N_prev] rows are then the
    rows of [P] exactly, the others keep their random entries, and the
    optimisation loop runs [n_iter_sub] iterations from that matrix. *)
Theorem warm_start_copies_previous_embedding (gauss : nat -> Q)
    (self : GraphFactorization) (g : DiGraph) (P : ndarray) :
  let n := number_of_nodes g in
  let d := _d self in
  let A := transform_DiGraph_to_adj g in
  symmetric_within_tolerance g ->
  shape0 P <= n -> shape1 P = d ->
  exists (X0 : ndarray) (self0 : GraphFactorization),
    initialize gauss self A (Some (Mat P)) = (Ok (X0, Some P), self0)
    /\ shape0 X0 = n /\ shape1 X0 = d
    /\ (forall i j, i < shape0 P -> j < d -> get X0 i j = get P i j)
    /\ (forall i j, shape0 P <= i < n -> j < d ->
          get X0 i j
            = ((1 # 100) * gauss (random_state self + i * d + j)%nat)%Q)
    /\ _X self0 = Some X0
    /\ _num_iter self0 = Some (_n_iter_sub self)
    /\ learn_embedding gauss self g (Some (Mat P))
       = finish self0
           (iter_loop self0 A (Some P) (where_pos A)
              (seq 0 (_n_iter_sub self)) X0 None (stdout self0)).
Proof.
  cbv zeta. intros Hsym Hm Hd.
  destruct (learn_embedding_warm gauss self g P Hsym Hm Hd)
    as [self0 [Hinit [HX [Hiter Hrun]]]].
  exists (warm_matrix gauss self (number_of_nodes g) P), self0.
  split; [exact Hinit|].
  split; [reflexivity|]. split; [reflexivity|].
  split; [|split; [|split; [exact HX|split; [exact Hiter|exact Hrun]]]].
  - intros i j Hi Hj. unfold warm_matrix.
    rewrite get_tabulate by lia.
    rewrite Nat.min_l by exact Hm.
    destruct (Nat.ltb_spec i (shape0 P)); [|lia].
    apply get_copy; lia.
  - intros i j Hi Hj. unfold warm_matrix.
    rewrite get_tabulate by lia.
    rewrite Nat.min_l by exact Hm.
    destruct (Nat.ltb_spec i (shape0 P)); [lia|].
    rewrite random_start. rewrite get_tabulate by lia. reflexivity.
Qed.

(** Without a previous embedding the matrix is the random start and
    the loop runs [n_iter] iterations. *)
Lemma cold_start (gauss : nat -> Q) (self : GraphFactorization)
    (g : DiGraph) :
  let n := number_of_nodes g in
  let d := _d self in
  let A := transform_DiGraph_to_adj g in
  symmetric_within_tolerance g ->
  exists (X0 : ndarray) (self0 : GraphFactorization),
    initialize gauss self A None = (Ok (X0, None), self0)
    /\ X0 = tabulate n d
              (fun i j =>
                 ((1 # 100) * gauss (random_state self + i * d + j)%nat)%Q)
    /\ _num_iter self0 = Some (_n_iter self)
    /\ learn_embedding gauss self g None
       = finish self0
           (iter_loop self0 A None (where_pos A) (seq 0 (_n_iter self))
              X0 None (stdout self0)).
Proof.
  cbv zeta. intros Hsym.
  eexists. eexists. split; [reflexivity|].
  split; [apply random_start|]. split; [reflexivity|].
  unfold learn_embedding. rewrite (symmetric_passes g Hsym).
  unfold initialize. now apply optimize_finish.
Qed.

(** *** The optimisation loop on a graph without an edge [i < j] *)

Lemma where_pos_in (A : ndarray) (i j : nat) :
  In (i, j) (where_pos A) ->
  i < shape0 A /\ j < shape1 A /\ Qlt_bool 0 (get A i j) = true.
Proof.
  unfold where_pos. intros H.
  apply in_flat_map in H. destruct H as [i' [Hi' H]].
  apply in_map_iff in H. destruct H as [j' [E H]].
  inversion E; subst i' j'.
  apply filter_In in H. destruct H as [Hj Hpos].
  apply in_seq in Hi'. apply in_seq in Hj.
  repeat split; [lia|lia|exact Hpos].
Qed.

Lemma edge_loop_skips (self : GraphFactorization) (A : ndarray)
    (prev : option ndarray) (edgeList : list (nat * nat)) :
  forall (X : ndarray) (locals : option gradients),
    (forall i j, In (i, j) edgeList -> j <= i) ->
    edge_loop self A prev edgeList X locals = (Ok locals, X).
Proof.
  induction edgeList as [|[i j] rest IH]; intros X locals H; simpl.
  - reflexivity.
  - destruct (Nat.leb_spec j i) as [_|Hlt].
    + apply IH. intros i' j' Hin. apply H. now right.
    + specialize (H i j (or_introl eq_refl)). lia.
Qed.

Lemma no_upper_edge_where_pos (g : DiGraph) :
  no_upper_edge g ->
  forall i j, In (i, j) (where_pos (transform_DiGraph_to_adj g)) -> j <= i.
Proof.
  intros H i j Hin.
  apply where_pos_in in Hin. simpl in Hin. destruct Hin as [Hi [Hj Hpos]].
  destruct (Nat.le_gt_cases j i) as [Hle|Hlt]; [exact Hle|].
  unfold transform_DiGraph_to_adj in Hpos.
  rewrite get_tabulate in Hpos by assumption.
  rewrite (H i j Hlt Hj) in Hpos. discriminate Hpos.
Qed.

Lemma getFVal_returns (self : GraphFactorization) (g : DiGraph)
    (X : ndarray) (prev : option ndarray) :
  shape0 X = number_of_nodes g ->
  match prev with
  | None => True
  | Some P => shape0 P <= shape0 X /\ shape1 P <= shape1 X
  end ->
  exists v, getFVal self (transform_DiGraph_to_adj g) X prev = Ok v.
Proof.
  intros HX Hprev. unfold getFVal, dot, zip2. simpl.
  rewrite Nat.eqb_refl. simpl.
  rewrite HX, !bdim_same. simpl.
  destruct prev as [P|].
  - destruct Hprev as [H0 H1].
    rewrite !Nat.min_l by lia.
    rewrite !bdim_same. simpl. eauto.
  - simpl. eauto.
Qed.

(** C10. On a symmetric graph without a positive entry above the
    diagonal, and with at least one iteration to run, [learn_embedding]
    returns no embedding: in iteration 0 the loop over the edges
    assigns nothing, and the line that prints [delPhi[0]] finds the
    variable unbound. *)
Theorem learn_embedding_unbound_without_upper_edge (gauss : nat -> Q)
    (self : GraphFactorization) (g : DiGraph)
    (prevEmbed : option embedding) :
  symmetric_within_tolerance g ->
  no_upper_edge g ->
  fits (number_of_nodes g) (_d self) prevEmbed ->
  1 <= iteration_count self prevEmbed ->
  fst (learn_embedding gauss self g prevEmbed) = Raise UnboundLocalError.
Proof.
  intros Hsym Hno Hfit Hiter.
  assert (Hskip := no_upper_edge_where_pos g Hno).
  destruct prevEmbed as [[|P]|]; simpl in Hfit, Hiter.
  - contradiction.
  - destruct Hfit as [Hm Hd].
    destruct (learn_embedding_warm gauss self g P Hsym Hm Hd)
      as [self0 [_ [_ [_ E]]]].
    rewrite E. clear E.
    set (X0 := warm_matrix gauss self (number_of_nodes g) P).
    assert (S0 : shape0 X0 = number_of_nodes g) by reflexivity.
    assert (S1 : shape1 X0 = _d self) by reflexivity.
    destruct (_n_iter_sub self) as [|k]; [lia|].
    simpl seq. unfold iter_loop; fold iter_loop.
    change (Nat.eqb (0 mod 100) 0) with true. cbv iota.
    unfold objective_line.
    destruct (getFVal_returns self0 g X0 (Some P)) as [[[[f1 f2] f3] f] Hf].
    { exact S0. }
    { split; lia. }
    rewrite Hf. simpl bind. cbv iota beta.
    rewrite edge_loop_skips by exact Hskip.
    reflexivity.
  - destruct (cold_start gauss self g Hsym)
      as [X0 [self0 [_ [HX0 [_ E]]]]].
    rewrite E. clear E.
    destruct (_n_iter self) as [|k]; [lia|].
    simpl seq. unfold iter_loop; fold iter_loop.
    change (Nat.eqb (0 mod 100) 0) with true. cbv iota.
    unfold objective_line.
    destruct (getFVal_returns self0 g X0 None) as [[[[f1 f2] f3] f] Hf].
    { rewrite HX0. reflexivity. }
    { exact I. }
    rewrite Hf. simpl bind. cbv iota beta.
    rewrite edge_loop_skips by exact Hskip.
    reflexivity.
Qed.

(** *** The penalty vector of a step of the driver *)

Lemma getitem_nat (A : Type) (l : list A) (i : nat) (x : A) :
  nth_error l i = Some x -> Py.getitem l (Z.of_nat i) = Ok x.
Proof.
  intros H. unfold Py.getitem.
  destruct (Z.ltb_spec (Z.of_nat i) 0); [lia|].
  destruct (Z.ltb_spec (Z.of_nat i) 0); [lia|].
  now rewrite Nat2Z.id, H.
Qed.

Lemma getitem_pred (A : Type) (l : list A) (i : nat) (x : A) :
  1 <= i -> nth_error l (i - 1) = Some x ->
  Py.getitem l (Z.of_nat i - 1) = Ok x.
Proof.
  intros Hi H.
  replace (Z.of_nat i - 1)%Z with (Z.of_nat (i - 1)) by lia.
  now apply getitem_nat.
Qed.

Lemma step_kappas_penalty (inverse_entries : ndarray -> result (nat -> nat -> Q))
    (self : GraphFactorization) (graph_t graph_p : DiGraph) (n : nat)
    (G : nat -> nat -> Q) :
  number_of_nodes graph_t = n ->
  number_of_nodes graph_p = n ->
  inverse_entries (M_g graph_t graph_p n) = Ok G ->
  step_kappas inverse_entries self graph_t graph_p
    = Ok (map (penalty (_kappa self) graph_t graph_p n G) (seq 0 n)).
Proof.
  intros Ht Hp HG.
  unfold step_kappas, transform_DiGraph_to_adj. rewrite Ht, Hp.
  rewrite zip2_same_shape. cbn [bind].
  rewrite map1_tabulate. unfold scale. rewrite map1_tabulate.
  unfold eye. simpl shape0. rewrite zip2_same_shape. cbn [bind].
  cbv beta.
  change (tabulate n n
            (fun i j =>
               ((if Nat.eqb i j then 1 else 0)
                - beta * Qabs (edge_weight graph_t i j
                               - edge_weight graph_p i j))%Q))
    with (M_g graph_t graph_p n).
  change (tabulate n n
            (fun i j =>
               (beta * Qabs (edge_weight graph_t i j
                             - edge_weight graph_p i j))%Q))
    with (M_l graph_t graph_p n).
  unfold linalg_inv. rewrite HG. cbn [bind].
  unfold dot. simpl shape0. simpl shape1. rewrite Nat.eqb_refl.
  cbn [bind]. f_equal.
  unfold sum_axis1. simpl shape0. rewrite !map_map.
  apply map_ext_in. intros i Hi. apply in_seq in Hi.
  unfold penalty, row_sum.
  rewrite row_tabulate by lia.
  assert (E : map (fun j =>
                     Np.sum (map (fun k =>
                                    (get (tabulate n n G) i k
                                     * get (M_l graph_t graph_p n) k j)%Q)
                                 (seq 0 n)))
                  (seq 0 n)
              = map (S_entry graph_t graph_p n G i) (seq 0 n)).
  { apply map_ext_in. intros j Hj. unfold S_entry. f_equal.
    apply map_ext_in. intros k Hk. apply in_seq in Hk.
    rewrite get_tabulate by lia. reflexivity. }
  rewrite E. reflexivity.
Qed.

(** Two snapshots of different sizes (neither of a single node) stop
    the step at [X_curr - X_prev]: numpy cannot broadcast the shapes. *)
Lemma step_kappas_sizes_differ
    (inverse_entries : ndarray -> result (nat -> nat -> Q))
    (self : GraphFactorization) (graph_t graph_p : DiGraph) :
  number_of_nodes graph_t <> number_of_nodes graph_p ->
  number_of_nodes graph_t <> 1 ->
  number_of_nodes graph_p <> 1 ->
  step_kappas inverse_entries self graph_t graph_p = Raise ValueError.
Proof.
  intros Hne Ht Hp. unfold step_kappas, zip2, bdim. simpl shape0.
  destruct (Nat.eqb_spec (number_of_nodes graph_t) (number_of_nodes graph_p));
    [contradiction|].
  destruct (Nat.eqb_spec (number_of_nodes graph_t) 1); [contradiction|].
  destruct (Nat.eqb_spec (number_of_nodes graph_p) 1); [contradiction|].
  reflexivity.
Qed.

(** The penalty vector on two snapshots of the same size: at such a
    step of the driver, with [G] the inverse that numpy returns for
    [M_g = I - 0.01 * DeltaA], the vector stored in [self._kappas] has, at every node
    [i], the value [kappa_base / row_sum_i], where [DeltaA = |A_t -
    A_(t-1)|], [M_l = 0.01 * DeltaA], [S = G * M_l] and [row_sum_i] is
    the sum of row [i] of [S], replaced by 0.01 when it is zero. *)
Theorem driver_penalty_vector
    (inverse_entries : ndarray -> result (nat -> nat -> Q))
    (self : GraphFactorization) (graphs : list DiGraph) (t : nat)
    (graph_t graph_p : DiGraph) (n : nat) (G : nat -> nat -> Q) :
  1 <= t ->
  nth_error graphs t = Some graph_t ->
  nth_error graphs (t - 1) = Some graph_p ->
  number_of_nodes graph_t = n ->
  number_of_nodes graph_p = n ->
  inverse_entries (M_g graph_t graph_p n) = Ok G ->
  exists ks : list Q,
    _kappas (snd (step_prepare inverse_entries self graphs t))
      = Some (KVector ks)
    /\ length ks = n
    /\ forall i, i < n ->
         nth i ks 0%Q = (_kappa self / row_sum graph_t graph_p n G i)%Q.
Proof.
  intros Ht Hgt Hgp Hnt Hnp HG.
  exists (map (penalty (_kappa self) graph_t graph_p n G) (seq 0 n)).
  split; [|split].
  - unfold step_prepare.
    rewrite (getitem_nat _ graphs t graph_t Hgt).
    rewrite (getitem_pred _ graphs t graph_p Ht Hgp).
    rewrite (step_kappas_penalty inverse_entries self graph_t graph_p n G
               Hnt Hnp HG).
    simpl.
    destruct (_Xs self) as [Xs|]; [|reflexivity].
    destruct (Py.getitem Xs (Z.of_nat t - 1)); reflexivity.
  - now rewrite length_map, length_seq.
  - intros i Hi. rewrite nth_map_seq by exact Hi. reflexivity.
Qed.

(** *** The learning rate across the steps of the driver *)

Lemma initialize_frame (gauss : nat -> Q) (self : GraphFactorization)
    (A : ndarray) (prevEmbed : option embedding) :
  unchanged_by_learn_embedding self
    (snd (initialize gauss self A prevEmbed)).
Proof.
  unfold initialize.
  destruct prevEmbed as [[|P]|]; [repeat split| |repeat split].
  destruct (assign_rows _ _ _) as [X'|e]; repeat split.
Qed.

Lemma optimize_frame (self : GraphFactorization) (A : ndarray)
    (prev : option ndarray) (X : ndarray) :
  unchanged_by_learn_embedding self (snd (optimize self A prev X)).
Proof.
  unfold optimize.
  destruct (_num_iter self) as [k|]; [|repeat split].
  destruct (iter_loop _ _ _ _ _ _ _ _) as [[[u|e] X'] out]; repeat split.
Qed.

Lemma unchanged_trans (s1 s2 s3 : GraphFactorization) :
  unchanged_by_learn_embedding s1 s2 ->
  unchanged_by_learn_embedding s2 s3 ->
  unchanged_by_learn_embedding s1 s3.
Proof.
  unfold unchanged_by_learn_embedding.
  intros H1 H2. decompose [and] H1. decompose [and] H2.
  repeat split; congruence.
Qed.

Lemma learn_embedding_frame (gauss : nat -> Q) (self : GraphFactorization)
    (g : DiGraph) (prevEmbed : option embedding) :
  unchanged_by_learn_embedding self
    (snd (learn_embedding gauss self g prevEmbed)).
Proof.
  unfold learn_embedding.
  destruct (allclose _ _) as [[|]|e]; [|repeat split|repeat split].
  pose proof (initialize_frame gauss self (transform_DiGraph_to_adj g)
                prevEmbed) as F.
  destruct (initialize gauss self (transform_DiGraph_to_adj g) prevEmbed)
    as [[[X prev]|e] s1]; simpl in F; [|exact F].
  exact (unchanged_trans _ _ _ F (optimize_frame s1 _ prev X)).
Qed.

Lemma step_prepare_decays
    (inverse_entries : ndarray -> result (nat -> nat -> Q))
    (self self' : GraphFactorization) (graphs : list DiGraph) (i : nat)
    (graph_i : DiGraph) (prev : embedding) :
  step_prepare inverse_entries self graphs i = (Ok (graph_i, prev), self') ->
  _eta self' = (_eta self / 10)%Q /\ _Xs self' = _Xs self.
Proof.
  unfold step_prepare.
  destruct (Py.getitem graphs (Z.of_nat i)) as [gi|e];
    [|intros H; discriminate H].
  destruct (Py.getitem graphs (Z.of_nat i - 1)) as [gp|e];
    [|intros H; discriminate H].
  destruct (step_kappas inverse_entries self gi gp) as [ks|e];
    [|intros H; discriminate H].
  simpl _Xs.
  destruct (_Xs self) as [Xs|] eqn:EX; [|intros H; discriminate H].
  destruct (Py.getitem Xs (Z.of_nat i - 1)) as [p|e];
    [|intros H; discriminate H].
  intros H. inversion H; subst. simpl. split; [reflexivity|exact EX].
Qed.

Lemma decayed_step (eta : Q) (k : nat) :
  decayed (eta / 10) k = decayed eta (S k).
Proof.
  unfold decayed. induction k as [|k IH]; simpl; [reflexivity|].
  now rewrite IH.
Qed.

Lemma steps_decay
    (inverse_entries : ndarray -> result (nat -> nat -> Q))
    (gauss : nat -> Q) (graphs : list DiGraph) (indices : list nat) :
  forall (self self' : GraphFactorization) (Xs : list embedding),
    _Xs self = Some Xs ->
    steps inverse_entries gauss self graphs indices = (Ok tt, self') ->
    _eta self' = decayed (_eta self) (length indices)
    /\ exists Xs', _Xs self' = Some Xs'
                   /\ length Xs' = length Xs + length indices.
Proof.
  induction indices as [|i rest IH]; intros self self' Xs HXs H; simpl in H.
  - inversion H; subst. split; [reflexivity|].
    exists Xs. split; [exact HXs|simpl; lia].
  - destruct (step_prepare inverse_entries self graphs i)
      as [[[gi prev]|e] s1] eqn:E1; [|discriminate H].
    destruct (step_prepare_decays _ _ _ _ _ _ _ E1) as [Heta HX1].
    pose proof (learn_embedding_frame gauss s1 gi (Some prev)) as F.
    destruct (learn_embedding gauss s1 gi (Some prev)) as [[r|e] s2];
      [|discriminate H].
    simpl in F.
    destruct F as [_ [Feta [_ [_ [_ [_ [_ [_ FXs]]]]]]]].
    assert (HX2 : _Xs s2 = Some Xs) by congruence.
    destruct (IH (append_Xs r s2) self' (Xs ++ [np_copy r])) as [Hd [Xs' [A B]]].
    + unfold append_Xs. rewrite HX2. reflexivity.
    + exact H.
    + split.
      * rewrite Hd. unfold append_Xs. rewrite HX2. simpl _eta.
        rewrite Feta, Heta. apply decayed_step.
      * exists Xs'. split; [exact A|].
        rewrite B, length_app. simpl. lia.
Qed.

Lemma decayed_power (eta : Q) (k : nat) :
  (decayed eta k == eta / inject_Z (10 ^ Z.of_nat k))%Q.
Proof.
  induction k as [|k IH].
  - unfold decayed. simpl. field.
  - change (decayed eta (S k)) with (decayed eta k / 10)%Q.
    rewrite IH, Nat2Z.inj_succ, Z.pow_succ_r by lia.
    rewrite inject_Z_mult.
    assert (H : ~ (inject_Z (10 ^ Z.of_nat k) == 0)%Q).
    { change 0%Q with (inject_Z 0). rewrite inject_Z_injective.
      apply Z.pow_nonzero; lia. }
    field. exact H.
Qed.

Lemma getitem_first_nonempty (A : Type) (l : list A) (x : A) :
  Py.getitem l 0 = Ok x -> 1 <= length l.
Proof.
  destruct l as [|y l]; [intros H; discriminate H|simpl; lia].
Qed.

(** The learning rate of a run that returns: a run of
    [learn_embeddings] over [L] snapshots that returns has produced
    [L] embeddings and has divided the learning rate by 10 once in each of the [L - 1] steps after the first, so that the
    final rate is [eta / 10 ^ (L - 1)]; no step restores it. *)
Theorem learning_rate_decays_once_per_step
    (inverse_entries : ndarray -> result (nat -> nat -> Q))
    (gauss : nat -> Q) (self self' : GraphFactorization)
    (graphs : list DiGraph) (prevStepInfo : bool) (Xs : list embedding) :
  learn_embeddings inverse_entries gauss self graphs prevStepInfo
    = (Ok Xs, self') ->
  length Xs = length graphs
  /\ _eta self' = decayed (_eta self) (length graphs - 1)
  /\ (_eta self'
      == _eta self / inject_Z (10 ^ Z.of_nat (length graphs - 1)))%Q.
Proof.
  intros H.
  assert (G : length Xs = length graphs
              /\ _eta self' = decayed (_eta self) (length graphs - 1)).
  { unfold learn_embeddings in H.
    destruct (Py.getitem graphs 0) as [g0|e] eqn:E0; [|discriminate H].
    apply getitem_first_nonempty in E0.
    set (s0 := set_kappas (KScalar (_kappa self)) self) in H.
    assert (F : exists r s1,
               (if prevStepInfo
                then match _initEmbed s0 with
                     | Some E => learn_embedding gauss s0 g0 (Some (Mat E))
                     | None => (Raise AttributeError, s0)
                     end
                else learn_embedding gauss s0 g0 None) = (r, s1)
               /\ _eta s1 = _eta self).
    { destruct prevStepInfo.
      - destruct (_initEmbed s0) as [E|].
        + pose proof (learn_embedding_frame gauss s0 g0 (Some (Mat E))) as F.
          destruct (learn_embedding gauss s0 g0 (Some (Mat E))) as [r s1].
          exists r, s1. split; [reflexivity|]. apply F.
        + eexists. eexists. split; reflexivity.
      - pose proof (learn_embedding_frame gauss s0 g0 None) as F.
        destruct (learn_embedding gauss s0 g0 None) as [r s1].
        exists r, s1. split; [reflexivity|]. apply F. }
    destruct F as [r [s1 [E1 Heta1]]]. rewrite E1 in H.
    destruct r as [r|e]; [|discriminate H].
    destruct (steps inverse_entries gauss (set_Xs [np_copy r] s1) graphs
                (seq 1 (length graphs - 1))) as [[[]|e] s2] eqn:E2;
      [|discriminate H].
    destruct (steps_decay inverse_entries gauss graphs
                (seq 1 (length graphs - 1)) (set_Xs [np_copy r] s1) s2
                [np_copy r] eq_refl E2) as [Hd [Xs' [HX HL]]].
    rewrite HX in H. inversion H; subst.
    rewrite length_seq in Hd, HL. simpl in HL, Hd.
    split; [lia|]. now rewrite Hd, Heta1. }
  destruct G as [G1 G2]. repeat split; [exact G1|exact G2|].
  rewrite G2. apply decayed_power.
Qed.

(** *** The weight of the smoothness term *)

Lemma edge_update_ext (s1 s2 : GraphFactorization) (A : ndarray)
    (prev : option ndarray) (X : ndarray) (i j : nat) :
  _regu s1 = _regu s2 -> _kappa s1 = _kappa s2 -> _eta s1 = _eta s2 ->
  _d s1 = _d s2 ->
  edge_update s1 A prev X i j = edge_update s2 A prev X i j.
Proof.
  intros Hr Hk He Hd. unfold edge_update. now rewrite Hr, Hk, He, Hd.
Qed.

Lemma edge_loop_ext (s1 s2 : GraphFactorization) (A : ndarray)
    (prev : option ndarray) (edgeList : list (nat * nat)) :
  _regu s1 = _regu s2 -> _kappa s1 = _kappa s2 -> _eta s1 = _eta s2 ->
  _d s1 = _d s2 ->
  forall (X : ndarray) (locals : option gradients),
    edge_loop s1 A prev edgeList X locals
      = edge_loop s2 A prev edgeList X locals.
Proof.
  intros Hr Hk He Hd.
  induction edgeList as [|[i j] rest IH]; intros X locals; simpl.
  - reflexivity.
  - rewrite (edge_update_ext s1 s2 A prev X i j Hr Hk He Hd).
    destruct (Nat.leb j i); [apply IH|].
    destruct (edge_update s2 A prev X i j) as [[X' g]|e];
      [apply IH|reflexivity].
Qed.

Lemma iter_loop_ext (s1 s2 : GraphFactorization) (A : ndarray)
    (prev : option ndarray) (edgeList : list (nat * nat))
    (iters : list nat) :
  _regu s1 = _regu s2 -> _kappa s1 = _kappa s2 -> _eta s1 = _eta s2 ->
  _d s1 = _d s2 ->
  forall (X : ndarray) (locals : option gradients) (out : list line),
    iter_loop s1 A prev edgeList iters X locals out
      = iter_loop s2 A prev edgeList iters X locals out.
Proof.
  intros Hr Hk He Hd.
  induction iters as [|iter_id rest IH]; intros X locals out;
    cbn [iter_loop].
  - reflexivity.
  - assert (O : objective_line s1 A X prev iter_id
                = objective_line s2 A X prev iter_id).
    { unfold objective_line, getFVal. now rewrite Hr, Hk. }
    rewrite O, (edge_loop_ext s1 s2 A prev edgeList Hr Hk He Hd).
    destruct (Nat.eqb (iter_id mod 100) 0).
    + destruct (bind (objective_line s2 A X prev iter_id) _) as [out'|e];
        [|reflexivity].
      destruct (edge_loop s2 A prev edgeList X locals) as [[locals'|e] X'];
        [|reflexivity].
      destruct (bind (del_values iter_id locals') _) as [out''|e];
        [apply IH|reflexivity].
    + destruct (edge_loop s2 A prev edgeList X locals) as [[locals'|e] X'];
        [apply IH|reflexivity].
Qed.

(** The smoothness term of an edge is the difference to the previous
    embedding times the global [self._kappa]. *)
Lemma smoothness_term (self : GraphFactorization) (A : ndarray)
    (P X X' : ndarray) (i j : nat) (g : gradients) :
  i < shape0 P ->
  edge_update self A (Some P) X i j = Ok (X', g) ->
  exists D : list Q,
    vzip2 Qminus (row X i) (row P i) = Ok D
    /\ delPhi3 g = vscale (_kappa self) D.
Proof.
  intros Hi. unfold edge_update.
  destruct (vdot (row X i) (row X j)) as [xx|e]; [|intros H; discriminate H].
  cbn [bind].
  destruct (Nat.ltb_spec i (shape0 P)) as [_|Hc]; [|lia].
  destruct (vzip2 Qminus (row X i) (row P i)) as [D|e];
    [|intros H; discriminate H].
  cbn [bind].
  destruct (vzip2 Qplus _ _) as [s|e]; [|intros H; discriminate H].
  cbn [bind].
  destruct (vzip2 Qplus s _) as [dp|e]; [|intros H; discriminate H].
  cbn [bind].
  destruct (isub_row _ _ _) as [X''|e]; [|intros H; discriminate H].
  cbn [bind]. intros H. inversion H; subst. simpl.
  exists D. split; reflexivity.
Qed.

Lemma initialize_kappas (gauss : nat -> Q) (self : GraphFactorization)
    (A : ndarray) (prevEmbed : option embedding) (ks : kappas) :
  initialize gauss (set_kappas ks self) A prevEmbed
    = (fst (initialize gauss self A prevEmbed),
       set_kappas ks (snd (initialize gauss self A prevEmbed))).
Proof.
  unfold initialize.
  destruct prevEmbed as [[|P]|]; [reflexivity| |reflexivity].
  cbn [random_state _d set_kappas set_node_num set_num_iter
         set_random_state set_X print set_stdout _n_iter _n_iter_sub].
  destruct (assign_rows _ _ _) as [X'|e]; reflexivity.
Qed.

Lemma optimize_kappas (self : GraphFactorization) (A : ndarray)
    (prev : option ndarray) (X : ndarray) (ks : kappas) :
  fst (optimize (set_kappas ks self) A prev X)
    = fst (optimize self A prev X).
Proof.
  unfold optimize. cbn [_num_iter set_kappas stdout].
  destruct (_num_iter self) as [k|]; [|reflexivity].
  rewrite (iter_loop_ext (set_kappas ks self) self) by reflexivity.
  destruct (iter_loop _ _ _ _ _ _ _ _) as [[[u|e] X'] out]; reflexivity.
Qed.

(** [learn_embedding] never reads [self._kappas]. *)
Lemma learn_embedding_ignores_kappas (gauss : nat -> Q)
    (self : GraphFactorization) (g : DiGraph)
    (prevEmbed : option embedding) (ks : kappas) :
  fst (learn_embedding gauss (set_kappas ks self) g prevEmbed)
    = fst (learn_embedding gauss self g prevEmbed).
Proof.
  unfold learn_embedding.
  destruct (allclose _ _) as [[|]|e]; [|reflexivity|reflexivity].
  rewrite initialize_kappas.
  destruct (initialize gauss self (transform_DiGraph_to_adj g) prevEmbed)
    as [[[X prev]|e] s1]; [|reflexivity].
  cbn [fst snd]. apply optimize_kappas.
Qed.

(** C1. The driver computes the penalty vector and stores it, but the
    factorization step does not use it.  Over twice the same two-node
    snapshot, with [kappa = 1.0], the vector stored for the second
    snapshot is [[100, 100]]; the embedding returned for that snapshot
    is the same whatever [self._kappas] holds, and it is not the one
    obtained when both nodes are weighted by 100, which the run with
    [self._kappa = 100] computes. *)
Theorem smoothness_weight_is_global_kappa :
  second_step = (Ok (pair_graph, first_embedding), second_step_state)
  /\ _kappa second_step_state = 1%Q
  /\ _kappas second_step_state = Some (KVector [100; 100]%Q)
  /\ (exists X1 : ndarray,
        fst (learn_embedding samples second_step_state pair_graph
               (Some first_embedding)) = Ok (Some X1)
        /\ fst (learn_embeddings gauss_jordan samples model two_snapshots
                  false)
           = Ok [first_embedding; Mat (copy X1)])
  /\ (forall ks : kappas,
        fst (learn_embedding samples (set_kappas ks second_step_state)
               pair_graph (Some first_embedding))
        = fst (learn_embedding samples second_step_state pair_graph
                 (Some first_embedding)))
  /\ match returned_entry
             (fst (learn_embedding samples second_step_state pair_graph
                     (Some first_embedding))) 0 0,
           returned_entry
             (fst (learn_embedding samples
                     (with_kappa 100 second_step_state) pair_graph
                     (Some first_embedding))) 0 0
     with
     | Some x, Some y => ~ (x == y)%Q
     | _, _ => False
     end.
Proof.
  split; [vm_compute; reflexivity|].
  split; [vm_compute; reflexivity|].
  split; [vm_compute; reflexivity|].
  split.
  { eexists. split; vm_compute; reflexivity. }
  split.
  { intros ks. apply learn_embedding_ignores_kappas. }
  vm_compute. intros H. discriminate H.
Qed.

(** *** The properties above on concrete runs *)

Lemma pair_graph_symmetric : symmetric_within_tolerance pair_graph.
Proof.
  intros i j Hi Hj. simpl in Hi, Hj.
  destruct i as [|[|i]]; destruct j as [|[|j]]; try lia; reflexivity.
Qed.

Lemma edgeless_symmetric : symmetric_within_tolerance edgeless.
Proof.
  intros i j Hi Hj. reflexivity.
Qed.

Lemma edgeless_no_upper_edge : no_upper_edge edgeless.
Proof.
  intros i j Hij Hj. reflexivity.
Qed.

Lemma learn_embedding_unbound_without_upper_edge_witness :
  fst (learn_embedding samples model edgeless None)
    = Raise UnboundLocalError.
Proof.
  apply learn_embedding_unbound_without_upper_edge.
  - exact edgeless_symmetric.
  - exact edgeless_no_upper_edge.
  - exact I.
  - simpl. lia.
Defined.

(** Self-loops alone do not help: they are skipped by [i >= j]. *)
Lemma self_loops_unbound :
  fst (learn_embedding samples model self_loops None)
    = Raise UnboundLocalError.
Proof.
  vm_compute. reflexivity.
Qed.

Lemma warm_start_copies_previous_embedding_witness :
  exists X0 : ndarray,
    fst (initialize samples model (transform_DiGraph_to_adj pair_graph)
           (Some (Mat one_row)))
      = Ok (X0, Some one_row)
    /\ get X0 0 0 = get one_row 0 0
    /\ get X0 1 0 = ((1 # 100) * samples 1)%Q.
Proof.
  destruct (warm_start_copies_previous_embedding samples model pair_graph
              one_row pair_graph_symmetric)
    as [X0 [self0 [Hinit [_ [_ [Hcopy [Hrand _]]]]]]].
  - simpl. lia.
  - reflexivity.
  - exists X0. split; [now rewrite Hinit|]. split.
    + apply Hcopy; simpl; lia.
    + apply (Hrand 1 0); simpl; lia.
Defined.

Lemma learning_rate_decays_once_per_step_witness :
  exists (Xs : list embedding) (self' : GraphFactorization),
    learn_embeddings gauss_jordan samples short_model three_snapshots false
      = (Ok Xs, self')
    /\ length Xs = 3
    /\ _eta self' = decayed (1 # 10) 2
    /\ (_eta self' == (1 # 10) / inject_Z (10 ^ 2))%Q.
Proof.
  destruct (learn_embeddings gauss_jordan samples short_model
              three_snapshots false) as [[Xs|e] self'] eqn:E.
  - exists Xs, self'. split; [reflexivity|].
    exact (learning_rate_decays_once_per_step gauss_jordan samples
             short_model self' three_snapshots false Xs E).
  - vm_compute in E. discriminate E.
Defined.

Lemma driver_penalty_vector_witness :
  exists (G : nat -> nat -> Q) (ks : list Q),
    gauss_jordan (M_g triangle3 star3 3) = Ok G
    /\ _kappas (snd (step_prepare gauss_jordan model [star3; triangle3] 1))
       = Some (KVector ks)
    /\ length ks = 3
    /\ forall i, i < 3 ->
         nth i ks 0%Q = (_kappa model / row_sum triangle3 star3 3 G i)%Q.
Proof.
  destruct (gauss_jordan (M_g triangle3 star3 3)) as [G|e] eqn:E.
  - destruct (driver_penalty_vector gauss_jordan model [star3; triangle3] 1
                triangle3 star3 3 G (le_n 1) eq_refl eq_refl eq_refl eq_refl
                E) as [ks H].
    exists G, ks. split; [reflexivity|exact H].
  - vm_compute in E. discriminate E.
Defined.

(** On that input the penalties are 100 for the node whose row of
    [DeltaA] is zero and 99 for the two others. *)
Lemma penalties_of_a_new_edge :
  match step_kappas gauss_jordan model triangle3 star3 with
  | Ok [k0; k1; k2] => (k0 == 100 /\ k1 == 99 /\ k2 == 99)%Q
  | _ => False
  end.
Proof.
  vm_compute. repeat split.
Qed.

End GraphFacFacts.

(** * Further properties of the ranking metrics *)

From Stdlib Require Import Permutation Sorting.Sorted.

Module MetricsRestFacts.

Import Metrics MetricsSpec MetricsExamples MetricsRest MetricsRestSpec
  MetricsFacts.
Local Open Scope nat_scope.

(** *** The sort *)

Lemma insert_desc_perm (x : edge) (l : list edge) :
  Permutation (insert_desc x l) (x :: l).
Proof.
  induction l as [|y l IH]; simpl; [apply Permutation_refl|].
  destruct (Qlt_bool (score x) (score y)).
  - apply perm_trans with (y :: x :: l).
    + now apply perm_skip.
    + apply perm_swap.
  - apply Permutation_refl.
Qed.

Lemma Qlt_bool_true (x y : Q) : Qlt_bool x y = true -> (x <= y)%Q.
Proof.
  unfold Qlt_bool. intros H. apply negb_true_iff in H.
  destruct (Qlt_le_dec x y) as [Hlt|Hle].
  - now apply Qlt_le_weak.
  - apply Qle_bool_iff in Hle. congruence.
Qed.

Lemma Qlt_bool_false (x y : Q) : Qlt_bool x y = false -> (y <= x)%Q.
Proof.
  unfold Qlt_bool. intros H. apply negb_false_iff in H.
  now apply Qle_bool_iff.
Qed.

Lemma insert_desc_sorted (x : edge) (l : list edge) :
  StronglySorted ranked_before l ->
  StronglySorted ranked_before (insert_desc x l).
Proof.
  induction l as [|y l IH]; intros H; simpl.
  - constructor; constructor.
  - inversion H as [|? ? Hl Hy]; subst.
    destruct (Qlt_bool (score x) (score y)) eqn:E.
    + constructor; [now apply IH|].
      apply (Permutation_Forall (Permutation_sym (insert_desc_perm x l))).
      constructor; [|exact Hy].
      unfold ranked_before. now apply Qlt_bool_true.
    + constructor; [exact H|].
      apply Qlt_bool_false in E.
      constructor; [exact E|].
      apply Forall_impl with (P := ranked_before y); [|exact Hy].
      intros z Hz. unfold ranked_before in *.
      now apply Qle_trans with (score y).
Qed.

Lemma insert_desc_stable (q : Q) (x : edge) (l : list edge) :
  filter (fun e => Qeq_bool (score e) q) (insert_desc x l)
    = filter (fun e => Qeq_bool (score e) q) (x :: l).
Proof.
  induction l as [|y l IH]; simpl; [reflexivity|].
  destruct (Qlt_bool (score x) (score y)) eqn:E; [|reflexivity].
  simpl. rewrite IH. simpl.
  destruct (Qeq_bool (score x) q) eqn:Ex;
    destruct (Qeq_bool (score y) q) eqn:Ey; try reflexivity.
  exfalso.
  apply Qeq_bool_iff in Ex. apply Qeq_bool_iff in Ey.
  unfold Qlt_bool in E. apply negb_true_iff in E.
  assert (H : (score y <= score x)%Q) by (rewrite Ex, Ey; apply Qle_refl).
  apply Qle_bool_iff in H. congruence.
Qed.

(** X1. The sort that ranks the predictions rearranges them, puts
    them in descending order of score, and keeps entries of equal
    score in the order they had. *)
Theorem sorted_desc_stable_descending (pred : list edge) :
  Permutation (sorted_desc pred) pred
  /\ StronglySorted ranked_before (sorted_desc pred)
  /\ forall q : Q,
       filter (fun e => Qeq_bool (score e) q) (sorted_desc pred)
         = filter (fun e => Qeq_bool (score e) q) pred.
Proof.
  induction pred as [|x l [IHp [IHs IHq]]]; simpl.
  - repeat split; constructor.
  - split; [|split].
    + apply perm_trans with (x :: sorted_desc l).
      * apply insert_desc_perm.
      * now apply perm_skip.
    + now apply insert_desc_sorted.
    + intros q. rewrite insert_desc_stable. simpl. now rewrite IHq.
Qed.

(** *** The precision curve *)

Lemma score_predictions_spec (g : DiGraph) (es : list edge) :
  forall (i : nat) (a : acc),
    let a' := score_predictions g es i a in
    delta_factors a'
      = delta_factors a
          ++ map (fun e => indicator (has_edge g (src e) (dst e))) es
    /\ precision_scores a'
      = precision_scores a
          ++ map (fun jj =>
                    ratio (correct_edge a + hits g (firstn (S jj) es))
                          (i + jj + 1))
                 (seq 0 (length es)).
Proof.
  induction es as [|e es IH]; intros i a; simpl.
  - now rewrite !app_nil_r.
  - specialize (IH (S i) (record_rank (has_edge g (src e) (dst e)) (i + 1) a)).
    simpl in IH. destruct IH as [Hd Hp]. rewrite Hd, Hp. clear Hd Hp.
    unfold record_rank; simpl.
    rewrite <- !app_assoc. simpl.
    rewrite <- seq_shift, map_map.
    unfold hits, indicator; simpl.
    destruct (has_edge g (src e) (dst e)); simpl.
    + split; [reflexivity|].
      f_equal. f_equal.
      * f_equal; lia.
      * apply map_ext. intros jj. f_equal; lia.
    + split; [reflexivity|].
      f_equal. f_equal.
      * f_equal; lia.
      * apply map_ext. intros jj. f_equal; lia.
Qed.

Lemma top_ranked_length (pred : list edge) (max_k : Z) :
  length (top_ranked pred max_k)
    = Z.to_nat (clip_k max_k (length pred)).
Proof.
  unfold top_ranked. rewrite length_firstn, sorted_desc_length.
  unfold clip_k. destruct (Z.eqb_spec max_k (-1)); lia.
Qed.

(** X2. [computePrecisionCurve] scores [min(max_k, len(predictions))]
    entries, all of them for [max_k = -1] and none for another negative
    [max_k]; the two lists it returns have that same length. *)
Theorem computePrecisionCurve_length (pred : list edge) (g : DiGraph)
    (max_k : Z) :
  let scored :=
    if (max_k =? -1)%Z then length pred
    else Nat.min (Z.to_nat max_k) (length pred) in
  length (fst (computePrecisionCurve pred g max_k)) = scored
  /\ length (snd (computePrecisionCurve pred g max_k)) = scored.
Proof.
  cbv zeta. unfold computePrecisionCurve. cbv zeta. unfold fst, snd.
  destruct (score_predictions_length g
              (firstn (Z.to_nat (clip_k max_k (length pred)))
                 (sorted_desc pred)) 0 acc0) as [H1 H2].
  rewrite H1, H2. simpl.
  change (firstn (Z.to_nat (clip_k max_k (length pred))) (sorted_desc pred))
    with (top_ranked pred max_k).
  rewrite top_ranked_length. unfold clip_k.
  destruct (Z.eqb_spec max_k (-1)); split; lia.
Qed.

Lemma hits_le_length (g : DiGraph) (l : list edge) : hits g l <= length l.
Proof.
  unfold hits. apply filter_length_le.
Qed.

Lemma ratio_bounds (c k : nat) :
  c <= k -> 1 <= k -> (0 <= ratio c k /\ ratio c k <= 1)%Q.
Proof.
  intros Hc Hk. unfold ratio.
  assert (Hpos : (0 < inject_Z (Z.of_nat k))%Q).
  { change 0%Q with (inject_Z 0). rewrite <- Zlt_Qlt. lia. }
  split.
  - apply Qle_shift_div_l; [exact Hpos|].
    rewrite Qmult_0_l. change 0%Q with (inject_Z 0).
    rewrite <- Zle_Qle. lia.
  - apply Qle_shift_div_r; [exact Hpos|].
    rewrite Qmult_1_l. rewrite <- Zle_Qle. lia.
Qed.

Lemma precision_curve_spec (pred : list edge) (g : DiGraph)
    (max_k : Z) :
  let top := top_ranked pred max_k in
  computePrecisionCurve pred g max_k
    = (map (fun i => ratio (hits g (firstn (S i) top)) (S i))
           (seq 0 (length top)),
       map (fun e => indicator (has_edge g (src e) (dst e))) top)
  /\ Forall (fun p => 0 <= p /\ p <= 1)%Q
            (fst (computePrecisionCurve pred g max_k)).
Proof.
  cbv zeta.
  assert (E : computePrecisionCurve pred g max_k
              = (map (fun i =>
                        ratio (hits g (firstn (S i) (top_ranked pred max_k)))
                              (S i))
                     (seq 0 (length (top_ranked pred max_k))),
                 map (fun e => indicator (has_edge g (src e) (dst e)))
                     (top_ranked pred max_k))).
  { unfold computePrecisionCurve. cbv zeta.
    change (firstn (Z.to_nat (clip_k max_k (length pred))) (sorted_desc pred))
      with (top_ranked pred max_k).
    destruct (score_predictions_spec g (top_ranked pred max_k) 0 acc0)
      as [Hd Hp].
    cbv zeta in Hd, Hp. rewrite Hd, Hp. simpl. f_equal.
    apply map_ext. intros i. f_equal. lia. }
  split; [exact E|].
  rewrite E. unfold fst.
  apply Forall_forall. intros p Hp.
  apply in_map_iff in Hp. destruct Hp as [i [Hi Hin]]. subst p.
  apply ratio_bounds; [|lia].
  eapply Nat.le_trans; [apply hits_le_length|].
  rewrite length_firstn. lia.
Qed.

(** X3. Entry [i] of the precision curve is the number of ground-truth
    edges among the [i + 1] best-ranked predictions divided by [i + 1],
    its indicator tells whether prediction [i] of the ranking is an edge
    of the ground truth, and every precision lies between 0 and 1. *)
Theorem computePrecisionCurve_formula (pred : list edge) (g : DiGraph)
    (max_k : Z) :
  let top := top_ranked pred max_k in
  computePrecisionCurve pred g max_k
    = (map (fun i => ratio (hits g (firstn (S i) top)) (S i))
           (seq 0 (length top)),
       map (fun e => indicator (has_edge g (src e) (dst e))) top)
  /\ Forall (fun p => 0 <= p /\ p <= 1)%Q
            (fst (computePrecisionCurve pred g max_k)).
Proof.
  exact (precision_curve_spec pred g max_k).
Qed.

(** *** The partition by source node and the mean *)

Lemma combine_seq_nth (A : Type) (d : A) (l : list A) :
  forall a : nat,
    combine (seq a (length l)) l
      = map (fun i => (i, nth (i - a) l d)) (seq a (length l)).
Proof.
  induction l as [|x l IH]; intros a; simpl; [reflexivity|].
  rewrite Nat.sub_diag. f_equal.
  rewrite IH. apply map_ext_in. intros i Hi. apply in_seq in Hi.
  replace (i - a) with (S (i - S a)) by lia. reflexivity.
Qed.

Lemma list_as_map_nth (A : Type) (d : A) (l : list A) :
  l = map (fun i => nth i l d) (seq 0 (length l)).
Proof.
  induction l as [|x l IH]; simpl; [reflexivity|].
  f_equal. rewrite <- seq_shift, map_map. exact IH.
Qed.

Lemma bucket_append_spec (node_edges : list (list edge)) (e : edge) :
  let n := length node_edges in
  source_in_range n e ->
  bucket_append node_edges e
    = Ok (map (fun i =>
                 nth i node_edges []
                   ++ (if (bucket_of n e =? Z.of_nat i)%Z then [e] else []))
              (seq 0 n)).
Proof.
  cbv zeta. unfold source_in_range, bucket_append, bucket_of. intros H.
  set (k := (if (src e <? 0)%Z
             then (src e + Z.of_nat (length node_edges))%Z else src e)).
  assert (Hk : (0 <= k < Z.of_nat (length node_edges))%Z).
  { unfold k. destruct (Z.ltb_spec (src e) 0); lia. }
  destruct (Z.ltb_spec k 0); [lia|].
  destruct (Z.leb_spec (Z.of_nat (length node_edges)) k); [lia|].
  simpl. f_equal.
  rewrite (combine_seq_nth _ [] node_edges 0), map_map.
  apply map_ext_in. intros i Hi. simpl. rewrite Nat.sub_0_r.
  destruct (Nat.eqb_spec i (Z.to_nat k)); destruct (Z.eqb_spec k (Z.of_nat i));
    try lia; [reflexivity|now rewrite app_nil_r].
Qed.

Lemma partition_by_source_spec (l : list edge) :
  forall node_edges : list (list edge),
    let n := length node_edges in
    Forall (source_in_range n) l ->
    partition_by_source node_edges l
      = Ok (map (fun i => nth i node_edges [] ++ predictions_of n l i)
                (seq 0 n)).
Proof.
  induction l as [|e l IH]; intros node_edges; cbv zeta; intros H; simpl.
  - f_equal. unfold predictions_of. simpl.
    rewrite (list_as_map_nth _ [] node_edges) at 1.
    apply map_ext. intros i. now rewrite app_nil_r.
  - inversion H as [|? ? He Hl]; subst.
    rewrite (bucket_append_spec node_edges e He). simpl.
    set (ne := map _ (seq 0 (length node_edges))).
    assert (Hlen : length ne = length node_edges).
    { unfold ne. now rewrite length_map, length_seq. }
    specialize (IH ne). cbv zeta in IH. rewrite Hlen in IH.
    rewrite (IH Hl). f_equal.
    apply map_ext_in. intros i Hi. apply in_seq in Hi.
    unfold ne. rewrite NpFacts.nth_map_seq by lia.
    rewrite <- app_assoc. f_equal.
    unfold predictions_of. simpl.
    destruct (Z.eqb_spec (bucket_of (length node_edges) e) (Z.of_nat i));
      reflexivity.
Qed.

Lemma setitem_middle (A : Type) (l1 l2 : list A) (x y : A) :
  setitem (l1 ++ x :: l2) (length l1) y = l1 ++ y :: l2.
Proof.
  unfold setitem. induction l1 as [|z l1 IH]; simpl; [reflexivity|].
  f_equal. exact IH.
Qed.

Lemma node_loop_spec (g : DiGraph) (max_k : Z)
    (node_edges : list (list edge)) (f : nat -> Q) :
  (forall i, f i = if counted g i
                   then average_precision (nth i node_edges []) g max_k
                   else 0%Q) ->
  forall (m a count : nat),
    node_loop g max_k node_edges (seq a m)
      (map f (seq 0 a) ++ repeat 0%Q m) count
    = (map f (seq 0 (a + m)),
       count + length (filter (counted g) (seq a m))).
Proof.
  intros Hf. induction m as [|m IH]; intros a count; simpl.
  - rewrite app_nil_r, !Nat.add_0_r. reflexivity.
  - assert (E : map f (seq 0 a) ++ f a :: repeat 0%Q m
                = map f (seq 0 (S a)) ++ repeat 0%Q m).
    { rewrite seq_S, map_app, <- app_assoc. reflexivity. }
    pose proof (Hf a) as Ha. unfold counted in Ha.
    assert (C : counted g a = negb (out_degree g (Z.of_nat a) =? 0)%Z)
      by reflexivity.
    destruct (out_degree g (Z.of_nat a) =? 0)%Z; simpl in Ha, C; rewrite C.
    + replace (map f (seq 0 a) ++ 0%Q :: repeat 0%Q m)
        with (map f (seq 0 (S a)) ++ repeat 0%Q m)
        by (rewrite <- E, Ha; reflexivity).
      rewrite IH. now rewrite Nat.add_succ_r.
    + pose proof (setitem_middle _ (map f (seq 0 a)) (repeat 0%Q m) 0%Q
                    (f a)) as T.
      rewrite length_map, length_seq in T.
      rewrite <- Ha, T, E, IH. simpl.
      rewrite Nat.add_succ_r. f_equal. lia.
Qed.

Lemma computeMAP_mean (pred : list edge)
    (g : DiGraph) (max_k : Z) :
  Forall (source_in_range (number_of_nodes g)) pred ->
  computeMAP pred g max_k
    = if Nat.eqb (counted_nodes g) 0 then Raise ZeroDivisionError
      else Ok (Py.sum (map (node_average pred g max_k)
                           (seq 0 (number_of_nodes g)))
               / inject_Z (Z.of_nat (counted_nodes g)))%Q.
Proof.
  intros H. unfold computeMAP.
  pose proof (partition_by_source_spec pred (repeat [] (number_of_nodes g)))
    as P.
  cbv zeta in P. rewrite repeat_length in P. rewrite (P H). clear P.
  cbn [bind].
  set (ne := map _ (seq 0 (number_of_nodes g))).
  assert (Hf : forall i,
             node_average pred g max_k i
             = if counted g i
               then average_precision (nth i ne []) g max_k else 0%Q).
  2:{ pose proof (node_loop_spec g max_k ne (node_average pred g max_k) Hf
                    (number_of_nodes g) 0 0) as L.
      cbn [seq map app Nat.add] in L. rewrite L. reflexivity. }
  intros i. unfold node_average.
  destruct (counted g i) eqn:E; [|reflexivity].
  destruct (Nat.lt_ge_cases i (number_of_nodes g)) as [Hi|Hi].
  - unfold ne. rewrite NpFacts.nth_map_seq by exact Hi.
    rewrite nth_repeat. reflexivity.
  - unfold ne. rewrite nth_overflow
      by (now rewrite length_map, length_seq).
    f_equal. unfold predictions_of.
    induction H as [|e l He Hl IHl]; simpl; [reflexivity|].
    rewrite IHl.
    destruct (Z.eqb_spec (bucket_of (number_of_nodes g) e) (Z.of_nat i))
      as [Hb|]; [|reflexivity].
    exfalso. unfold source_in_range, bucket_of in *.
    destruct (Z.ltb_spec (src e) 0); lia.
Qed.

(** X4. For predictions whose sources are valid node indices,
    [computeMAP] is the mean, over the nodes of non-zero out-degree, of
    the average precision of the predictions filed under each node, a
    source [-k] being filed under node [N - k]; it raises
    [ZeroDivisionError] when no node has an out-edge. *)
Theorem computeMAP_is_mean_over_counted_nodes (pred : list edge)
    (g : DiGraph) (max_k : Z) :
  Forall (source_in_range (number_of_nodes g)) pred ->
  computeMAP pred g max_k
    = if Nat.eqb (counted_nodes g) 0 then Raise ZeroDivisionError
      else Ok (Py.sum (map (node_average pred g max_k)
                           (seq 0 (number_of_nodes g)))
               / inject_Z (Z.of_nat (counted_nodes g)))%Q.
Proof.
  exact (computeMAP_mean pred g max_k).
Qed.

Lemma computeMAP_is_mean_over_counted_nodes_witness :
  computeMAP two_predictions path3 (-1)
    = Ok (Py.sum (map (node_average two_predictions path3 (-1)) (seq 0 3))
          / inject_Z 2)%Q.
Proof.
  apply (computeMAP_is_mean_over_counted_nodes two_predictions path3 (-1)).
  unfold two_predictions, source_in_range.
  repeat (apply Forall_cons; [unfold src; simpl; lia|]). apply Forall_nil.
Defined.

Lemma bucket_append_out_of_range (node_edges : list (list edge)) (e : edge) :
  ~ source_in_range (length node_edges) e ->
  bucket_append node_edges e = Raise IndexError.
Proof.
  unfold source_in_range, bucket_append. intros H.
  destruct (Z.ltb_spec (src e) 0).
  - destruct (Z.ltb_spec (src e + Z.of_nat (length node_edges)) 0);
      [reflexivity|lia].
  - destruct (Z.ltb_spec (src e) 0); [lia|].
    destruct (Z.leb_spec (Z.of_nat (length node_edges)) (src e));
      [reflexivity|lia].
Qed.

Lemma partition_by_source_out_of_range (l : list edge) :
  forall node_edges : list (list edge),
    Exists (fun e => ~ source_in_range (length node_edges) e) l ->
    partition_by_source node_edges l = Raise IndexError.
Proof.
  induction l as [|e l IH]; intros node_edges H; simpl.
  - inversion H.
  - assert (D : source_in_range (length node_edges) e
                \/ ~ source_in_range (length node_edges) e)
      by (unfold source_in_range; lia).
    destruct D as [Hin|Hout].
    + destruct (bucket_append_ok node_edges e Hin) as [ne [E L]].
      rewrite E. simpl. apply IH. rewrite L.
      inversion H as [? ? Hh|? ? Ht]; subst; [contradiction|exact Ht].
    + now rewrite (bucket_append_out_of_range node_edges e Hout).
Qed.

Lemma computeMAP_index_error (pred : list edge) (g : DiGraph)
    (max_k : Z) :
  Exists (fun e => ~ source_in_range (number_of_nodes g) e) pred ->
  computeMAP pred g max_k = Raise IndexError.
Proof.
  intros H. unfold computeMAP.
  rewrite partition_by_source_out_of_range; [reflexivity|].
  now rewrite repeat_length.
Qed.

(** X5. A prediction whose source is not an index of the node list,
    below [-N] or at least [N], makes [computeMAP] raise [IndexError],
    whatever the ground truth and the other predictions are. *)
Theorem computeMAP_source_out_of_range (pred : list edge) (g : DiGraph)
    (max_k : Z) :
  Exists (fun e => ~ source_in_range (number_of_nodes g) e) pred ->
  computeMAP pred g max_k = Raise IndexError.
Proof.
  exact (computeMAP_index_error pred g max_k).
Qed.

Lemma computeMAP_source_out_of_range_witness :
  computeMAP [(0, 1, 1 # 2); (3, 0, 1 # 2)]%Z path3 (-1) = Raise IndexError.
Proof.
  apply computeMAP_source_out_of_range.
  apply Exists_cons_tl. apply Exists_cons_hd.
  unfold source_in_range, src. simpl. lia.
Defined.

(** *** Bounds *)

Lemma sum_from (l : list Q) :
  forall a : Q, (fold_left Qplus l a == a + Py.sum l)%Q.
Proof.
  unfold Py.sum. induction l as [|x l IH]; intros a; simpl.
  - ring.
  - rewrite (IH (a + x)%Q), (IH (0 + x)%Q). ring.
Qed.

Lemma sum_cons (x : Q) (l : list Q) :
  (Py.sum (x :: l) == x + Py.sum l)%Q.
Proof.
  unfold Py.sum at 1. simpl. rewrite sum_from. ring.
Qed.

Lemma sum_nonneg (l : list Q) :
  Forall (fun x => 0 <= x)%Q l -> (0 <= Py.sum l)%Q.
Proof.
  induction 1 as [|x l Hx Hl IH].
  - apply Qle_refl.
  - rewrite sum_cons.
    change 0%Q with (0 + 0)%Q at 1. now apply Qplus_le_compat.
Qed.

Lemma rectified_le (ps : list Q) :
  forall ds : list Q,
    Forall (fun p => 0 <= p /\ p <= 1)%Q ps ->
    Forall (fun d => d = 0%Q \/ d = 1%Q) ds ->
    (0 <= Py.sum (map (fun pd : Q * Q => fst pd * snd pd) (combine ps ds))
     /\ Py.sum (map (fun pd : Q * Q => fst pd * snd pd) (combine ps ds))
        <= Py.sum ds)%Q.
Proof.
  assert (N : forall ds, Forall (fun d => d = 0%Q \/ d = 1%Q) ds ->
                         (0 <= Py.sum ds)%Q).
  { intros ds H. apply sum_nonneg.
    apply Forall_impl with (2 := H). intros d [E|E]; subst d; discriminate. }
  induction ps as [|p ps IH]; intros ds Hp Hd.
  - simpl. split; [apply Qle_refl|now apply N].
  - destruct ds as [|d ds].
    + simpl. split; apply Qle_refl.
    + inversion Hp as [|? ? [P0 P1] Hp']; subst.
      inversion Hd as [|? ? D Hd']; subst.
      destruct (IH ds Hp' Hd') as [L U].
      cbn [combine map fst snd]. rewrite !sum_cons.
      destruct D as [D|D]; subst d.
      * rewrite Qmult_0_r, !Qplus_0_l. split; assumption.
      * rewrite Qmult_1_r. split.
        -- change 0%Q with (0 + 0)%Q at 1. now apply Qplus_le_compat.
        -- now apply Qplus_le_compat.
Qed.

Lemma indicator_values (l : list edge) (g : DiGraph) :
  Forall (fun d => d = 0%Q \/ d = 1%Q)
         (map (fun e => indicator (has_edge g (src e) (dst e))) l).
Proof.
  apply Forall_forall. intros d Hd.
  apply in_map_iff in Hd. destruct Hd as [e [E _]]. subst d.
  unfold indicator. destruct (has_edge g (src e) (dst e)); auto.
Qed.

Lemma average_precision_bounds (l : list edge) (g : DiGraph) (max_k : Z) :
  (0 <= average_precision l g max_k /\ average_precision l g max_k <= 1)%Q.
Proof.
  unfold average_precision.
  destruct (precision_curve_spec l g max_k) as [E B].
  cbv zeta in E. rewrite E in B |- *. unfold fst in B.
  set (ps := map _ (seq 0 _)) in *.
  set (ds := map _ (top_ranked l max_k)).
  destruct (rectified_le ps ds B (indicator_values _ g)) as [L U].
  destruct (Qeq_bool (Py.sum ds) 0) eqn:Z.
  - split; [apply Qle_refl|discriminate].
  - assert (Hpos : (0 < Py.sum ds)%Q).
    { apply Qle_lteq in L.
      assert (N : (0 <= Py.sum ds)%Q).
      { apply sum_nonneg. apply Forall_impl with (2 := indicator_values _ g).
        intros d [D|D]; subst d; discriminate. }
      apply Qle_lteq in N. destruct N as [N|N]; [exact N|].
      symmetry in N. apply Qeq_bool_iff in N. congruence. }
    split.
    + apply Qle_shift_div_l; [exact Hpos|]. now rewrite Qmult_0_l.
    + apply Qle_shift_div_r; [exact Hpos|]. now rewrite Qmult_1_l.
Qed.

Lemma node_averages_le_count (f : nat -> Q) (c : nat -> bool) (l : list nat) :
  (forall i, 0 <= f i /\ f i <= (if c i then 1 else 0))%Q ->
  (0 <= Py.sum (map f l)
   /\ Py.sum (map f l) <= inject_Z (Z.of_nat (length (filter c l))))%Q.
Proof.
  intros H. induction l as [|i l [L U]]; simpl.
  - split; apply Qle_refl.
  - rewrite sum_cons. destruct (H i) as [F0 F1]. split.
    + change 0%Q with (0 + 0)%Q at 1. now apply Qplus_le_compat.
    + destruct (c i); simpl length.
      * rewrite Nat2Z.inj_succ, <- Z.add_1_l, inject_Z_plus.
        now apply Qplus_le_compat.
      * rewrite <- (Qplus_0_l (inject_Z _)). now apply Qplus_le_compat.
Qed.

(** X6. Whenever [computeMAP] returns, its value lies between 0 and
    1. *)
Theorem computeMAP_bounds (pred : list edge) (g : DiGraph) (max_k : Z)
    (m : Q) :
  computeMAP pred g max_k = Ok m -> (0 <= m /\ m <= 1)%Q.
Proof.
  intros H.
  destruct (Forall_Exists_dec (source_in_range (number_of_nodes g))
              (fun e => ltac:(unfold source_in_range;
                              destruct (Z_le_dec (- Z.of_nat (number_of_nodes g)) (src e));
                              destruct (Z_lt_dec (src e) (Z.of_nat (number_of_nodes g)));
                              [left; lia|right; lia|right; lia|right; lia]))
              pred) as [Hin|Hout].
  - rewrite (computeMAP_mean pred g max_k Hin) in H.
    destruct (Nat.eqb_spec (counted_nodes g) 0) as [|Hc]; [discriminate H|].
    inversion H; subst m. clear H.
    destruct (node_averages_le_count (node_average pred g max_k) (counted g)
                (seq 0 (number_of_nodes g))) as [L U].
    { intros i. unfold node_average. destruct (counted g i).
      - apply average_precision_bounds.
      - split; apply Qle_refl. }
    fold (counted_nodes g) in U.
    assert (Hpos : (0 < inject_Z (Z.of_nat (counted_nodes g)))%Q).
    { change 0%Q with (inject_Z 0). rewrite <- Zlt_Qlt. lia. }
    split.
    + apply Qle_shift_div_l; [exact Hpos|]. now rewrite Qmult_0_l.
    + apply Qle_shift_div_r; [exact Hpos|]. now rewrite Qmult_1_l.
  - rewrite (computeMAP_index_error pred g max_k Hout) in H.
    discriminate H.
Qed.

Lemma computeMAP_bounds_witness :
  exists m : Q,
    computeMAP two_predictions path3 (-1) = Ok m /\ (0 <= m /\ m <= 1)%Q.
Proof.
  destruct (computeMAP two_predictions path3 (-1)) as [m|e] eqn:E.
  - exists m. split; [reflexivity|].
    exact (computeMAP_bounds two_predictions path3 (-1) m E).
  - vm_compute in E. discriminate E.
Defined.

(** *** Removed edges *)

Lemma checkedges_list_inner (k : edge) (es : list (Z * Z)) :
  forall val : bool,
    fold_left (fun (val : bool) (ee : Z * Z) =>
                 if same_pair k (fst ee) (snd ee) then true else val) es val
      = val || existsb (fun ee => same_pair k (fst ee) (snd ee)) es.
Proof.
  induction es as [|ee es IH]; intros val; simpl.
  - now rewrite orb_false_r.
  - rewrite IH. destruct (same_pair k (fst ee) (snd ee)), val; reflexivity.
Qed.

Lemma checkedges_list_from (es : list (Z * Z)) (l : list edge) :
  forall val : bool,
    fold_left
      (fun (val : bool) (k : edge) =>
         fold_left (fun (val : bool) (ee : Z * Z) =>
                      if same_pair k (fst ee) (snd ee) then true else val)
                   es val) l val
      = val || existsb (fun k =>
                          existsb (fun ee => same_pair k (fst ee) (snd ee)) es)
                       l.
Proof.
  induction l as [|k l IH]; intros val; simpl.
  - now rewrite orb_false_r.
  - rewrite IH, checkedges_list_inner. now rewrite orb_assoc.
Qed.

Lemma same_pair_iff (k : edge) (s t : Z) :
  same_pair k s t = true <-> src k = s /\ dst k = t.
Proof.
  unfold same_pair. rewrite andb_true_iff, !Z.eqb_eq. tauto.
Qed.

(** X7. [checkedges] answers [True] exactly when some entry of the
    predicted list has the (source, target) pair of the given edge, or
    of one of the given edges when a list of edges is passed instead of a
    tuple; on an empty predicted list it answers [False]. *)
Theorem checkedges_iff (edge_list : list edge) (e : removed) :
  (checkedges edge_list e = true
   <-> exists k, In k edge_list
                 /\ match e with
                    | RTuple s t => src k = s /\ dst k = t
                    | RList es =>
                        exists ee, In ee es
                                   /\ src k = fst ee /\ dst k = snd ee
                    end)
  /\ checkedges [] e = false.
Proof.
  split; [|reflexivity].
  unfold checkedges. destruct e as [s t|es].
  - rewrite checkedges_tuple_from. simpl. rewrite existsb_exists.
    split; intros [k [Hin H]]; exists k; split; auto;
      now apply same_pair_iff.
  - rewrite checkedges_list_from. simpl. rewrite existsb_exists.
    split.
    + intros [k [Hin H]]. exists k. split; [exact Hin|].
      apply existsb_exists in H. destruct H as [ee [He H]].
      exists ee. split; [exact He|]. now apply same_pair_iff.
    + intros [k [Hin [ee [He H]]]]. exists k. split; [exact Hin|].
      apply existsb_exists. exists ee. split; [exact He|].
      now apply same_pair_iff.
Qed.

Lemma changed_curve_without_removed (pred : list edge) (g : DiGraph)
    (max_k : Z) :
  computePrecisionCurve_changed pred g [] max_k
    = computePrecisionCurve pred g (-1).
Proof.
  rewrite computePrecisionCurve_all. reflexivity.
Qed.

(** X8. With an empty list of removed edges,
    [computePrecisionCurve_changed] returns, for every [max_k], the
    plain precision curve of all the predictions: what
    [computePrecisionCurve] returns for [max_k = -1]. *)
Theorem changed_curve_without_removed_is_plain (pred : list edge)
    (g : DiGraph) (max_k : Z) :
  computePrecisionCurve_changed pred g [] max_k
    = computePrecisionCurve pred g (-1)
  /\ length (fst (computePrecisionCurve_changed pred g [] max_k))
     = length pred.
Proof.
  split.
  - apply changed_curve_without_removed.
  - destruct (computePrecisionCurve_changed_length pred g [] max_k) as [H _].
    rewrite H. simpl. lia.
Qed.

Lemma node_loop_changed_without_removed (g : DiGraph) (max_k : Z)
    (node_edges : list (list edge)) (n : nat) (nodes : list nat) :
  forall (node_AP : list Q) (count : nat),
    node_loop_changed g max_k node_edges (repeat [] n) nodes node_AP count
      = node_loop g (-1) node_edges nodes node_AP count.
Proof.
  induction nodes as [|i nodes IH]; intros node_AP count; simpl.
  - reflexivity.
  - rewrite !IH.
    assert (E : average_precision_changed (nth i node_edges []) g
                  (nth i (repeat [] n) []) max_k
                = average_precision (nth i node_edges []) g (-1)).
    { assert (R : nth i (repeat (@nil edge) n) [] = []).
      { destruct (nth_in_or_default i (repeat (@nil edge) n) []) as [H|H];
          [now apply repeat_spec in H|exact H]. }
      rewrite R. unfold average_precision_changed, average_precision.
      simpl map. now rewrite changed_curve_without_removed. }
    now rewrite E.
Qed.

(** X9. When the list of removed edges is empty, [computeMAP_changed]
    computes, for every [max_k] and every node dictionary, what
    [computeMAP] computes for [max_k = -1], errors included. *)
Theorem computeMAP_changed_without_removed (pred : list edge) (g : DiGraph)
    (node_dict : Z -> option Z) (more : list (list (Z * Z))) (max_k : Z) :
  computeMAP_changed pred g node_dict ([] :: more) max_k
    = lift (computeMAP pred g (-1)).
Proof.
  unfold computeMAP_changed, computeMAP.
  destruct (partition_by_source (repeat [] (number_of_nodes g)) pred)
    as [node_edges|e]; [|reflexivity].
  cbn [lift bind_outcome bind Py.getitem partition_removed].
  change (Py.getitem ([] :: more) 0) with (@Ok (list (Z * Z)) []).
  cbn [lift bind_outcome partition_removed].
  rewrite node_loop_changed_without_removed.
  destruct (node_loop g (-1) node_edges (seq 0 (number_of_nodes g))
              (repeat 0%Q (number_of_nodes g)) 0) as [node_AP count].
  reflexivity.
Qed.

Lemma source_in_range_dec (n : nat) (e : edge) :
  {source_in_range n e} + {~ source_in_range n e}.
Proof.
  unfold source_in_range.
  destruct (Z_le_dec (- Z.of_nat n) (src e));
    destruct (Z_lt_dec (src e) (Z.of_nat n));
    [left; lia|right; lia|right; lia|right; lia].
Qed.

Lemma partition_by_source_returns (l : list edge)
    (node_edges ne : list (list edge)) :
  partition_by_source node_edges l = Ok ne ->
  Forall (source_in_range (length node_edges)) l.
Proof.
  intros H.
  destruct (Forall_Exists_dec (source_in_range (length node_edges))
              (source_in_range_dec (length node_edges)) l) as [F|E];
    [exact F|].
  rewrite (partition_by_source_out_of_range l node_edges E) in H.
  discriminate H.
Qed.

Lemma bucket_append_rm_returns (node_dict : Z -> option Z)
    (node_edges_rm ne : list (list edge)) (sted : Z * Z) :
  bucket_append_rm node_dict node_edges_rm sted = Return ne ->
  translatable (length node_edges_rm) node_dict sted
  /\ length ne = length node_edges_rm.
Proof.
  unfold bucket_append_rm, dict_getitem, translatable.
  destruct (node_dict (fst sted)) as [s|]; [|intros H; discriminate H].
  cbn [bind_outcome].
  destruct (Py.getitem node_edges_rm s) as [b|e];
    [|intros H; discriminate H].
  cbn [lift bind_outcome].
  destruct (node_dict (snd sted)) as [t|]; [|intros H; discriminate H].
  cbn [bind_outcome].
  destruct (source_in_range_dec (length node_edges_rm) (s, t, 1%Q))
    as [Hin|Hout].
  - destruct (bucket_append_ok node_edges_rm (s, t, 1%Q) Hin) as [ne' [E L]].
    rewrite E. cbn [lift]. intros H. inversion H; subst ne'.
    split; [|exact L]. exists s, t. repeat split; apply Hin.
  - rewrite (bucket_append_out_of_range node_edges_rm (s, t, 1%Q) Hout).
    intros H. discriminate H.
Qed.

Lemma partition_removed_returns (node_dict : Z -> option Z)
    (l : list (Z * Z)) :
  forall node_edges_rm ne : list (list edge),
    partition_removed node_dict node_edges_rm l = Return ne ->
    Forall (translatable (length node_edges_rm) node_dict) l.
Proof.
  induction l as [|sted l IH]; intros node_edges_rm ne H; simpl in H.
  - constructor.
  - destruct (bucket_append_rm node_dict node_edges_rm sted) as [ne'|e] eqn:E;
      [|discriminate H].
    destruct (bucket_append_rm_returns _ _ _ _ E) as [T L].
    constructor; [exact T|].
    rewrite <- L. exact (IH ne' ne H).
Qed.

Lemma node_loop_changed_count (g : DiGraph) (max_k : Z)
    (node_edges node_edges_rm : list (list edge)) (nodes : list nat) :
  forall (node_AP : list Q) (count : nat),
    snd (node_loop_changed g max_k node_edges node_edges_rm nodes node_AP
           count)
      = count + length (filter (counted g) nodes).
Proof.
  induction nodes as [|i nodes IH]; intros node_AP count; simpl.
  - lia.
  - unfold counted at 1.
    destruct (out_degree g (Z.of_nat i) =? 0)%Z; simpl; rewrite IH; lia.
Qed.

(** X10. [computeMAP_changed] returns a value only on well-formed
    input: every predicted source is an index of the node list, the
    removed-edge argument has a first element, both endpoints of every
    removed edge in it are keys of the node dictionary with the image of
    the source an index of the node list, and some node of the ground
    truth has an out-edge. *)
Theorem computeMAP_changed_returns_only_if (pred : list edge) (g : DiGraph)
    (node_dict : Z -> option Z) (edges_rm : list (list (Z * Z)))
    (max_k : Z) (m : Q) :
  computeMAP_changed pred g node_dict edges_rm max_k = Return m ->
  Forall (source_in_range (number_of_nodes g)) pred
  /\ (exists rm more,
        edges_rm = rm :: more
        /\ Forall (translatable (number_of_nodes g) node_dict) rm)
  /\ counted_nodes g <> 0.
Proof.
  unfold computeMAP_changed.
  destruct (partition_by_source (repeat [] (number_of_nodes g)) pred)
    as [node_edges|e] eqn:P; [|intros H; discriminate H].
  apply partition_by_source_returns in P. rewrite repeat_length in P.
  cbn [lift bind_outcome].
  destruct edges_rm as [|rm more]; [intros H; discriminate H|].
  change (Py.getitem (rm :: more) 0) with (Ok rm).
  cbn [lift bind_outcome].
  destruct (partition_removed node_dict (repeat [] (number_of_nodes g)) rm)
    as [node_edges_rm|e] eqn:R; [|intros H; discriminate H].
  apply partition_removed_returns in R. rewrite repeat_length in R.
  cbn [bind_outcome].
  pose proof (node_loop_changed_count g max_k node_edges node_edges_rm
                (seq 0 (number_of_nodes g)) (repeat 0%Q (number_of_nodes g))
                0) as C.
  destruct (node_loop_changed g max_k node_edges node_edges_rm
              (seq 0 (number_of_nodes g)) (repeat 0%Q (number_of_nodes g)) 0)
    as [node_AP count].
  simpl in C. unfold py_div.
  destruct (Nat.eqb_spec count 0) as [Z|NZ]; [intros H; discriminate H|].
  intros _. split; [exact P|]. split.
  - exists rm, more. split; [reflexivity|exact R].
  - unfold counted_nodes. lia.
Qed.

Lemma computeMAP_changed_returns_only_if_witness :
  exists m : Q,
    computeMAP_changed one_prediction path3 (identity_dict 3)
      [[(2, 0)]]%Z (-1) = Return m
    /\ Forall (source_in_range 3) one_prediction
    /\ counted_nodes path3 <> 0.
Proof.
  destruct (computeMAP_changed one_prediction path3 (identity_dict 3)
              [[(2, 0)]]%Z (-1)) as [m|e] eqn:E.
  - exists m. split; [reflexivity|].
    destruct (computeMAP_changed_returns_only_if _ _ _ _ _ _ E)
      as [H1 [_ H3]].
    split; assumption.
  - vm_compute in E. discriminate E.
Defined.

(** *** The report *)

Lemma report_field_returns (format_f : Q -> string) (prec_curv : list Q)
    (p : Z) :
  (1 <= p)%Z ->
  exists f, report_field format_f prec_curv p = Ok (tab ++ f)%string
            /\ (f = "-"%string \/ exists v, f = format_f v).
Proof.
  intros Hp. unfold report_field.
  destruct (Z.ltb_spec p (Z.of_nat (length prec_curv))).
  - unfold Py.getitem.
    destruct (Z.ltb_spec (p - 1) 0); [lia|].
    destruct (Z.ltb_spec (p - 1) 0); [lia|].
    destruct (nth_error prec_curv (Z.to_nat (p - 1))) as [v|] eqn:E.
    + simpl. eexists. split; [reflexivity|]. right. now exists v.
    + apply nth_error_None in E. lia.
  - exists "-"%string. split; [reflexivity|now left].
Qed.

Lemma tabs_app (s1 s2 : string) :
  tabs (s1 ++ s2) = tabs s1 + tabs s2.
Proof.
  induction s1 as [|c s1 IH]; simpl; [reflexivity|]. rewrite IH. lia.
Qed.

Lemma report_field_last (format_f : Q -> string) (prec_curv : list Q)
    (edge_num : Z) :
  let len := Z.of_nat (length prec_curv) in
  if ((edge_num <? len) && (edge_num <? 1 - len))%Z
  then report_field format_f prec_curv edge_num = Raise IndexError
  else exists f, report_field format_f prec_curv edge_num
                   = Ok (tab ++ f)%string
                 /\ (f = "-"%string \/ exists v, f = format_f v).
Proof.
  cbv zeta. unfold report_field, Py.getitem.
  destruct (Z.ltb_spec edge_num (Z.of_nat (length prec_curv))) as [H1|H1];
    cbn [andb].
  - destruct (Z.ltb_spec edge_num (1 - Z.of_nat (length prec_curv)))
      as [H2|H2]; cbv iota.
    + destruct (Z.ltb_spec (edge_num - 1) 0); [|lia].
      destruct (Z.ltb_spec (edge_num - 1 + Z.of_nat (length prec_curv)) 0);
        [reflexivity|lia].
    + set (k := (if (edge_num - 1 <? 0)%Z
                 then (edge_num - 1 + Z.of_nat (length prec_curv))%Z
                 else (edge_num - 1)%Z)).
      assert (Hk : (0 <= k < Z.of_nat (length prec_curv))%Z).
      { unfold k. destruct (Z.ltb_spec (edge_num - 1) 0); lia. }
      destruct (Z.ltb_spec k 0); [lia|].
      destruct (nth_error prec_curv (Z.to_nat k)) as [v|] eqn:E.
      * simpl. eexists. split; [reflexivity|]. right. now exists v.
      * apply nth_error_None in E. lia.
  - exists "-"%string. split; [reflexivity|now left].
Qed.

Lemma string_app_assoc (a b c : string) :
  ((a ++ b) ++ c = a ++ (b ++ c))%string.
Proof.
  induction a as [|x a IH]; simpl; [reflexivity|]. now rewrite IH.
Qed.

Lemma string_app_nil (a : string) : (a ++ EmptyString = a)%string.
Proof.
  induction a as [|x a IH]; simpl; [reflexivity|]. now rewrite IH.
Qed.

Lemma report_loop_fixed_ranks (format_f : Q -> string) (prec_curv : list Q)
    (ps : list Z) :
  (forall q, tabs (format_f q) = 0) ->
  Forall (fun p => 1 <= p)%Z ps ->
  forall (rest : list Z) (acc : string),
    exists acc',
      report_loop format_f prec_curv (ps ++ rest) acc
        = report_loop format_f prec_curv rest (acc ++ acc')%string
      /\ tabs acc' = length ps.
Proof.
  intros Hf. induction 1 as [|p ps Hp Hps IH]; intros rest acc.
  - exists EmptyString. split; [|reflexivity].
    simpl. now rewrite string_app_nil.
  - destruct (report_field_returns format_f prec_curv p Hp) as [f [E V]].
    simpl. rewrite E. cbn [bind].
    destruct (IH rest (acc ++ (tab ++ f))%string) as [acc' [E' T]].
    exists ((tab ++ f) ++ acc')%string. split.
    + rewrite E'. f_equal. apply string_app_assoc.
    + rewrite tabs_app, T. simpl.
      destruct V as [V|[v V]]; subst f; [reflexivity|].
      now rewrite Hf.
Qed.

Lemma header_fields :
  getMetricsHeader
    = ("MAP" ++ tab ++ "P@2" ++ tab ++ "P@10" ++ tab ++ "P@100" ++ tab
       ++ "P@200" ++ tab ++ "P@300" ++ tab ++ "P@500" ++ tab ++ "P@1000"
       ++ tab ++ "P@EdgeNum")%string
  /\ tabs getMetricsHeader = 8.
Proof.
  split; vm_compute; reflexivity.
Qed.

(** X11. [getPrecisionReport] raises [IndexError] exactly when the edge
    count is negative enough to make [prec_curv[edge_num - 1]] fall
    before the start of the curve, that is when [edge_num < len] and
    [edge_num < 1 - len]; in every other case, so for every non-negative
    edge count, it returns a row.  When the float format prints no tab,
    that row has eight tab-separated fields, one fewer than the header
    of [getMetricsHeader], whose first column, MAP, the row lacks. *)
Theorem getPrecisionReport_outcome (format_f : Q -> string)
    (prec_curv : list Q) (edge_num : Z) :
  (forall q, tabs (format_f q) = 0) ->
  let len := Z.of_nat (length prec_curv) in
  if ((edge_num <? len) && (edge_num <? 1 - len))%Z
  then getPrecisionReport format_f prec_curv edge_num = Raise IndexError
  else exists row, getPrecisionReport format_f prec_curv edge_num = Ok row
                   /\ tabs row = 7
                   /\ S (tabs row) = tabs getMetricsHeader.
Proof.
  intros Hf. cbv zeta. unfold getPrecisionReport.
  assert (P2 : (1 <= 2)%Z) by lia.
  destruct (report_field_returns format_f prec_curv 2 P2) as [f0 [E0 V0]].
  change (precision_pos ++ [edge_num])
    with (2%Z :: ([10; 100; 200; 300; 500; 1000]%Z ++ [edge_num])).
  cbn [report_loop]. rewrite E0. cbn [bind].
  destruct (report_loop_fixed_ranks format_f prec_curv
              [10; 100; 200; 300; 500; 1000]%Z Hf)
    with (rest := [edge_num]) (acc := (EmptyString ++ (tab ++ f0))%string)
    as [acc' [E T]].
  { repeat (constructor; [lia|]). constructor. }
  rewrite E. clear E. cbn [report_loop].
  pose proof (report_field_last format_f prec_curv edge_num) as L.
  cbv zeta in L. revert L.
  destruct ((edge_num <? Z.of_nat (length prec_curv))
            && (edge_num <? 1 - Z.of_nat (length prec_curv)))%Z; intros L.
  - rewrite L. reflexivity.
  - destruct L as [f [E V]]. rewrite E. cbn [bind].
    eexists. split; [reflexivity|].
    assert (R : tabs (Py.tail_str
                        (((EmptyString ++ tab ++ f0) ++ acc') ++ tab ++ f))
                = 7).
    { simpl. rewrite !tabs_app, T. simpl.
      assert (F0 : tabs f0 = 0)
        by (destruct V0 as [W|[v W]]; subst f0; [reflexivity|apply Hf]).
      assert (F : tabs f = 0)
        by (destruct V as [W|[v W]]; subst f; [reflexivity|apply Hf]).
      rewrite F0, F. reflexivity. }
    split; [exact R|].
    rewrite R. symmetry. apply header_fields.
Qed.

Lemma digit_is_no_tab (n : Z) :
  Ascii.eqb (digit (n mod 10)) (ascii_of_nat 9) = false.
Proof.
  unfold digit.
  assert (H : Z.to_nat (n mod 10) < 10).
  { pose proof (Z.mod_pos_bound n 10). lia. }
  generalize dependent (Z.to_nat (n mod 10)). intros k Hk.
  do 10 (destruct k as [|k]; [reflexivity|]).
  lia.
Qed.

Lemma decimal_tabs (fuel : nat) :
  forall (n : Z) (acc : string), tabs (decimal fuel n acc) = tabs acc.
Proof.
  induction fuel as [|fuel IH]; intros n acc; cbn [decimal];
    [reflexivity|].
  destruct (n / 10 =? 0)%Z.
  - cbn [tabs]. now rewrite digit_is_no_tab.
  - rewrite IH. cbn [tabs]. now rewrite digit_is_no_tab.
Qed.

Lemma format_d_tabs (z : Z) : tabs (format_d z) = 0.
Proof.
  unfold format_d. destruct (z <? 0)%Z.
  - rewrite tabs_app, decimal_tabs. reflexivity.
  - now rewrite decimal_tabs.
Qed.

Lemma fixed6_tabs (q : Q) : tabs (fixed6 q) = 0.
Proof.
  unfold fixed6. rewrite !tabs_app, !format_d_tabs. reflexivity.
Qed.

Lemma getPrecisionReport_outcome_witness :
  exists row, getPrecisionReport fixed6 [1; 1 # 2; 1 # 3]%Q 0 = Ok row
              /\ tabs row = 7
              /\ S (tabs row) = tabs getMetricsHeader.
Proof.
  exact (getPrecisionReport_outcome fixed6 [1; 1 # 2; 1 # 3]%Q 0 fixed6_tabs).
Defined.


End MetricsRestFacts.

(** * Further properties of the factorization *)

Module GraphFacRestFacts.

Import Np GraphFac GraphFacSpec GraphFacExamples NpFacts GraphFacFacts
  GraphFacRest GraphFacRestSpec GraphFacRestExamples.
Local Open Scope nat_scope.

(** *** What the optimisation loop leaves alone *)

Lemma isub_row_frame (X X' : ndarray) (i : nat) (w : list Q) :
  isub_row X i w = Ok X' ->
  shape0 X' = shape0 X /\ shape1 X' = shape1 X
  /\ forall a b, a <> i -> a < shape0 X -> b < shape1 X ->
                 get X' a b = get X a b.
Proof.
  unfold isub_row.
  destruct (Nat.eqb (length w) (shape1 X) || Nat.eqb (length w) 1);
    [|intros H; discriminate H].
  intros H. inversion H; subst X'. clear H.
  split; [reflexivity|]. split; [reflexivity|].
  intros a b Ha Hn Hb. rewrite get_tabulate by assumption.
  destruct (Nat.eqb_spec a i); [contradiction|reflexivity].
Qed.

Lemma edge_update_frame (self : GraphFactorization) (A : ndarray)
    (prev : option ndarray) (X X' : ndarray) (i j : nat) (g : gradients) :
  edge_update self A prev X i j = Ok (X', g) ->
  shape0 X' = shape0 X /\ shape1 X' = shape1 X
  /\ forall a b, a <> i -> a < shape0 X -> b < shape1 X ->
                 get X' a b = get X a b.
Proof.
  unfold edge_update.
  destruct (vdot (row X i) (row X j)) as [xx|e]; [|intros H; discriminate H].
  cbn [bind].
  destruct (match prev with
            | Some P =>
                if Nat.ltb i (shape0 P)
                then bind (vzip2 Qminus (row X i) (row P i))
                          (fun D => Ok (vscale (_kappa self) D))
                else Ok (zeros (_d self))
            | None => Ok (zeros (_d self))
            end) as [d3|e]; [|intros H; discriminate H].
  cbn [bind].
  destruct (vzip2 Qplus _ _) as [s|e]; [|intros H; discriminate H].
  cbn [bind].
  destruct (vzip2 Qplus s d3) as [dp|e]; [|intros H; discriminate H].
  cbn [bind].
  destruct (isub_row X i (vscale (_eta self) dp)) as [X''|e] eqn:E;
    [|intros H; discriminate H].
  cbn [bind]. intros H. inversion H; subst X''.
  exact (isub_row_frame _ _ _ _ E).
Qed.

Lemma edge_loop_frame (self : GraphFactorization) (A : ndarray)
    (prev : option ndarray) (edgeList : list (nat * nat)) :
  forall (X X' : ndarray) (locals : option gradients)
         (r : result (option gradients)),
    edge_loop self A prev edgeList X locals = (r, X') ->
    shape0 X' = shape0 X /\ shape1 X' = shape1 X
    /\ forall a,
         (forall j, In (a, j) edgeList -> j <= a) ->
         forall b, a < shape0 X -> b < shape1 X -> get X' a b = get X a b.
Proof.
  induction edgeList as [|[i j] rest IH]; intros X X' locals r H; simpl in H.
  - inversion H; subst. repeat split.
  - destruct (Nat.leb_spec j i) as [Hle|Hlt].
    + destruct (IH _ _ _ _ H) as [S0 [S1 F]].
      split; [exact S0|]. split; [exact S1|].
      intros a Ha. apply F. intros j' Hin. apply Ha. now right.
    + destruct (edge_update self A prev X i j) as [[X1 g]|e] eqn:E.
      * destruct (edge_update_frame _ _ _ _ _ _ _ _ E) as [U0 [U1 UF]].
        destruct (IH _ _ _ _ H) as [S0 [S1 F]].
        split; [congruence|]. split; [congruence|].
        intros a Ha b Hn Hb.
        assert (Hai : a <> i).
        { intros ->. specialize (Ha j (or_introl eq_refl)). lia. }
        rewrite F.
        -- now apply UF.
        -- intros j' Hin. apply Ha. now right.
        -- congruence.
        -- congruence.
      * inversion H; subst. repeat split.
Qed.

Lemma iter_loop_frame (self : GraphFactorization) (A : ndarray)
    (prev : option ndarray) (edgeList : list (nat * nat))
    (iters : list nat) :
  forall (X X' : ndarray) (locals : option gradients) (out out' : list line)
         (r : result unit),
    iter_loop self A prev edgeList iters X locals out = (r, X', out') ->
    shape0 X' = shape0 X /\ shape1 X' = shape1 X
    /\ forall a,
         (forall j, In (a, j) edgeList -> j <= a) ->
         forall b, a < shape0 X -> b < shape1 X -> get X' a b = get X a b.
Proof.
  induction iters as [|iter_id rest IH]; intros X X' locals out out' r H;
    cbn [iter_loop] in H.
  - inversion H; subst. repeat split.
  - destruct (if Nat.eqb (iter_id mod 100) 0
              then bind (objective_line self A X prev iter_id)
                        (fun l => Ok (out ++ [l]))
              else Ok out) as [out1|e].
    2:{ inversion H; subst. repeat split. }
    destruct (edge_loop self A prev edgeList X locals) as [[locals1|e] X1]
      eqn:E.
    2:{ inversion H; subst.
        exact (edge_loop_frame _ _ _ _ _ _ _ _ E). }
    destruct (edge_loop_frame _ _ _ _ _ _ _ _ E) as [U0 [U1 UF]].
    destruct (if Nat.eqb (iter_id mod 100) 0
              then bind (del_values iter_id locals1)
                        (fun l => Ok (out1 ++ [l]))
              else Ok out1) as [out2|e].
    2:{ inversion H; subst. split; [exact U0|]. split; [exact U1|exact UF]. }
    destruct (IH _ _ _ _ _ _ H) as [S0 [S1 F]].
    split; [congruence|]. split; [congruence|].
    intros a Ha b Hn Hb.
    rewrite (F a Ha b) by congruence. now apply UF.
Qed.

(** *** What a call of [learn_embedding] that returns has done *)

Lemma initialize_result (gauss : nat -> Q) (self s0 : GraphFactorization)
    (A X0 : ndarray) (prevEmbed : option embedding) (prev : option ndarray) :
  initialize gauss self A prevEmbed = (Ok (X0, prev), s0) ->
  shape0 X0 = shape0 A /\ shape1 X0 = _d self
  /\ _X s0 = Some X0 /\ _node_num s0 = Some (shape0 A)
  /\ random_state s0 = random_state self + shape0 A * _d self
  /\ _num_iter s0 = Some (iteration_count self prevEmbed)
  /\ _d s0 = _d self
  /\ prev = match prevEmbed with
            | Some (Mat P) => Some P
            | _ => None
            end.
Proof.
  unfold initialize.
  destruct prevEmbed as [[|P]|].
  - intros H. discriminate H.
  - destruct (assign_rows _ _ _) as [X'|e] eqn:E; [|intros H; discriminate H].
    intros H. inversion H; subst. clear H.
    unfold assign_rows in E.
    destruct (_ && _) in E; [|discriminate E].
    inversion E; subst X0. repeat split.
  - intros H. inversion H; subst. repeat split.
Qed.

Lemma optimize_result (self s' : GraphFactorization) (A : ndarray)
    (prev : option ndarray) (X0 X : ndarray) (k : nat) :
  _num_iter self = Some k ->
  optimize self A prev X0 = (Ok (Some X), s') ->
  (exists out,
     iter_loop self A prev (where_pos A) (seq 0 k) X0 None (stdout self)
       = (Ok tt, X, out))
  /\ _X s' = Some X /\ _node_num s' = _node_num self
  /\ random_state s' = random_state self.
Proof.
  intros Hk. unfold optimize. rewrite Hk.
  destruct (iter_loop self A prev (where_pos A) (seq 0 k) X0 None
              (stdout self)) as [[[[]|e] X1] out]; intros H;
    [|discriminate H].
  inversion H; subst. split; [now exists out|]. repeat split.
Qed.

Lemma learn_embedding_returns (gauss : nat -> Q)
    (self s' : GraphFactorization) (g : DiGraph)
    (prevEmbed : option embedding) (X : ndarray) :
  learn_embedding gauss self g prevEmbed = (Ok (Some X), s') ->
  symmetry_test_passes g = true
  /\ exists (X0 : ndarray) (s0 : GraphFactorization) (prev : option ndarray)
            (out : list line),
       initialize gauss self (transform_DiGraph_to_adj g) prevEmbed
         = (Ok (X0, prev), s0)
       /\ iter_loop s0 (transform_DiGraph_to_adj g) prev
            (where_pos (transform_DiGraph_to_adj g))
            (seq 0 (iteration_count self prevEmbed)) X0 None (stdout s0)
          = (Ok tt, X, out)
       /\ _X s' = Some X
       /\ _node_num s' = Some (number_of_nodes g)
       /\ random_state s'
          = random_state self + number_of_nodes g * _d self.
Proof.
  unfold learn_embedding. rewrite symmetry_test. cbv zeta.
  fold (symmetry_test_passes g).
  destruct (symmetry_test_passes g); [|intros H; discriminate H].
  destruct (initialize gauss self (transform_DiGraph_to_adj g) prevEmbed)
    as [[[X0 prev]|e] s0] eqn:I; [|intros H; discriminate H].
  intros H. split; [reflexivity|].
  destruct (initialize_result _ _ _ _ _ _ _ I)
    as [_ [_ [_ [Hn [Hr [Hk _]]]]]].
  destruct (optimize_result _ _ _ _ _ _ _ Hk H) as [[out L] [HX [Hn' Hr']]].
  exists X0, s0, prev, out.
  split; [reflexivity|]. split; [exact L|]. split; [exact HX|].
  split; [now rewrite Hn', Hn|].
  now rewrite Hr', Hr.
Qed.

Lemma initial_matrix_entry (gauss : nat -> Q) (self s0 : GraphFactorization)
    (g : DiGraph) (prevEmbed : option embedding) (X0 : ndarray)
    (prev : option ndarray) (i j : nat) :
  initialize gauss self (transform_DiGraph_to_adj g) prevEmbed
    = (Ok (X0, prev), s0) ->
  fits (number_of_nodes g) (_d self) prevEmbed ->
  i < number_of_nodes g -> j < _d self ->
  get X0 i j = initial_entry gauss self prevEmbed i j.
Proof.
  intros I F Hi Hj. unfold initial_entry.
  destruct prevEmbed as [[|P]|]; simpl in F.
  - contradiction.
  - destruct F as [Hm Hd].
    destruct (initialize_warm gauss self g P Hm Hd) as [s1 [I' _]].
    rewrite I' in I. inversion I; subst X0. clear I.
    unfold warm_matrix. rewrite get_tabulate by assumption.
    rewrite Nat.min_l by exact Hm.
    destruct (Nat.ltb_spec i (shape0 P)).
    + apply get_copy; lia.
    + rewrite random_start. now rewrite get_tabulate.
  - unfold initialize in I. inversion I; subst X0. clear I.
    rewrite random_start. simpl. now rewrite get_tabulate.
Qed.

(** X12. In the embedding that [learn_embedding] returns, the row of a
    node [i] that has no positive entry [A[i, j]] with [j > i] is the
    row it was initialised with: the row of the previous embedding when
    there is one for that node, the scaled random draw otherwise.  The
    optimisation never moves such a node; the last node is always one. *)
Theorem learn_embedding_keeps_rows_without_upper_edge (gauss : nat -> Q)
    (self s' : GraphFactorization) (g : DiGraph)
    (prevEmbed : option embedding) (X : ndarray) :
  learn_embedding gauss self g prevEmbed = (Ok (Some X), s') ->
  fits (number_of_nodes g) (_d self) prevEmbed ->
  (forall i j, i < number_of_nodes g -> j < _d self ->
     starts_no_edge g i ->
     get X i j = initial_entry gauss self prevEmbed i j)
  /\ (forall j, 1 <= number_of_nodes g -> j < _d self ->
        get X (number_of_nodes g - 1) j
          = initial_entry gauss self prevEmbed (number_of_nodes g - 1) j).
Proof.
  intros H F.
  destruct (learn_embedding_returns _ _ _ _ _ _ H)
    as [_ [X0 [s0 [prev [out [I [L _]]]]]]].
  destruct (initialize_result _ _ _ _ _ _ _ I) as [S0 [S1 _]].
  simpl in S0.
  destruct (iter_loop_frame _ _ _ _ _ _ _ _ _ _ _ L) as [_ [_ Fr]].
  assert (G : forall i j, i < number_of_nodes g -> j < _d self ->
                starts_no_edge g i ->
                get X i j = initial_entry gauss self prevEmbed i j).
  { intros i j Hi Hj Hs.
    rewrite Fr; [|
      | rewrite S0; exact Hi | rewrite S1; exact Hj].
    - now apply (initial_matrix_entry gauss self s0 g prevEmbed X0 prev).
    - intros j' Hin. apply where_pos_in in Hin. simpl in Hin.
      destruct Hin as [_ [Hj' Hpos]].
      destruct (Nat.le_gt_cases j' i) as [Hle|Hlt]; [exact Hle|].
      unfold transform_DiGraph_to_adj in Hpos.
      rewrite get_tabulate in Hpos by assumption.
      rewrite (Hs j' Hlt Hj') in Hpos. discriminate Hpos. }
  split; [exact G|].
  intros j Hn Hj. apply G; [lia|exact Hj|].
  intros j' H1 H2. lia.
Qed.

(** *** When the optimisation loop returns *)

Lemma row_length (X : ndarray) (i : nat) : length (row X i) = shape1 X.
Proof.
  unfold row. now rewrite length_map, length_seq.
Qed.

Lemma vzip2_same_length (op : Q -> Q -> Q) (u v : list Q) :
  length u = length v ->
  exists w, vzip2 op u v = Ok w /\ length w = length v.
Proof.
  intros H. unfold vzip2. rewrite H, bdim_same. cbn [bind].
  eexists. split; [reflexivity|].
  now rewrite length_map, length_seq.
Qed.

Lemma vscale_length (k : Q) (v : list Q) : length (vscale k v) = length v.
Proof.
  unfold vscale. apply length_map.
Qed.

Lemma edge_update_returns (self : GraphFactorization) (A : ndarray)
    (prev : option ndarray) (X : ndarray) (i j n : nat) :
  shape1 X = _d self ->
  prev_fits n (_d self) prev ->
  exists X' g,
    edge_update self A prev X i j = Ok (X', g)
    /\ gradients_of_dim (_d self) (Some g).
Proof.
  intros HX Hp. unfold edge_update.
  unfold vdot. rewrite !row_length, Nat.eqb_refl. cbn [bind].
  set (d1 := vscale _ (row X j)).
  set (d2 := vscale (_regu self) (row X i)).
  assert (L1 : length d1 = _d self)
    by (unfold d1; now rewrite vscale_length, row_length).
  assert (L2 : length d2 = _d self)
    by (unfold d2; now rewrite vscale_length, row_length).
  assert (E3 : exists d3,
             match prev with
             | Some P =>
                 if Nat.ltb i (shape0 P)
                 then bind (vzip2 Qminus (row X i) (row P i))
                           (fun D => Ok (vscale (_kappa self) D))
                 else Ok (zeros (_d self))
             | None => Ok (zeros (_d self))
             end = Ok d3 /\ length d3 = _d self).
  { destruct prev as [P|].
    - destruct Hp as [_ Hd].
      destruct (Nat.ltb i (shape0 P)).
      + destruct (vzip2_same_length Qminus (row X i) (row P i)) as [D [E L]].
        { rewrite !row_length. congruence. }
        rewrite E. cbn [bind]. eexists. split; [reflexivity|].
        rewrite vscale_length, L, row_length. exact Hd.
      + eexists. split; [reflexivity|]. apply repeat_length.
    - eexists. split; [reflexivity|]. apply repeat_length. }
  destruct E3 as [d3 [E3 L3]]. rewrite E3. cbn [bind].
  destruct (vzip2_same_length Qplus d1 d2) as [s [Es Ls]]; [congruence|].
  rewrite Es. cbn [bind].
  destruct (vzip2_same_length Qplus s d3) as [dp [Ep Lp]]; [congruence|].
  rewrite Ep. cbn [bind].
  unfold isub_row. rewrite vscale_length, Lp, L3, HX, Nat.eqb_refl.
  cbn [orb bind].
  eexists. eexists. split; [reflexivity|].
  simpl. repeat split; congruence.
Qed.

Lemma edge_loop_returns (self : GraphFactorization) (A : ndarray)
    (prev : option ndarray) (n : nat) (edgeList : list (nat * nat)) :
  prev_fits n (_d self) prev ->
  forall (X : ndarray) (locals : option gradients),
    shape1 X = _d self ->
    gradients_of_dim (_d self) locals ->
    exists X' locals',
      edge_loop self A prev edgeList X locals = (Ok locals', X')
      /\ gradients_of_dim (_d self) locals'
      /\ (locals <> None -> locals' <> None)
      /\ ((exists i j, In (i, j) edgeList /\ i < j) -> locals' <> None).
Proof.
  intros Hp. induction edgeList as [|[i j] rest IH]; intros X locals HX HL;
    simpl.
  - exists X, locals. split; [reflexivity|]. split; [exact HL|].
    split; [auto|]. intros [i [j [[] _]]].
  - destruct (Nat.leb_spec j i) as [Hle|Hlt].
    + destruct (IH X locals HX HL) as [X' [l' [E [G [K U]]]]].
      exists X', l'. split; [exact E|]. split; [exact G|].
      split; [exact K|].
      intros [a [b [[Hin|Hin] Hab]]].
      * inversion Hin; subst. lia.
      * apply U. now exists a, b.
    + destruct (edge_update_returns self A prev X i j n HX Hp)
        as [X1 [g [E G]]].
      rewrite E.
      destruct (edge_update_frame _ _ _ _ _ _ _ _ E) as [_ [S1 _]].
      destruct (IH X1 (Some g)) as [X' [l' [E' [G' [K' _]]]]];
        [congruence|exact G|].
      exists X', l'. split; [exact E'|]. split; [exact G'|].
      assert (N : l' <> None) by (apply K'; discriminate).
      split; intros _; exact N.
Qed.

Lemma where_pos_intro (A : ndarray) (i j : nat) :
  i < shape0 A -> j < shape1 A -> Qlt_bool 0 (get A i j) = true ->
  In (i, j) (where_pos A).
Proof.
  intros Hi Hj H. unfold where_pos.
  apply in_flat_map. exists i. split; [apply in_seq; lia|].
  apply in_map. apply filter_In. split; [apply in_seq; lia|exact H].
Qed.

Lemma del_values_returns (iter_id d : nat) (locals : option gradients) :
  1 <= d -> locals <> None -> gradients_of_dim d locals ->
  exists l, del_values iter_id locals = Ok l.
Proof.
  intros Hd Hn G. destruct locals as [g|]; [|contradiction].
  destruct G as [G0 [G1 [G2 G3]]]. unfold del_values.
  destruct (delPhi g) as [|a ?]; [simpl in G0; lia|].
  destruct (delPhi1 g) as [|b ?]; [simpl in G1; lia|].
  destruct (delPhi2 g) as [|c ?]; [simpl in G2; lia|].
  destruct (delPhi3 g) as [|e ?]; [simpl in G3; lia|].
  simpl. eauto.
Qed.

Lemma iter_loop_returns (self : GraphFactorization) (g : DiGraph)
    (prev : option ndarray) (iters : list nat) :
  let A := transform_DiGraph_to_adj g in
  prev_fits (number_of_nodes g) (_d self) prev ->
  1 <= _d self ->
  (exists i j, In (i, j) (where_pos A) /\ i < j) ->
  forall (X : ndarray) (locals : option gradients) (out : list line),
    shape0 X = number_of_nodes g -> shape1 X = _d self ->
    gradients_of_dim (_d self) locals ->
    exists X' out',
      iter_loop self A prev (where_pos A) iters X locals out
        = (Ok tt, X', out').
Proof.
  cbv zeta. intros Hp Hd He.
  induction iters as [|iter_id rest IH]; intros X locals out S0 S1 G;
    cbn [iter_loop].
  - eauto.
  - destruct (getFVal_returns self g X prev S0) as [[[[f1 f2] f3] f] Hf].
    { destruct prev as [P|]; [|exact I].
      destruct Hp as [P0 P1]. split; lia. }
    destruct (edge_loop_returns self (transform_DiGraph_to_adj g) prev
                (number_of_nodes g)
                (where_pos (transform_DiGraph_to_adj g)) Hp X locals S1 G)
      as [X1 [l1 [E [G1 [_ N]]]]].
    specialize (N He).
    destruct (edge_loop_frame _ _ _ _ _ _ _ _ E) as [T0 [T1 _]].
    destruct (del_values_returns iter_id (_d self) l1 Hd N G1) as [dl Hdl].
    unfold objective_line. rewrite Hf, E, Hdl. cbn [bind].
    destruct (Nat.eqb (iter_id mod 100) 0); apply IH; congruence.
Qed.

Lemma fits_prev (gauss : nat -> Q) (self s0 : GraphFactorization)
    (g : DiGraph) (prevEmbed : option embedding) (X0 : ndarray)
    (prev : option ndarray) :
  initialize gauss self (transform_DiGraph_to_adj g) prevEmbed
    = (Ok (X0, prev), s0) ->
  fits (number_of_nodes g) (_d self) prevEmbed ->
  prev_fits (number_of_nodes g) (_d s0) prev.
Proof.
  intros I F.
  destruct (initialize_result _ _ _ _ _ _ _ I)
    as [_ [_ [_ [_ [_ [_ [Hd Hprev]]]]]]].
  subst prev. rewrite Hd.
  destruct prevEmbed as [[|P]|]; simpl in *; auto.
Qed.

Lemma initialize_returns (gauss : nat -> Q) (self : GraphFactorization)
    (g : DiGraph) (prevEmbed : option embedding) :
  fits (number_of_nodes g) (_d self) prevEmbed ->
  exists X0 prev s0,
    initialize gauss self (transform_DiGraph_to_adj g) prevEmbed
      = (Ok (X0, prev), s0).
Proof.
  intros F. destruct prevEmbed as [[|P]|]; simpl in F.
  - contradiction.
  - destruct F as [Hm Hd].
    destruct (initialize_warm gauss self g P Hm Hd) as [s0 [I _]].
    eauto.
  - unfold initialize. eauto.
Qed.

Lemma has_upper_edge_where_pos (g : DiGraph) :
  has_upper_edge g ->
  exists i j, In (i, j) (where_pos (transform_DiGraph_to_adj g)) /\ i < j.
Proof.
  intros [i [j [Hij [Hj Hpos]]]]. exists i, j. split; [|exact Hij].
  apply where_pos_intro; simpl; try lia.
  unfold transform_DiGraph_to_adj. rewrite get_tabulate by lia. exact Hpos.
Qed.

Lemma symmetric_test_passes (g : DiGraph) :
  symmetric_within_tolerance g -> symmetry_test_passes g = true.
Proof.
  intros H. unfold symmetry_test_passes.
  apply forallb_seq_true. intros i Hi.
  apply forallb_seq_true. intros j Hj. now apply H.
Qed.

Lemma learn_embedding_runs_loop (gauss : nat -> Q)
    (self s0 : GraphFactorization) (g : DiGraph)
    (prevEmbed : option embedding) (X0 : ndarray) (prev : option ndarray) :
  symmetric_within_tolerance g ->
  initialize gauss self (transform_DiGraph_to_adj g) prevEmbed
    = (Ok (X0, prev), s0) ->
  learn_embedding gauss self g prevEmbed
    = finish s0
        (iter_loop s0 (transform_DiGraph_to_adj g) prev
           (where_pos (transform_DiGraph_to_adj g))
           (seq 0 (iteration_count self prevEmbed)) X0 None (stdout s0)).
Proof.
  intros Hsym I. unfold learn_embedding.
  rewrite (symmetric_passes g Hsym), I.
  apply optimize_finish.
  now destruct (initialize_result _ _ _ _ _ _ _ I)
    as [_ [_ [_ [_ [_ [Hk _]]]]]].
Qed.

(** X13. On a graph that passes the symmetry test and has a positive
    entry above the diagonal, with an embedding dimension of at least 1
    and no previous embedding or one that fits, [learn_embedding] raises
    nothing, whatever the number of iterations: it returns an N x d
    matrix, which [get_embedding] then returns too. *)
Theorem learn_embedding_returns_an_embedding (gauss : nat -> Q)
    (self : GraphFactorization) (g : DiGraph)
    (prevEmbed : option embedding) :
  symmetric_within_tolerance g ->
  has_upper_edge g ->
  1 <= _d self ->
  fits (number_of_nodes g) (_d self) prevEmbed ->
  exists (X : ndarray) (s' : GraphFactorization),
    learn_embedding gauss self g prevEmbed = (Ok (Some X), s')
    /\ shape0 X = number_of_nodes g /\ shape1 X = _d self
    /\ get_embedding s' = Ok X.
Proof.
  intros Hsym He Hd F.
  destruct (initialize_returns gauss self g prevEmbed F)
    as [X0 [prev [s0 Hinit]]].
  destruct (initialize_result _ _ _ _ _ _ _ Hinit)
    as [S0 [S1 [_ [_ [_ [_ [Hd0 _]]]]]]].
  simpl in S0.
  pose proof (fits_prev _ _ _ _ _ _ _ Hinit F) as Hp.
  rewrite (learn_embedding_runs_loop gauss self s0 g prevEmbed X0 prev Hsym
             Hinit).
  destruct (iter_loop_returns s0 g prev
              (seq 0 (iteration_count self prevEmbed)) Hp
              ltac:(rewrite Hd0; exact Hd)
              (has_upper_edge_where_pos g He) X0 None (stdout s0) S0
              ltac:(rewrite Hd0; exact S1) I)
    as [X [out L]].
  destruct (iter_loop_frame _ _ _ _ _ _ _ _ _ _ _ L) as [T0 [T1 _]].
  rewrite L. simpl.
  eexists. eexists. split; [reflexivity|].
  split; [congruence|]. split; [congruence|reflexivity].
Qed.

Lemma star3_symmetric : symmetric_within_tolerance star3.
Proof.
  intros i j Hi Hj. simpl in Hi, Hj.
  destruct i as [|[|[|i]]]; destruct j as [|[|[|j]]]; try lia; reflexivity.
Qed.

Lemma star3_has_upper_edge : has_upper_edge star3.
Proof.
  exists 0, 1. repeat split; simpl; lia.
Qed.

Lemma learn_embedding_returns_an_embedding_witness :
  exists (X : ndarray) (s' : GraphFactorization),
    learn_embedding samples model star3 None = (Ok (Some X), s')
    /\ shape0 X = 3 /\ shape1 X = 1
    /\ get_embedding s' = Ok X.
Proof.
  apply (learn_embedding_returns_an_embedding samples model star3 None).
  - exact star3_symmetric.
  - exact star3_has_upper_edge.
  - simpl. lia.
  - exact I.
Defined.

Lemma learn_embedding_keeps_rows_without_upper_edge_witness :
  exists (X : ndarray) (s' : GraphFactorization),
    learn_embedding samples model star3 None = (Ok (Some X), s')
    /\ get X 1 0 = ((1 # 100) * samples 1)%Q
    /\ get X 2 0 = ((1 # 100) * samples 2)%Q.
Proof.
  destruct (learn_embedding samples model star3 None) as [[[X|]|e] s'] eqn:E.
  - exists X, s'. split; [reflexivity|].
    destruct (learn_embedding_keeps_rows_without_upper_edge samples model s'
                star3 None X E I) as [H _].
    split.
    + apply (H 1 0); simpl; try lia.
      intros j H1 H2. simpl in H2.
      destruct j as [|[|[|j]]]; try lia; reflexivity.
    + apply (H 2 0); simpl; try lia.
      intros j H1 H2. simpl in H2. lia.
  - vm_compute in E. discriminate E.
  - vm_compute in E. discriminate E.
Defined.

(** X14. After a call of [learn_embedding] that returns a matrix,
    that matrix has N rows and d columns, [get_embedding] returns it, the
    graph passed the symmetry test and exactly N * d random numbers were
    drawn; after a call that returns [None], the graph failed the test,
    [get_embedding] answers as it did before the call and no random
    number was drawn. *)
Theorem get_embedding_after_learn_embedding (gauss : nat -> Q)
    (self s' : GraphFactorization) (g : DiGraph)
    (prevEmbed : option embedding) (r : option ndarray) :
  learn_embedding gauss self g prevEmbed = (Ok r, s') ->
  match r with
  | Some X =>
      shape0 X = number_of_nodes g /\ shape1 X = _d self
      /\ get_embedding s' = Ok X
      /\ symmetry_test_passes g = true
      /\ random_state s' = random_state self + number_of_nodes g * _d self
  | None =>
      symmetry_test_passes g = false
      /\ get_embedding s' = get_embedding self
      /\ random_state s' = random_state self
  end.
Proof.
  intros H. destruct r as [X|].
  - destruct (learn_embedding_returns _ _ _ _ _ _ H)
      as [Hs [X0 [s0 [prev [out [Hinit [L [HX [_ Hr]]]]]]]]].
    destruct (initialize_result _ _ _ _ _ _ _ Hinit) as [S0 [S1 _]].
    destruct (iter_loop_frame _ _ _ _ _ _ _ _ _ _ _ L) as [T0 [T1 _]].
    simpl in S0.
    split; [congruence|]. split; [congruence|].
    split; [unfold get_embedding; now rewrite HX|].
    split; [exact Hs|exact Hr].
  - unfold learn_embedding in H. rewrite symmetry_test in H. cbv zeta in H.
    fold (symmetry_test_passes g) in H.
    destruct (symmetry_test_passes g).
    + destruct (initialize gauss self (transform_DiGraph_to_adj g) prevEmbed)
        as [[[X0 prev]|e] s0]; [|discriminate H].
      unfold optimize in H.
      destruct (_num_iter s0) as [k|]; [|discriminate H].
      destruct (iter_loop _ _ _ _ _ _ _ _) as [[[[]|e] X1] out];
        discriminate H.
    + inversion H; subst. repeat split.
Qed.

Lemma get_embedding_after_learn_embedding_witness :
  symmetry_test_passes one_way = false
  /\ get_embedding (snd (learn_embedding samples model one_way None))
     = get_embedding model
  /\ random_state (snd (learn_embedding samples model one_way None))
     = random_state model.
Proof.
  exact (get_embedding_after_learn_embedding samples model
           (snd (learn_embedding samples model one_way None)) one_way None
           None eq_refl).
Defined.

(** X15. With an embedding dimension of zero, on a graph that passes
    the symmetry test and has a positive entry above the diagonal, a call
    of [learn_embedding] that has an iteration to run raises
    [IndexError]: the line that prints [delPhi[0]] indexes an empty
    vector. *)
Theorem learn_embedding_dimension_zero (gauss : nat -> Q)
    (self : GraphFactorization) (g : DiGraph)
    (prevEmbed : option embedding) :
  symmetric_within_tolerance g ->
  has_upper_edge g ->
  _d self = 0 ->
  fits (number_of_nodes g) (_d self) prevEmbed ->
  1 <= iteration_count self prevEmbed ->
  fst (learn_embedding gauss self g prevEmbed) = Raise IndexError.
Proof.
  intros Hsym He Hd F Hit.
  destruct (initialize_returns gauss self g prevEmbed F)
    as [X0 [prev [s0 Hinit]]].
  destruct (initialize_result _ _ _ _ _ _ _ Hinit)
    as [S0 [S1 [_ [_ [_ [_ [Hd0 _]]]]]]].
  simpl in S0.
  pose proof (fits_prev _ _ _ _ _ _ _ Hinit F) as Hp.
  rewrite (learn_embedding_runs_loop gauss self s0 g prevEmbed X0 prev Hsym
             Hinit).
  destruct (iteration_count self prevEmbed) as [|k]; [lia|].
  cbn [seq iter_loop].
  change (Nat.eqb (0 mod 100) 0) with true. cbv iota.
  destruct (getFVal_returns s0 g X0 prev S0) as [[[[f1 f2] f3] f] Hf].
  { destruct prev as [P|]; [|exact I].
    destruct Hp as [P0 P1]. split; lia. }
  unfold objective_line. rewrite Hf. cbn [bind].
  destruct (edge_loop_returns s0 (transform_DiGraph_to_adj g) prev
              (number_of_nodes g)
              (where_pos (transform_DiGraph_to_adj g)) Hp X0 None)
    as [X1 [l1 [E [G1 [_ N]]]]]; [congruence|exact I|].
  specialize (N (has_upper_edge_where_pos g He)).
  rewrite E.
  destruct l1 as [gr|]; [|contradiction].
  destruct G1 as [G0 _]. rewrite Hd0, Hd in G0.
  unfold del_values.
  destruct (delPhi gr) as [|a ?]; [reflexivity|discriminate G0].
Qed.

Lemma learn_embedding_dimension_zero_witness :
  fst (learn_embedding samples flat_model pair_graph None) = Raise IndexError.
Proof.
  apply learn_embedding_dimension_zero.
  - exact pair_graph_symmetric.
  - exists 0, 1. repeat split; simpl; lia.
  - reflexivity.
  - exact I.
  - simpl. lia.
Defined.

(** X16. With no iteration to run ([n_iter = 0] without a previous
    embedding, [n_iter_sub = 0] with one), [learn_embedding] returns, on
    every graph that passes the symmetry test, the matrix it was
    initialised with: nothing is optimised and nothing is raised, even on
    a graph without edges. *)
Theorem learn_embedding_without_iterations (gauss : nat -> Q)
    (self : GraphFactorization) (g : DiGraph)
    (prevEmbed : option embedding) :
  symmetric_within_tolerance g ->
  fits (number_of_nodes g) (_d self) prevEmbed ->
  iteration_count self prevEmbed = 0 ->
  exists (X : ndarray) (s' : GraphFactorization),
    learn_embedding gauss self g prevEmbed = (Ok (Some X), s')
    /\ shape0 X = number_of_nodes g /\ shape1 X = _d self
    /\ forall i j, i < number_of_nodes g -> j < _d self ->
                   get X i j = initial_entry gauss self prevEmbed i j.
Proof.
  intros Hsym F Hit.
  destruct (initialize_returns gauss self g prevEmbed F)
    as [X0 [prev [s0 Hinit]]].
  destruct (initialize_result _ _ _ _ _ _ _ Hinit) as [S0 [S1 _]].
  simpl in S0.
  rewrite (learn_embedding_runs_loop gauss self s0 g prevEmbed X0 prev Hsym
             Hinit).
  rewrite Hit. simpl.
  eexists. eexists. split; [reflexivity|].
  split; [exact S0|]. split; [exact S1|].
  intros i j Hi Hj.
  now apply (initial_matrix_entry gauss self s0 g prevEmbed X0 prev).
Qed.

Lemma learn_embedding_without_iterations_witness :
  exists (X : ndarray) (s' : GraphFactorization),
    learn_embedding samples idle_model edgeless None = (Ok (Some X), s')
    /\ shape0 X = 2 /\ shape1 X = 1
    /\ forall i j, i < 2 -> j < 1 ->
                   get X i j = initial_entry samples idle_model None i j.
Proof.
  apply (learn_embedding_without_iterations samples idle_model edgeless None).
  - exact edgeless_symmetric.
  - exact I.
  - reflexivity.
Defined.

End GraphFacRestFacts.

(** ** Facts about the accessors of graphFac_dynamic.py *)

Module GraphFacAccessFacts.

Import Np GraphFac GraphFacSpec GraphFacExamples NpFacts GraphFacFacts
  GraphFacRest GraphFacRestSpec GraphFacRestExamples GraphFacRestFacts.

Local Open Scope nat_scope.

Lemma Qmult_comm_eq (x y : Q) : (x * y)%Q = (y * x)%Q.
Proof.
  unfold Qmult. f_equal; [apply Z.mul_comm|apply Pos.mul_comm].
Qed.

Lemma inner_comm (X : ndarray) (a b : nat) : inner X a b = inner X b a.
Proof.
  unfold inner. f_equal. apply map_ext. intros k. apply Qmult_comm_eq.
Qed.

Lemma combine_map_map (A : Type) (f g : A -> Q) (l : list A) :
  map (fun xy : Q * Q => (fst xy * snd xy)%Q) (combine (map f l) (map g l))
  = map (fun k => (f k * g k)%Q) l.
Proof.
  induction l as [|x l IH]; simpl; [reflexivity|]. now rewrite IH.
Qed.

Lemma vdot_rows (X : ndarray) (a b : nat) :
  vdot (row X a) (row X b) = Ok (inner X a b).
Proof.
  unfold vdot. rewrite !row_length, Nat.eqb_refl.
  unfold row, inner. now rewrite combine_map_map.
Qed.

Lemma row_at_valid (X : ndarray) (i : Z) :
  valid_index (shape0 X) i ->
  row_at X i = Ok (row X (wrapped (shape0 X) i)).
Proof.
  unfold valid_index, row_at, wrapped. cbv zeta. intros H.
  destruct (i <? 0)%Z eqn:E.
  - apply Z.ltb_lt in E.
    rewrite (proj2 (Z.ltb_ge (i + Z.of_nat (shape0 X)) 0)) by lia.
    rewrite (proj2 (Z.leb_gt (Z.of_nat (shape0 X))
                      (i + Z.of_nat (shape0 X)))) by lia.
    cbn [orb]. do 3 f_equal.
    rewrite <- (Z.mod_add i 1 (Z.of_nat (shape0 X))) by lia.
    rewrite Z.mul_1_l. symmetry. apply Z.mod_small. lia.
  - apply Z.ltb_ge in E.
    rewrite (proj2 (Z.ltb_ge i 0)) by lia.
    rewrite (proj2 (Z.leb_gt (Z.of_nat (shape0 X)) i)) by lia.
    cbn [orb]. do 3 f_equal. symmetry. apply Z.mod_small. lia.
Qed.

Lemma row_at_invalid (X : ndarray) (i : Z) :
  ~ valid_index (shape0 X) i -> row_at X i = Raise IndexError.
Proof.
  unfold valid_index, row_at. cbv zeta. intros H.
  destruct (i <? 0)%Z eqn:E.
  - apply Z.ltb_lt in E.
    now rewrite (proj2 (Z.ltb_lt (i + Z.of_nat (shape0 X)) 0)) by lia.
  - apply Z.ltb_ge in E.
    rewrite (proj2 (Z.ltb_ge i 0)) by lia.
    now rewrite (proj2 (Z.leb_le (Z.of_nat (shape0 X)) i)) by lia.
Qed.

Lemma valid_index_dec (n : nat) (i : Z) :
  valid_index n i \/ ~ valid_index n i.
Proof. unfold valid_index. lia. Qed.

Lemma edge_weight_valid (self : GraphFactorization) (X : ndarray) (i j : Z) :
  _X self = Some X ->
  valid_index (shape0 X) i -> valid_index (shape0 X) j ->
  get_edge_weight self i j
  = Ok (inner X (wrapped (shape0 X) i) (wrapped (shape0 X) j)).
Proof.
  intros HX Hi Hj. unfold get_edge_weight. rewrite HX.
  rewrite (row_at_valid X i Hi), (row_at_valid X j Hj). cbn [bind].
  apply vdot_rows.
Qed.

Lemma edge_weight_invalid (self : GraphFactorization) (X : ndarray)
    (i j : Z) :
  _X self = Some X ->
  ~ (valid_index (shape0 X) i /\ valid_index (shape0 X) j) ->
  get_edge_weight self i j = Raise IndexError.
Proof.
  intros HX H. unfold get_edge_weight. rewrite HX.
  destruct (valid_index_dec (shape0 X) i) as [Hi|Hi].
  - rewrite (row_at_valid X i Hi). cbn [bind].
    rewrite row_at_invalid; [reflexivity|]. intros Hj. apply H. now split.
  - now rewrite (row_at_invalid X i Hi).
Qed.

Lemma wrapped_nat (n i : nat) : i < n -> wrapped n (Z.of_nat i) = i.
Proof.
  intros H. unfold wrapped. rewrite Z.mod_small by lia. apply Nat2Z.id.
Qed.

Lemma edge_weight_nat (self : GraphFactorization) (X : ndarray) (i j : nat) :
  _X self = Some X -> i < shape0 X -> j < shape0 X ->
  get_edge_weight self (Z.of_nat i) (Z.of_nat j) = Ok (inner X i j).
Proof.
  intros HX Hi Hj.
  rewrite (edge_weight_valid self X _ _ HX)
    by (unfold valid_index; lia).
  now rewrite !wrapped_nat.
Qed.

(** X17. [get_edge_weight(i, j)] and [get_edge_weight(j, i)] have the
    same outcome, the same value or the same exception, for all Python
    integers [i] and [j] and every state of the object. *)
Theorem get_edge_weight_symmetric (self : GraphFactorization) (i j : Z) :
  get_edge_weight self i j = get_edge_weight self j i.
Proof.
  destruct (_X self) as [X|] eqn:HX.
  - destruct (valid_index_dec (shape0 X) i) as [Hi|Hi];
      destruct (valid_index_dec (shape0 X) j) as [Hj|Hj].
    + rewrite (edge_weight_valid self X i j HX Hi Hj).
      rewrite (edge_weight_valid self X j i HX Hj Hi).
      f_equal. apply inner_comm.
    + rewrite !(edge_weight_invalid self X) by tauto. reflexivity.
    + rewrite !(edge_weight_invalid self X) by tauto. reflexivity.
    + rewrite !(edge_weight_invalid self X) by tauto. reflexivity.
  - unfold get_edge_weight. now rewrite HX.
Qed.

(** X18. On an object whose [_X] is a matrix of [n] rows,
    [get_edge_weight(i, j)] returns the inner product of the two rows
    when both indices lie in [-n, n), a negative index counting from the
    end, and raises [IndexError] otherwise; it raises nothing else. *)
Theorem get_edge_weight_value (self : GraphFactorization) (X : ndarray)
    (i j : Z) :
  _X self = Some X ->
  (valid_index (shape0 X) i /\ valid_index (shape0 X) j ->
   get_edge_weight self i j
   = Ok (inner X (wrapped (shape0 X) i) (wrapped (shape0 X) j)))
  /\ (~ (valid_index (shape0 X) i /\ valid_index (shape0 X) j) ->
      get_edge_weight self i j = Raise IndexError).
Proof.
  intros HX. split.
  - intros [Hi Hj]. now apply edge_weight_valid.
  - now apply edge_weight_invalid.
Qed.

Lemma get_edge_weight_value_witness :
  get_edge_weight (set_X three_rows model) (-1) 1
  = Ok (inner three_rows 2 1)
  /\ get_edge_weight (set_X three_rows model) 3 1 = Raise IndexError.
Proof.
  split.
  - apply (proj1 (get_edge_weight_value (set_X three_rows model) three_rows
                    (-1) 1 eq_refl)).
    unfold valid_index. simpl. lia.
  - apply (proj2 (get_edge_weight_value (set_X three_rows model) three_rows
                    3 1 eq_refl)).
    unfold valid_index. simpl. lia.
Defined.

(** *** The reconstruction *)

Lemma get_setitem2 (M : ndarray) (i j : nat) (v : Q) (a b : nat) :
  a < shape0 M -> b < shape1 M ->
  get (setitem2 M i j v) a b
  = if Nat.eqb a i && Nat.eqb b j then v else get M a b.
Proof.
  intros Ha Hb. unfold setitem2. now rewrite get_tabulate.
Qed.

Lemma fill_row_spec (self : GraphFactorization) (X : ndarray) (n v_i : nat)
    (cols : list nat) :
  _X self = Some X -> v_i < shape0 X ->
  (forall c, In c cols -> c < shape0 X) ->
  forall adj : ndarray,
    shape0 adj = n -> shape1 adj = n ->
    exists adj' : ndarray,
      fill_row self v_i cols adj = Ok adj'
      /\ shape0 adj' = n /\ shape1 adj' = n
      /\ forall a b, a < n -> b < n ->
           get adj' a b
           = if Nat.eqb a v_i && existsb (Nat.eqb b) cols
                && negb (Nat.eqb a b)
             then inner X a b else get adj a b.
Proof.
  intros HX Hv. induction cols as [|c cols IH]; intros Hc adj S0 S1.
  - exists adj. repeat split; try assumption.
    intros a b _ _. cbn [existsb]. now rewrite andb_false_r.
  - cbn [fill_row].
    assert (Hc' : forall c', In c' cols -> c' < shape0 X)
      by (intros c' H'; apply Hc; now right).
    destruct (Nat.eqb_spec v_i c) as [E|E].
    + destruct (IH Hc' adj S0 S1) as [adj' [F [T0 [T1 G]]]].
      exists adj'. repeat split; try assumption.
      intros a b Ha Hb. rewrite (G a b Ha Hb). cbn [existsb].
      destruct (Nat.eqb_spec a v_i) as [Ea|Ea]; [|reflexivity].
      destruct (Nat.eqb_spec b c) as [Eb|Eb]; [|reflexivity].
      subst. rewrite Nat.eqb_refl. cbn [orb andb negb].
      now rewrite andb_false_r.
    + rewrite (edge_weight_nat self X v_i c HX Hv)
        by (apply Hc; now left).
      cbn [bind].
      destruct (IH Hc' (setitem2 adj v_i c (inner X v_i c)))
        as [adj' [F [T0 [T1 G]]]]; [exact S0|exact S1|].
      exists adj'. repeat split; try assumption.
      intros a b Ha Hb. rewrite (G a b Ha Hb).
      rewrite get_setitem2 by lia. cbn [existsb].
      destruct (Nat.eqb_spec a v_i) as [Ea|Ea]; [|reflexivity].
      subst a.
      destruct (existsb (Nat.eqb b) cols) eqn:Ex;
        destruct (Nat.eqb_spec b c) as [Eb|Eb];
        destruct (Nat.eqb_spec v_i b) as [Ec|Ec];
        cbn [orb andb negb]; subst; try reflexivity; contradiction.
Qed.

Lemma existsb_seq (b n : nat) : b < n -> existsb (Nat.eqb b) (seq 0 n) = true.
Proof.
  intros H. apply existsb_exists. exists b. split.
  - apply in_seq. lia.
  - apply Nat.eqb_refl.
Qed.

Lemma fill_rows_spec (self : GraphFactorization) (X : ndarray) (n : nat)
    (rows : list nat) :
  _X self = Some X -> n <= shape0 X ->
  (forall r, In r rows -> r < n) ->
  forall adj : ndarray,
    shape0 adj = n -> shape1 adj = n ->
    exists adj' : ndarray,
      fill_rows self n rows adj = Ok adj'
      /\ shape0 adj' = n /\ shape1 adj' = n
      /\ forall a b, a < n -> b < n ->
           get adj' a b
           = if existsb (Nat.eqb a) rows && negb (Nat.eqb a b)
             then inner X a b else get adj a b.
Proof.
  intros HX Hn. induction rows as [|r rows IH]; intros Hr adj S0 S1.
  - exists adj. repeat split; assumption.
  - cbn [fill_rows].
    destruct (fill_row_spec self X n r (seq 0 n) HX) with (adj := adj)
      as [adj1 [F1 [T0 [T1 G1]]]]; try assumption.
    { specialize (Hr r (or_introl eq_refl)). lia. }
    { intros c Hc. apply in_seq in Hc. lia. }
    rewrite F1. cbn [bind].
    destruct (IH (fun r' H' => Hr r' (or_intror H')) adj1 T0 T1)
      as [adj' [F [U0 [U1 G]]]].
    exists adj'. repeat split; try assumption.
    intros a b Ha Hb. rewrite (G a b Ha Hb), (G1 a b Ha Hb).
    rewrite (existsb_seq b n Hb). cbn [existsb].
    destruct (Nat.eqb_spec a r) as [Ea|Ea];
      destruct (existsb (Nat.eqb a) rows);
      destruct (negb (Nat.eqb a b)); reflexivity.
Qed.

Lemma reconstruct_spec (self : GraphFactorization) (X : ndarray) (n : nat) :
  _X self = Some X -> _node_num self = Some n -> n <= shape0 X ->
  exists A : ndarray,
    get_reconstructed_adj self None = (Ok A, self)
    /\ shape0 A = n /\ shape1 A = n
    /\ forall i j, i < n -> j < n -> get A i j = gram_entry X i j.
Proof.
  intros HX HN Hn. unfold get_reconstructed_adj. rewrite HN.
  destruct (fill_rows_spec self X n (seq 0 n) HX Hn) with
    (adj := tabulate n n (fun _ _ => 0%Q))
    as [A [F [T0 [T1 G]]]]; try reflexivity.
  { intros r Hr. apply in_seq in Hr. lia. }
  exists A. rewrite F. repeat split; try assumption.
  intros i j Hi Hj. rewrite (G i j Hi Hj), existsb_seq by exact Hi.
  unfold gram_entry. rewrite get_tabulate by assumption.
  now destruct (Nat.eqb i j).
Qed.

(** X19. [get_reconstructed_adj(X)] with a matrix [X] of [n] rows
    raises nothing and returns an [n] x [n] matrix that is zero on the
    diagonal, holds the inner product of rows [i] and [j] of [X]
    elsewhere, and is symmetric; it leaves [X] in [self._X] and [n] in
    [self._node_num]. *)
Theorem get_reconstructed_adj_of_matrix (self : GraphFactorization)
    (X : ndarray) :
  exists (A : ndarray) (s' : GraphFactorization),
    get_reconstructed_adj self (Some X) = (Ok A, s')
    /\ _X s' = Some X /\ _node_num s' = Some (shape0 X)
    /\ shape0 A = shape0 X /\ shape1 A = shape0 X
    /\ (forall i j, i < shape0 X -> j < shape0 X ->
                    get A i j = gram_entry X i j)
    /\ (forall i j, i < shape0 X -> j < shape0 X ->
                    get A i j = get A j i).
Proof.
  destruct (reconstruct_spec (set_node_num (shape0 X) (set_X X self)) X
              (shape0 X) eq_refl eq_refl (Nat.le_refl _))
    as [A [F [T0 [T1 G]]]].
  exists A, (set_node_num (shape0 X) (set_X X self)).
  split; [exact F|]. repeat split; try assumption.
  intros i j Hi Hj. rewrite (G i j Hi Hj), (G j i Hj Hi).
  unfold gram_entry. rewrite (Nat.eqb_sym j i).
  destruct (Nat.eqb i j); [reflexivity|apply inner_comm].
Qed.

(** X20. After a call of [learn_embedding] that returned a matrix [X],
    [get_reconstructed_adj()] without argument returns the N x N matrix
    with zero diagonal and the inner products of the rows of [X]
    elsewhere, and changes nothing in the object; after a call that
    returned [None] on an object that never ran an embedding, it raises
    [AttributeError]. *)
Theorem get_reconstructed_adj_after_learn_embedding (gauss : nat -> Q)
    (self s' : GraphFactorization) (g : DiGraph)
    (prevEmbed : option embedding) (r : option ndarray) :
  learn_embedding gauss self g prevEmbed = (Ok r, s') ->
  match r with
  | Some X =>
      exists A : ndarray,
        get_reconstructed_adj s' None = (Ok A, s')
        /\ shape0 A = number_of_nodes g /\ shape1 A = number_of_nodes g
        /\ forall i j, i < number_of_nodes g -> j < number_of_nodes g ->
                       get A i j = gram_entry X i j
  | None =>
      _node_num self = None ->
      fst (get_reconstructed_adj s' None) = Raise AttributeError
  end.
Proof.
  intros H. destruct r as [X|].
  - destruct (learn_embedding_returns _ _ _ _ _ _ H)
      as [_ [X0 [s0 [prev [out [Hinit [L [HX [HN _]]]]]]]]].
    destruct (initialize_result _ _ _ _ _ _ _ Hinit) as [S0 _].
    destruct (iter_loop_frame _ _ _ _ _ _ _ _ _ _ _ L) as [T0 _].
    simpl in S0.
    apply (reconstruct_spec s' X (number_of_nodes g) HX HN). lia.
  - intros HN. unfold learn_embedding in H. rewrite symmetry_test in H.
    cbv zeta in H.
    destruct (forallb _ _).
    + destruct (initialize gauss self (transform_DiGraph_to_adj g) prevEmbed)
        as [[[X0 prev]|e] s0]; [|discriminate H].
      unfold optimize in H.
      destruct (_num_iter s0) as [k|]; [|discriminate H].
      destruct (iter_loop _ _ _ _ _ _ _ _) as [[[[]|e] X1] out];
        discriminate H.
    + inversion H; subst. unfold get_reconstructed_adj. simpl.
      now rewrite HN.
Qed.

Lemma get_reconstructed_adj_after_learn_embedding_witness :
  fst (get_reconstructed_adj
         (snd (learn_embedding samples model one_way None)) None)
  = Raise AttributeError.
Proof.
  exact (get_reconstructed_adj_after_learn_embedding samples model
           (snd (learn_embedding samples model one_way None)) one_way None
           None eq_refl eq_refl).
Defined.

End GraphFacAccessFacts.

(** ** Facts about the driver [learn_embeddings] *)

Module GraphFacDriverFacts.

Import Np GraphFac GraphFacSpec GraphFacExamples NpFacts GraphFacFacts
  GraphFacRest GraphFacRestSpec GraphFacRestExamples GraphFacRestFacts.

Local Open Scope nat_scope.

Section Driver.

Variable inverse_entries : ndarray -> result (nat -> nat -> Q).
Variable gauss : nat -> Q.

Lemma getitem_nat_inv (A : Type) (l : list A) (i : nat) (x : A) :
  Py.getitem l (Z.of_nat i) = Ok x -> nth_error l i = Some x.
Proof.
  unfold Py.getitem. cbv zeta.
  rewrite (proj2 (Z.ltb_ge (Z.of_nat i) 0)) by lia.
  rewrite (proj2 (Z.ltb_ge (Z.of_nat i) 0)) by lia.
  rewrite Nat2Z.id.
  destruct (nth_error l i); [intros H; now inversion H|discriminate].
Qed.

Lemma getitem_pred_inv (A : Type) (l : list A) (i : nat) (x : A) :
  1 <= i -> Py.getitem l (Z.of_nat i - 1) = Ok x ->
  nth_error l (i - 1) = Some x.
Proof.
  intros Hi. replace (Z.of_nat i - 1)%Z with (Z.of_nat (i - 1)) by lia.
  apply getitem_nat_inv.
Qed.

Lemma step_prepare_inv (self s1 : GraphFactorization)
    (graphs : list DiGraph) (i : nat) (gi : DiGraph) (prev : embedding) :
  1 <= i ->
  step_prepare inverse_entries self graphs i = (Ok (gi, prev), s1) ->
  nth_error graphs i = Some gi
  /\ (exists gp ks,
        nth_error graphs (i - 1) = Some gp
        /\ step_kappas inverse_entries self gi gp = Ok ks)
  /\ (exists Xs, _Xs self = Some Xs /\ nth_error Xs (i - 1) = Some prev)
  /\ _Xs s1 = _Xs self /\ _d s1 = _d self.
Proof.
  intros Hi. unfold step_prepare.
  destruct (Py.getitem graphs (Z.of_nat i)) as [g|e] eqn:E1;
    [|intros H; discriminate H].
  destruct (Py.getitem graphs (Z.of_nat i - 1)) as [gp|e] eqn:E2;
    [|intros H; discriminate H].
  destruct (step_kappas inverse_entries self g gp) as [ks|e] eqn:E3;
    [|intros H; discriminate H].
  simpl _Xs.
  destruct (_Xs self) as [Xs|] eqn:EX; [|intros H; discriminate H].
  destruct (Py.getitem Xs (Z.of_nat i - 1)) as [p|e] eqn:E4;
    [|intros H; discriminate H].
  intros H. inversion H; subst. simpl.
  split; [now apply getitem_nat_inv|].
  split; [exists gp, ks; split;
          [now apply getitem_pred_inv|exact E3]|].
  split; [exists Xs; split; [reflexivity|now apply getitem_pred_inv]|].
  split; [exact EX|reflexivity].
Qed.

Lemma learn_embedding_shape (self s' : GraphFactorization) (g : DiGraph)
    (prevEmbed : option embedding) (X : ndarray) :
  learn_embedding gauss self g prevEmbed = (Ok (Some X), s') ->
  symmetry_test_passes g = true
  /\ shape0 X = number_of_nodes g /\ shape1 X = _d self.
Proof.
  intros H.
  destruct (learn_embedding_returns _ _ _ _ _ _ H)
    as [Hs [X0 [s0 [prev [out [Hinit [L _]]]]]]].
  destruct (initialize_result _ _ _ _ _ _ _ Hinit) as [S0 [S1 _]].
  destruct (iter_loop_frame _ _ _ _ _ _ _ _ _ _ _ L) as [T0 [T1 _]].
  simpl in S0. repeat split; congruence.
Qed.

Lemma learn_embedding_none (self s' : GraphFactorization) (g : DiGraph)
    (prevEmbed : option embedding) :
  learn_embedding gauss self g prevEmbed = (Ok None, s') ->
  symmetry_test_passes g = false.
Proof.
  unfold learn_embedding. rewrite symmetry_test. cbv zeta.
  fold (symmetry_test_passes g).
  destruct (symmetry_test_passes g); [|reflexivity].
  destruct (initialize gauss self (transform_DiGraph_to_adj g) prevEmbed)
    as [[[X0 prev]|e] s0]; [|intros H; discriminate H].
  unfold optimize.
  destruct (_num_iter s0) as [k|]; [|intros H; discriminate H].
  destruct (iter_loop _ _ _ _ _ _ _ _) as [[[[]|e] X1] out];
    intros H; discriminate H.
Qed.

Lemma learn_embedding_entry (self s' : GraphFactorization) (g : DiGraph)
    (prevEmbed : option embedding) (r : option ndarray) :
  learn_embedding gauss self g prevEmbed = (Ok r, s') ->
  entry_matches (_d self) g (np_copy r).
Proof.
  intros H. destruct r as [X|]; simpl.
  - destruct (learn_embedding_shape _ _ _ _ _ H) as [A [B C]].
    repeat split; assumption.
  - exact (learn_embedding_none _ _ _ _ H).
Qed.

(** After a snapshot that failed the symmetry test, a call that
    returns has failed the test as well: on a symmetric graph the warm
    start reads [prevEmbed.shape[0]] of a zero-dimensional array. *)
Lemma learn_embedding_after_none (self s' : GraphFactorization)
    (g : DiGraph) (r : option ndarray) :
  learn_embedding gauss self g (Some ObjNone) = (Ok r, s') -> r = None.
Proof.
  unfold learn_embedding. rewrite symmetry_test. cbv zeta.
  destruct (forallb _ _).
  - unfold initialize. intros H. discriminate H.
  - intros H. now inversion H.
Qed.

Lemma firstn_snoc_nth (A : Type) (l : list A) (k : nat) (x : A) :
  nth_error l k = Some x -> firstn (S k) l = firstn k l ++ [x].
Proof.
  revert k. induction l as [|y l IH]; intros [|k] H; simpl in *;
    try discriminate.
  - now inversion H.
  - f_equal. now apply IH.
Qed.

Lemma none_chain_snoc (Xs : list embedding) (x : embedding) :
  none_chain Xs ->
  (nth_error Xs (length Xs - 1) = Some ObjNone -> x = ObjNone) ->
  none_chain (Xs ++ [x]).
Proof.
  intros C L t Ht Hlt. rewrite length_app in Hlt. simpl in Hlt.
  rewrite nth_error_app1 in Ht by lia.
  destruct (Nat.eq_dec (S t) (length Xs)) as [E|E].
  - rewrite nth_error_app2 by lia.
    replace (S t - length Xs) with 0 by lia. simpl. f_equal.
    apply L. replace (length Xs - 1) with t by lia. exact Ht.
  - rewrite nth_error_app1 by lia. apply C; [exact Ht|lia].
Qed.

Lemma none_chain_from (Xs : list embedding) (t t' : nat) :
  none_chain Xs -> nth_error Xs t = Some ObjNone ->
  t <= t' -> t' < length Xs -> nth_error Xs t' = Some ObjNone.
Proof.
  intros C Ht Hle. induction Hle as [|t' Hle IH]; intros Hlt.
  - exact Ht.
  - apply C; [apply IH; lia|exact Hlt].
Qed.

(** The invariant of the loop over the snapshots. *)
Lemma steps_entries (graphs : list DiGraph) (d m : nat) :
  forall (k : nat) (self self' : GraphFactorization) (Xs : list embedding),
    1 <= k -> _d self = d -> _Xs self = Some Xs ->
    Forall2 (entry_matches d) (firstn k graphs) Xs -> length Xs = k ->
    none_chain Xs ->
    steps inverse_entries gauss self graphs (seq k m) = (Ok tt, self') ->
    exists Xs',
      _Xs self' = Some Xs'
      /\ Forall2 (entry_matches d) (firstn (k + m) graphs) Xs'
      /\ length Xs' = k + m /\ none_chain Xs'.
Proof.
  induction m as [|m IH]; intros k self self' Xs Hk Hd HXs F Hlen C H;
    cbn [seq steps] in H.
  - inversion H; subst. exists Xs. rewrite Nat.add_0_r. now repeat split.
  - destruct (step_prepare inverse_entries self graphs k)
      as [[[gi prev]|e] s1] eqn:E1; [|discriminate H].
    destruct (step_prepare_inv _ _ _ _ _ _ Hk E1)
      as [Hgi [_ [[Xs0 [HX0 Hprev]] [HX1 Hd1]]]].
    assert (Xs0 = Xs) by congruence. subst Xs0.
    pose proof (learn_embedding_frame gauss s1 gi (Some prev)) as Fr.
    destruct (learn_embedding gauss s1 gi (Some prev)) as [[r|e] s2] eqn:E2;
      [|discriminate H].
    simpl in Fr.
    destruct Fr as [Fd [_ [_ [_ [_ [_ [_ [_ FXs]]]]]]]].
    assert (HX2 : _Xs s2 = Some Xs) by congruence.
    pose proof (learn_embedding_entry _ _ _ _ _ E2) as M.
    rewrite Hd1, Hd in M.
    destruct (IH (S k) (append_Xs r s2) self' (Xs ++ [np_copy r]))
      as [Xs' [A [B [Cn D]]]].
    + lia.
    + unfold append_Xs. rewrite HX2. simpl. congruence.
    + unfold append_Xs. rewrite HX2. reflexivity.
    + rewrite (firstn_snoc_nth _ graphs k gi Hgi).
      apply Forall2_app; [exact F|]. constructor; [exact M|constructor].
    + rewrite length_app. simpl. lia.
    + apply none_chain_snoc; [exact C|].
      rewrite Hlen. intros Hl.
      assert (prev = ObjNone) by congruence. subst prev.
      now rewrite (learn_embedding_after_none _ _ _ _ E2).
    + exact H.
    + exists Xs'. replace (k + S m) with (S k + m) by lia.
      now repeat split.
Qed.

Lemma learn_embeddings_inv (self s' : GraphFactorization)
    (graphs : list DiGraph) (prevStepInfo : bool) (Xs : list embedding) :
  learn_embeddings inverse_entries gauss self graphs prevStepInfo
    = (Ok Xs, s') ->
  _Xs s' = Some Xs
  /\ Forall2 (entry_matches (_d self)) graphs Xs
  /\ none_chain Xs.
Proof.
  unfold learn_embeddings.
  destruct (Py.getitem graphs 0) as [g0|e] eqn:E0;
    [|intros H; discriminate H].
  apply (getitem_nat_inv _ graphs 0 g0) in E0.
  set (s0 := set_kappas (KScalar (_kappa self)) self).
  assert (First : forall p r s1,
             learn_embedding gauss s0 g0 p = (Ok r, s1) ->
             forall Ys s2,
               match steps inverse_entries gauss (set_Xs [np_copy r] s1)
                       graphs (seq 1 (length graphs - 1)) with
               | (Raise e, s) => (Raise e, s)
               | (Ok _, s) =>
                   match _Xs s with
                   | None => (Raise AttributeError, s)
                   | Some Xs => (Ok Xs, s)
                   end
               end = (Ok Ys, s2) ->
               _Xs s2 = Some Ys
               /\ Forall2 (entry_matches (_d self)) graphs Ys
               /\ none_chain Ys).
  { intros p r s1 E1 Ys s2 H.
    destruct (steps inverse_entries gauss (set_Xs [np_copy r] s1) graphs
                (seq 1 (length graphs - 1))) as [[[]|e] s3] eqn:E3;
      [|discriminate H].
    pose proof (learn_embedding_frame gauss s0 g0 p) as Fr.
    rewrite E1 in Fr. simpl in Fr. destruct Fr as [Fd _].
    pose proof (learn_embedding_entry _ _ _ _ _ E1) as M.
    destruct (steps_entries graphs (_d self) (length graphs - 1) 1
                (set_Xs [np_copy r] s1) s3 [np_copy r])
      as [Xs' [A [B [Cn D]]]].
    - lia.
    - simpl. exact Fd.
    - reflexivity.
    - destruct graphs as [|g gs]; [discriminate E0|].
      simpl in E0. inversion E0; subst. simpl.
      constructor; [exact M|]. destruct gs; constructor.
    - reflexivity.
    - intros t Ht Hlt. simpl in Hlt. lia.
    - exact E3.
    - rewrite A in H. inversion H; subst.
      split; [exact A|]. split; [|exact D].
      replace (1 + (length graphs - 1)) with (length graphs) in B.
      + now rewrite firstn_all in B.
      + destruct graphs; [discriminate E0|simpl; lia]. }
  destruct prevStepInfo.
  - fold s0. destruct (_initEmbed s0) as [E|]; [|intros H; discriminate H].
    destruct (learn_embedding gauss s0 g0 (Some (Mat E))) as [[r|e] s1] eqn:E1;
      [|intros H; discriminate H].
    intros H. exact (First _ _ _ E1 _ _ H).
  - fold s0.
    destruct (learn_embedding gauss s0 g0 None) as [[r|e] s1] eqn:E1;
      [|intros H; discriminate H].
    intros H. exact (First _ _ _ E1 _ _ H).
Qed.

Lemma Forall2_nth_error_l (A B : Type) (R : A -> B -> Prop)
    (l : list A) (l' : list B) :
  Forall2 R l l' ->
  forall t a, nth_error l t = Some a ->
              exists b, nth_error l' t = Some b /\ R a b.
Proof.
  induction 1 as [|x y l l' HR HF IH]; intros [|t] a Ht; simpl in *;
    try discriminate.
  - inversion Ht; subst. now exists y.
  - now apply IH.
Qed.

(** X21. When [learn_embeddings] returns, the list it returns is what
    [get_embeddings] then returns, and it pairs off with the snapshots:
    the entry of a snapshot that passed the symmetry test is a matrix of
    N rows and d columns, N the number of nodes of that snapshot; the
    entry of a snapshot that failed the test is the array of [None]. *)
Theorem learn_embeddings_entries (self s' : GraphFactorization)
    (graphs : list DiGraph) (prevStepInfo : bool) (Xs : list embedding) :
  learn_embeddings inverse_entries gauss self graphs prevStepInfo
    = (Ok Xs, s') ->
  get_embeddings s' = Ok Xs
  /\ Forall2 (entry_matches (_d self)) graphs Xs.
Proof.
  intros H. destruct (learn_embeddings_inv _ _ _ _ _ H) as [A [B _]].
  split; [|exact B]. unfold get_embeddings. now rewrite A.
Qed.

(** X22. A run of [learn_embeddings] that returns has embedded no
    snapshot after one that failed the symmetry test: every snapshot
    after a failing one fails the test as well.  (On a later snapshot
    that passes, the warm start raises on the array of [None].) *)
Theorem learn_embeddings_none_is_final (self s' : GraphFactorization)
    (graphs : list DiGraph) (prevStepInfo : bool) (Xs : list embedding)
    (t t' : nat) (g g' : DiGraph) :
  learn_embeddings inverse_entries gauss self graphs prevStepInfo
    = (Ok Xs, s') ->
  t <= t' ->
  nth_error graphs t = Some g -> nth_error graphs t' = Some g' ->
  symmetry_test_passes g = false ->
  symmetry_test_passes g' = false.
Proof.
  intros H Hle Hg Hg' Hs.
  destruct (learn_embeddings_inv _ _ _ _ _ H) as [_ [F C]].
  destruct (Forall2_nth_error_l _ _ _ _ _ F t g Hg) as [x [Hx Mx]].
  destruct (Forall2_nth_error_l _ _ _ _ _ F t' g' Hg') as [x' [Hx' Mx']].
  assert (x = ObjNone).
  { destruct x as [|M]; [reflexivity|].
    destruct Mx as [Mx _]. congruence. }
  subst x.
  assert (Hlt : t' < length Xs).
  { apply nth_error_Some. congruence. }
  rewrite (none_chain_from Xs t t' C Hx Hle Hlt) in Hx'.
  inversion Hx'; subst. exact Mx'.
Qed.

Lemma steps_kappas_ok (graphs : list DiGraph) (indices : list nat) :
  forall (self self' : GraphFactorization),
    (forall i, In i indices -> 1 <= i) ->
    steps inverse_entries gauss self graphs indices = (Ok tt, self') ->
    forall i, In i indices ->
      exists (s : GraphFactorization) (gi gp : DiGraph) (ks : list Q),
        nth_error graphs i = Some gi
        /\ nth_error graphs (i - 1) = Some gp
        /\ step_kappas inverse_entries s gi gp = Ok ks.
Proof.
  induction indices as [|i0 rest IH]; intros self self' Hpos H i Hi;
    [destruct Hi|].
  cbn [steps] in H.
  destruct (step_prepare inverse_entries self graphs i0)
    as [[[gi prev]|e] s1] eqn:E1; [|discriminate H].
  destruct (learn_embedding gauss s1 gi (Some prev)) as [[r|e] s2] eqn:E2;
    [|discriminate H].
  destruct Hi as [Hi|Hi].
  - subst i0.
    destruct (step_prepare_inv _ _ _ _ _ _ (Hpos i (or_introl eq_refl)) E1)
      as [Hgi [[gp [ks [Hgp Hk]]] _]].
    exists self, gi, gp, ks. now repeat split.
  - apply (IH (append_Xs r s2) self'
              (fun j Hj => Hpos j (or_intror Hj)) H i Hi).
Qed.

(** X23. A run of [learn_embeddings] that returns went over snapshots
    of one size: two consecutive snapshots have the same number of
    nodes, unless one of the two has a single node.  (Any other change
    of size raises at [X_curr - X_prev].) *)
Theorem learn_embeddings_sizes (self s' : GraphFactorization)
    (graphs : list DiGraph) (prevStepInfo : bool) (Xs : list embedding)
    (t : nat) (g gp : DiGraph) :
  learn_embeddings inverse_entries gauss self graphs prevStepInfo
    = (Ok Xs, s') ->
  1 <= t ->
  nth_error graphs t = Some g -> nth_error graphs (t - 1) = Some gp ->
  number_of_nodes g = number_of_nodes gp
  \/ number_of_nodes g = 1 \/ number_of_nodes gp = 1.
Proof.
  intros H Ht Hg Hgp.
  assert (K : exists s ks, step_kappas inverse_entries s g gp = Ok ks).
  { unfold learn_embeddings in H.
    destruct (Py.getitem graphs 0) as [g0|e]; [|discriminate H].
    assert (In t (seq 1 (length graphs - 1))) as Hin.
    { apply in_seq. assert (t < length graphs); [|lia].
      apply nth_error_Some. congruence. }
    assert (Hpos : forall i, In i (seq 1 (length graphs - 1)) -> 1 <= i).
    { intros i Hi. apply in_seq in Hi. lia. }
    destruct (if prevStepInfo
              then match
                     _initEmbed (set_kappas (KScalar (_kappa self)) self)
                   with
                   | None => (Raise AttributeError, _)
                   | Some E => _
                   end
              else _) as [[r|e] s1]; [|discriminate H].
    destruct (steps inverse_entries gauss (set_Xs [np_copy r] s1) graphs
                (seq 1 (length graphs - 1))) as [[[]|e] s3] eqn:E3;
      [|discriminate H].
    destruct (steps_kappas_ok graphs _ _ _ Hpos E3 t Hin)
      as [s [gi [gq [ks [A [B Cq]]]]]].
    exists s, ks. congruence. }
  destruct K as [s [ks K]].
  destruct (Nat.eq_dec (number_of_nodes g) (number_of_nodes gp)) as [E|E];
    [now left|].
  destruct (Nat.eq_dec (number_of_nodes g) 1) as [E1|E1];
    [right; now left|].
  destruct (Nat.eq_dec (number_of_nodes gp) 1) as [E2|E2];
    [right; now right|].
  rewrite (step_kappas_sizes_differ inverse_entries s g gp E E1 E2) in K.
  discriminate K.
Qed.

Lemma sum_of_zeros (l : list Q) :
  (forall x, In x l -> (x == 0)%Q) ->
  forall a : Q, (fold_left Qplus l a == a)%Q.
Proof.
  induction l as [|x l IH]; intros H a; simpl; [reflexivity|].
  rewrite IH by (intros y Hy; apply H; now right).
  rewrite (H x (or_introl eq_refl)). ring.
Qed.

Lemma sum_map_zero (f : nat -> Q) (n : nat) :
  (forall k, k < n -> (f k == 0)%Q) -> (Np.sum (map f (seq 0 n)) == 0)%Q.
Proof.
  intros H. unfold Np.sum. apply sum_of_zeros.
  intros x Hx. apply in_map_iff in Hx. destruct Hx as [k [E Hk]].
  apply in_seq in Hk. subst x. apply H. lia.
Qed.

Lemma DeltaA_same (g g' : DiGraph) (i j : nat) :
  same_weights g g' ->
  i < number_of_nodes g -> j < number_of_nodes g ->
  (DeltaA g g' i j == 0)%Q.
Proof.
  intros [_ W] Hi Hj. unfold DeltaA. rewrite (W i j Hi Hj).
  setoid_replace (edge_weight g' i j - edge_weight g' i j)%Q with 0%Q
    by ring.
  reflexivity.
Qed.

Lemma row_sum_same (g g' : DiGraph) (G : nat -> nat -> Q) (i : nat) :
  same_weights g g' ->
  row_sum g g' (number_of_nodes g) G i = 1 # 100.
Proof.
  intros W. unfold row_sum.
  assert (Z0 : (Np.sum (map (S_entry g g' (number_of_nodes g) G i)
                        (seq 0 (number_of_nodes g))) == 0)%Q).
  { apply sum_map_zero. intros j Hj. unfold S_entry.
    apply sum_map_zero. intros k Hk. unfold M_l.
    rewrite get_tabulate by assumption.
    rewrite (DeltaA_same g g' k j W Hk Hj). ring. }
  apply Qeq_bool_iff in Z0. cbv zeta. now rewrite Z0.
Qed.

(** X24. At a step of the driver over two snapshots with the same
    weights, every node gets the penalty [kappa / 0.01], whatever matrix
    numpy returns as the inverse of [M_g]: all row sums of [S] are zero
    and are replaced by 0.01. *)
Theorem unchanged_snapshot_penalty (self : GraphFactorization)
    (g g' : DiGraph) (G : nat -> nat -> Q) :
  same_weights g g' ->
  inverse_entries (M_g g g' (number_of_nodes g)) = Ok G ->
  step_kappas inverse_entries self g g'
  = Ok (repeat (_kappa self / (1 # 100))%Q (number_of_nodes g)).
Proof.
  intros W HG.
  rewrite (step_kappas_penalty inverse_entries self g g' (number_of_nodes g)
             G eq_refl (eq_sym (proj1 W)) HG).
  f_equal.
  assert (E : forall l : list nat,
             map (penalty (_kappa self) g g' (number_of_nodes g) G) l
             = repeat (_kappa self / (1 # 100))%Q (length l)).
  { induction l as [|i l IH]; simpl; [reflexivity|].
    rewrite IH. f_equal. unfold penalty. now rewrite row_sum_same. }
  now rewrite E, length_seq.
Qed.

(** C6. At a step of the driver over two consecutive snapshots of
    different sizes, neither of a single node, no penalty vector is
    computed: [X_curr - X_prev] on line 151 raises [ValueError], the
    step stops there and the object, [self._kappas] included, is left
    as it was.  This is the case of a snapshot larger than the previous
    one. *)
Theorem driver_raises_when_size_changes (self : GraphFactorization)
    (graphs : list DiGraph) (t : nat) (graph_t graph_p : DiGraph) :
  1 <= t ->
  nth_error graphs t = Some graph_t ->
  nth_error graphs (t - 1) = Some graph_p ->
  number_of_nodes graph_t <> number_of_nodes graph_p ->
  number_of_nodes graph_t <> 1 ->
  number_of_nodes graph_p <> 1 ->
  step_kappas inverse_entries self graph_t graph_p = Raise ValueError
  /\ step_prepare inverse_entries self graphs t = (Raise ValueError, self).
Proof.
  intros Ht Hgt Hgp Hne H1 Hp1.
  pose proof (step_kappas_sizes_differ inverse_entries self graph_t graph_p
                Hne H1 Hp1) as K.
  split; [exact K|].
  unfold step_prepare.
  rewrite (getitem_nat _ graphs t graph_t Hgt).
  rewrite (getitem_pred _ graphs t graph_p Ht Hgp).
  now rewrite K.
Qed.

(** C8. On a sequence whose second snapshot has another size than the
    first, neither of a single node, [learn_embeddings] never returns
    and never divides the learning rate: the run raises with [self._eta]
    still at its initial value, whatever the number of snapshots.  When
    the first snapshot has been embedded, the exception is the
    [ValueError] of line 151, raised before line 159 is reached, and
    [self._Xs] holds the first embedding only. *)
Theorem learning_rate_undivided_when_size_changes
    (self : GraphFactorization) (g0 g1 : DiGraph) (rest : list DiGraph)
    (prevStepInfo : bool) :
  number_of_nodes g1 <> number_of_nodes g0 ->
  number_of_nodes g1 <> 1 ->
  number_of_nodes g0 <> 1 ->
  (exists e : exn,
     fst (learn_embeddings inverse_entries gauss self (g0 :: g1 :: rest)
            prevStepInfo) = Raise e)
  /\ _eta (snd (learn_embeddings inverse_entries gauss self
                  (g0 :: g1 :: rest) prevStepInfo)) = _eta self
  /\ forall (r : option ndarray) (s1 : GraphFactorization),
       learn_embedding gauss (set_kappas (KScalar (_kappa self)) self) g0
         None = (Ok r, s1) ->
       learn_embeddings inverse_entries gauss self (g0 :: g1 :: rest) false
       = (Raise ValueError, set_Xs [np_copy r] s1).
Proof.
  intros Hne H1 H0.
  set (s0 := set_kappas (KScalar (_kappa self)) self).
  assert (Step : forall s : GraphFactorization,
             steps inverse_entries gauss s (g0 :: g1 :: rest)
               (seq 1 (length (g0 :: g1 :: rest) - 1))
             = (Raise ValueError, s)).
  { intros s. cbn [length Nat.sub seq steps].
    unfold step_prepare.
    rewrite (getitem_nat _ (g0 :: g1 :: rest) 1 g1 eq_refl).
    rewrite (getitem_pred _ (g0 :: g1 :: rest) 1 g0 (le_n 1) eq_refl).
    now rewrite (step_kappas_sizes_differ inverse_entries s g1 g0 Hne H1
                   H0). }
  assert (Run : forall (b : bool) (r : result (option ndarray))
                       (s1 : GraphFactorization),
             (if b
              then match _initEmbed s0 with
                   | None => (Raise AttributeError, s0)
                   | Some E => learn_embedding gauss s0 g0 (Some (Mat E))
                   end
              else learn_embedding gauss s0 g0 None) = (r, s1) ->
             learn_embeddings inverse_entries gauss self (g0 :: g1 :: rest) b
             = match r with
               | Raise e => (Raise e, s1)
               | Ok r' => (Raise ValueError, set_Xs [np_copy r'] s1)
               end).
  { intros b r s1 E. unfold learn_embeddings. fold s0.
    change (Py.getitem (g0 :: g1 :: rest) 0) with (Ok g0).
    cbv iota beta. rewrite E. destruct r as [r'|e]; [|reflexivity].
    now rewrite Step. }
  assert (First : exists r s1,
             (if prevStepInfo
              then match _initEmbed s0 with
                   | None => (Raise AttributeError, s0)
                   | Some E => learn_embedding gauss s0 g0 (Some (Mat E))
                   end
              else learn_embedding gauss s0 g0 None) = (r, s1)
             /\ _eta s1 = _eta self).
  { destruct prevStepInfo.
    - destruct (_initEmbed s0) as [E|].
      + pose proof (learn_embedding_frame gauss s0 g0 (Some (Mat E))) as F.
        destruct (learn_embedding gauss s0 g0 (Some (Mat E))) as [r s1].
        exists r, s1. split; [reflexivity|]. apply F.
      + eexists. eexists. split; reflexivity.
    - pose proof (learn_embedding_frame gauss s0 g0 None) as F.
      destruct (learn_embedding gauss s0 g0 None) as [r s1].
      exists r, s1. split; [reflexivity|]. apply F. }
  destruct First as [r [s1 [E Heta]]].
  rewrite (Run prevStepInfo r s1 E).
  split; [|split].
  - destruct r as [r'|e]; eexists; reflexivity.
  - destruct r as [r'|e]; exact Heta.
  - intros r' s1' E'. exact (Run false (Ok r') s1' E').
Qed.

(** X25. On an object fresh from the constructor, [get_embedding],
    [get_embeddings], [get_edge_weight] and [get_reconstructed_adj()]
    raise [AttributeError]: the constructor assigns none of [_X], [_Xs]
    and [_node_num].  When no [initEmbed] was given, the driver called
    with [prevStepInfo=True] on a non-empty list raises [AttributeError]
    as well, at [self._initEmbed]. *)
Theorem attributes_unset_after_init (d n_iter n_iter_sub : nat)
    (eta regu kappa : Q) (initEmbed : option ndarray) (seed : nat)
    (i j : Z) (g : DiGraph) (gs : list DiGraph) :
  let fresh := __init__ d n_iter n_iter_sub eta regu kappa initEmbed seed in
  get_embedding fresh = Raise AttributeError
  /\ get_embeddings fresh = Raise AttributeError
  /\ get_edge_weight fresh i j = Raise AttributeError
  /\ fst (get_reconstructed_adj fresh None) = Raise AttributeError
  /\ fst (learn_embeddings inverse_entries gauss
            (__init__ d n_iter n_iter_sub eta regu kappa None seed)
            (g :: gs) true)
     = Raise AttributeError.
Proof.
  cbv zeta. repeat split.
Qed.

End Driver.

Lemma driver_raises_when_size_changes_witness :
  step_kappas gauss_jordan after_first_snapshot star3 pair_graph
  = Raise ValueError
  /\ step_prepare gauss_jordan after_first_snapshot growing_snapshots 1
     = (Raise ValueError, after_first_snapshot).
Proof.
  apply (driver_raises_when_size_changes gauss_jordan after_first_snapshot
           growing_snapshots 1 star3 pair_graph (le_n 1) eq_refl eq_refl).
  - simpl. lia.
  - simpl. lia.
  - simpl. lia.
Defined.

Lemma learning_rate_undivided_when_size_changes_witness :
  fst (learn_embeddings gauss_jordan samples short_model growing_snapshots
         false) = Raise ValueError
  /\ _eta (snd (learn_embeddings gauss_jordan samples short_model
                  growing_snapshots false)) = 1 # 10.
Proof.
  assert (N1 : number_of_nodes star3 <> number_of_nodes pair_graph)
    by (simpl; lia).
  assert (N2 : number_of_nodes star3 <> 1) by (simpl; lia).
  assert (N3 : number_of_nodes pair_graph <> 1) by (simpl; lia).
  destruct (learning_rate_undivided_when_size_changes gauss_jordan samples
              short_model pair_graph star3 [star4] false N1 N2 N3)
    as [_ [Heta Hrun]].
  split; [|exact Heta].
  destruct (learn_embedding samples
              (set_kappas (KScalar (_kappa short_model)) short_model)
              pair_graph None) as [[r|e] s1] eqn:E.
  - unfold growing_snapshots. now rewrite (Hrun r s1 eq_refl).
  - vm_compute in E. discriminate E.
Defined.

Lemma learn_embeddings_entries_witness :
  exists (Xs : list embedding) (s' : GraphFactorization),
    learn_embeddings gauss_jordan samples short_model two_snapshots false
      = (Ok Xs, s')
    /\ get_embeddings s' = Ok Xs
    /\ Forall2 (entry_matches (_d short_model)) two_snapshots Xs.
Proof.
  destruct (learn_embeddings gauss_jordan samples short_model two_snapshots
              false) as [[Xs|e] s'] eqn:E.
  - exists Xs, s'. split; [reflexivity|].
    exact (learn_embeddings_entries gauss_jordan samples short_model s'
             two_snapshots false Xs E).
  - vm_compute in E. discriminate E.
Defined.

Lemma learn_embeddings_none_is_final_witness :
  (exists (Xs : list embedding) (s' : GraphFactorization),
     learn_embeddings gauss_jordan samples short_model [one_way; other_way]
       false = (Ok Xs, s'))
  /\ symmetry_test_passes other_way = false.
Proof.
  destruct (learn_embeddings gauss_jordan samples short_model
              [one_way; other_way] false) as [[Xs|e] s'] eqn:E.
  - split; [now exists Xs, s'|].
    exact (learn_embeddings_none_is_final gauss_jordan samples short_model
             s' [one_way; other_way] false Xs 0 1 one_way other_way E
             (le_S 0 0 (le_n 0)) eq_refl eq_refl eq_refl).
  - vm_compute in E. discriminate E.
Defined.

Lemma learn_embeddings_sizes_witness :
  (exists (Xs : list embedding) (s' : GraphFactorization),
     learn_embeddings gauss_jordan samples short_model two_snapshots false
       = (Ok Xs, s'))
  /\ (number_of_nodes pair_graph = number_of_nodes pair_graph
      \/ number_of_nodes pair_graph = 1 \/ number_of_nodes pair_graph = 1).
Proof.
  destruct (learn_embeddings gauss_jordan samples short_model two_snapshots
              false) as [[Xs|e] s'] eqn:E.
  - split; [now exists Xs, s'|].
    exact (learn_embeddings_sizes gauss_jordan samples short_model s'
             two_snapshots false Xs 1 pair_graph pair_graph E (le_n 1)
             eq_refl eq_refl).
  - vm_compute in E. discriminate E.
Defined.

Lemma unchanged_snapshot_penalty_witness :
  step_kappas gauss_jordan model pair_graph pair_graph
  = Ok (repeat (_kappa model / (1 # 100))%Q 2).
Proof.
  destruct (gauss_jordan (M_g pair_graph pair_graph
                            (number_of_nodes pair_graph)))
    as [G|e] eqn:E.
  - apply (unchanged_snapshot_penalty gauss_jordan model pair_graph
             pair_graph G); [|exact E].
    split; [reflexivity|]. intros i j _ _. reflexivity.
  - vm_compute in E. discriminate E.
Defined.

End GraphFacDriverFacts.
